(** * Judging system: relational schema, row-level security, invitation
      function and client state mirror

    The development follows the three artefacts of the repository:

    - [supabase/migrations/001_judging_system_schema.sql]: nine tables with
      their column constraints, foreign keys and row-level-security
      policies.  The tables are records, a database state is a record of
      row lists, and every data-modification statement is a function from
      states to [result db], returning the constraint that rejected it.
    - [supabase/functions/send-judge-invitation/index.ts]: the HTTP handler,
      as a function from requests to a response and the console output.
    - the React context provider ([AppProvider]): [loadData], as a
      computation over the five state cells and the local storage.

    The indexes that end the migration change no result of a statement
    and are left out, and so is the part of the provider that talks to
    the authentication service. *)

From Stdlib Require Import ZArith NArith QArith Qabs List String Ascii Bool Lia.
From stdpp Require Import base option list strings gmap.

Local Open Scope string_scope.
Local Open Scope list_scope.

(* ===================================================================== *)
(** * SQL values *)
(* ===================================================================== *)

Module Sql.

(** [uuid], [text] and [timestamptz] columns.  A nullable column of type
    [A] is an [option A]; [None] is SQL's NULL. *)
Definition uuid := N.
Definition text := string.
Definition timestamptz := Z.
Definition jsonb := string.

(** PostgreSQL's [numeric]: arbitrary-precision decimals together with the
    special values.  In the type's ordering [-Infinity] is below every
    number, [Infinity] above, and [NaN] is equal to itself and above every
    other value. *)
Inductive numeric : Type :=
| Num (q : Q)
| PosInf
| NegInf
| NaN.

Definition numeric_le (a b : numeric) : bool :=
  match a, b with
  | NegInf, _ => true
  | _, NaN => true
  | NaN, _ => false
  | _, NegInf => false
  | _, PosInf => true
  | PosInf, Num _ => false
  | Num x, Num y => Qle_bool x y
  end.

Definition numeric_of_Z (z : Z) : numeric := Num (inject_Z z).

(** Three-valued logic: [None] is "unknown". *)
Definition tri := option bool.

Definition sql_and (a b : tri) : tri :=
  match a, b with
  | Some false, _ | _, Some false => Some false
  | Some true, Some true => Some true
  | _, _ => None
  end.

Definition sql_le (a b : option numeric) : tri :=
  match a, b with
  | Some x, Some y => Some (numeric_le x y)
  | _, _ => None
  end.

Definition sql_ge (a b : option numeric) : tri := sql_le b a.

Definition sql_eq_uuid (a b : option uuid) : tri :=
  match a, b with
  | Some x, Some y => Some (N.eqb x y)
  | _, _ => None
  end.

Definition sql_eq_text (a b : option text) : tri :=
  match a, b with
  | Some x, Some y => Some (String.eqb x y)
  | _, _ => None
  end.

(** A WHERE clause, a policy expression or a uniqueness comparison holds
    only when it evaluates to true. *)
Definition is_true (t : tri) : bool :=
  match t with Some true => true | _ => false end.

(** A CHECK constraint is violated only when it evaluates to false. *)
Definition check_passes (t : tri) : bool :=
  match t with Some false => false | _ => true end.

Definition is_null {A} (a : option A) : bool :=
  match a with None => true | Some _ => false end.

(** The errors a statement can end with, named by SQLSTATE condition, with
    the column or constraint that raised it. *)
Inductive pg_error : Type :=
| not_null_violation (column : string)
| check_violation (constraint : string)
| unique_violation (constraint : string)
| foreign_key_violation (constraint : string)
| insufficient_privilege (table : string).

Inductive result (A : Type) : Type :=
| Ok (a : A)
| Err (e : pg_error).
Arguments Ok {A} a.
Arguments Err {A} e.

Definition bind {A B} (m : result A) (k : A -> result B) : result B :=
  match m with
  | Ok a => k a
  | Err e => Err e
  end.

(** [require b e]: go on when [b] holds, else fail with [e]. *)
Definition require (b : bool) (e : pg_error) : result unit :=
  if b then Ok tt else Err e.

End Sql.
Import Sql.

Global Instance result_bind : MBind result := fun A B k m => Sql.bind m k.
Global Instance result_ret : MRet result := fun A a => Ok a.

(* ===================================================================== *)
(** * The nine tables *)
(* ===================================================================== *)

(** One record per CREATE TABLE, one field per column, in the order of the
    migration.  Every column is an [option]: the constraints below, not the
    types, reject a NULL where the schema says NOT NULL or PRIMARY KEY. *)

Module Events.
Record row : Type := {
  id : option uuid;               (* uuid PRIMARY KEY DEFAULT gen_random_uuid() *)
  name : option text;             (* text NOT NULL *)
  description : option text;
  status : option text;           (* text DEFAULT 'draft' *)
  start_date : option timestamptz;
  end_date : option timestamptz;
  created_by : option uuid;       (* uuid REFERENCES profiles(id) *)
  created_at : option timestamptz;
  updated_at : option timestamptz
}.
End Events.

Module Categories.
Record row : Type := {
  id : option uuid;               (* uuid PRIMARY KEY *)
  event_id : option uuid;         (* REFERENCES events(id) ON DELETE CASCADE *)
  name : option text;             (* text NOT NULL *)
  description : option text;
  weight : option numeric;        (* numeric DEFAULT 1 *)
  criteria : option jsonb;        (* jsonb DEFAULT '[]' *)
  created_at : option timestamptz
}.
End Categories.

Module Teams.
Record row : Type := {
  id : option uuid;               (* uuid PRIMARY KEY *)
  event_id : option uuid;         (* REFERENCES events(id) ON DELETE CASCADE *)
  name : option text;             (* text NOT NULL *)
  category_id : option uuid;      (* REFERENCES categories(id) *)
  description : option text;
  members : option jsonb;         (* jsonb DEFAULT '[]' *)
  created_at : option timestamptz
}.
End Teams.

Module Judges.
Record row : Type := {
  id : option uuid;               (* uuid PRIMARY KEY *)
  event_id : option uuid;         (* REFERENCES events(id) ON DELETE CASCADE *)
  name : option text;             (* text NOT NULL *)
  email : option text;            (* text NOT NULL *)
  access_token : option text;     (* text UNIQUE NOT NULL *)
  invitation_sent : option bool;  (* boolean DEFAULT false *)
  invitation_sent_at : option timestamptz;
  created_at : option timestamptz
}.
End Judges.

Module JudgeAssignments.
Record row : Type := {
  id : option uuid;               (* uuid PRIMARY KEY *)
  judge_id : option uuid;         (* REFERENCES judges(id) ON DELETE CASCADE *)
  category_id : option uuid;      (* REFERENCES categories(id) ON DELETE CASCADE *)
  team_id : option uuid;          (* REFERENCES teams(id) ON DELETE CASCADE *)
  round_number : option Z;        (* integer DEFAULT 1 *)
  created_at : option timestamptz
  (* UNIQUE(judge_id, team_id, round_number) *)
}.
End JudgeAssignments.

Module ScoringRounds.
Record row : Type := {
  id : option uuid;               (* uuid PRIMARY KEY *)
  event_id : option uuid;         (* REFERENCES events(id) ON DELETE CASCADE *)
  round_number : option Z;        (* integer NOT NULL *)
  name : option text;             (* text NOT NULL *)
  status : option text;           (* text DEFAULT 'pending' *)
  started_at : option timestamptz;
  completed_at : option timestamptz;
  created_at : option timestamptz
  (* UNIQUE(event_id, round_number) *)
}.
End ScoringRounds.

Module Scores.
Record row : Type := {
  id : option uuid;               (* uuid PRIMARY KEY *)
  judge_id : option uuid;         (* REFERENCES judges(id) ON DELETE CASCADE *)
  team_id : option uuid;          (* REFERENCES teams(id) ON DELETE CASCADE *)
  category_id : option uuid;      (* REFERENCES categories(id) ON DELETE CASCADE *)
  round_id : option uuid;         (* REFERENCES scoring_rounds(id) ON DELETE CASCADE *)
  criterion_name : option text;   (* text NOT NULL *)
  score : option numeric;         (* numeric NOT NULL CHECK (score >= 0 AND score <= 10) *)
  comments : option text;
  submitted_at : option timestamptz
  (* UNIQUE(judge_id, team_id, round_id, criterion_name) *)
}.
End Scores.

Module NormalizedScores.
Record row : Type := {
  id : option uuid;               (* uuid PRIMARY KEY *)
  judge_id : option uuid;         (* REFERENCES judges(id) ON DELETE CASCADE *)
  team_id : option uuid;          (* REFERENCES teams(id) ON DELETE CASCADE *)
  round_id : option uuid;         (* REFERENCES scoring_rounds(id) ON DELETE CASCADE *)
  raw_score : option numeric;     (* numeric NOT NULL *)
  normalized_score : option numeric; (* numeric NOT NULL *)
  percentile : option numeric;
  rank : option Z;
  selected_for_round2 : option bool; (* boolean DEFAULT false *)
  created_at : option timestamptz
  (* UNIQUE(judge_id, team_id, round_id) *)
}.
End NormalizedScores.

Module FinalResults.
Record row : Type := {
  id : option uuid;               (* uuid PRIMARY KEY *)
  event_id : option uuid;         (* REFERENCES events(id) ON DELETE CASCADE *)
  team_id : option uuid;          (* REFERENCES teams(id) ON DELETE CASCADE *)
  final_score : option numeric;   (* numeric NOT NULL *)
  final_rank : option Z;
  correlation_coefficient : option numeric;
  created_at : option timestamptz
  (* UNIQUE(event_id, team_id) *)
}.
End FinalResults.

(** ** Database states *)

(** The rows of each table, oldest first.  [profiles] is the table that
    [events.created_by] references; the migration does not create it, so
    only the ids of its rows are kept. *)
Record db : Type := {
  profiles : list uuid;
  events : list Events.row;
  categories : list Categories.row;
  teams : list Teams.row;
  judges : list Judges.row;
  judge_assignments : list JudgeAssignments.row;
  scoring_rounds : list ScoringRounds.row;
  scores : list Scores.row;
  normalized_scores : list NormalizedScores.row;
  final_results : list FinalResults.row
}.

Definition empty_db (ps : list uuid) : db :=
  {| profiles := ps; events := []; categories := []; teams := [];
     judges := []; judge_assignments := []; scoring_rounds := [];
     scores := []; normalized_scores := []; final_results := [] |}.

Definition with_events (d : db) (l : list Events.row) : db :=
  {| profiles := d.(profiles); events := l; categories := d.(categories);
     teams := d.(teams); judges := d.(judges);
     judge_assignments := d.(judge_assignments);
     scoring_rounds := d.(scoring_rounds); scores := d.(scores);
     normalized_scores := d.(normalized_scores);
     final_results := d.(final_results) |}.

Definition with_categories (d : db) (l : list Categories.row) : db :=
  {| profiles := d.(profiles); events := d.(events); categories := l;
     teams := d.(teams); judges := d.(judges);
     judge_assignments := d.(judge_assignments);
     scoring_rounds := d.(scoring_rounds); scores := d.(scores);
     normalized_scores := d.(normalized_scores);
     final_results := d.(final_results) |}.

Definition with_teams (d : db) (l : list Teams.row) : db :=
  {| profiles := d.(profiles); events := d.(events);
     categories := d.(categories); teams := l; judges := d.(judges);
     judge_assignments := d.(judge_assignments);
     scoring_rounds := d.(scoring_rounds); scores := d.(scores);
     normalized_scores := d.(normalized_scores);
     final_results := d.(final_results) |}.

Definition with_judges (d : db) (l : list Judges.row) : db :=
  {| profiles := d.(profiles); events := d.(events);
     categories := d.(categories); teams := d.(teams); judges := l;
     judge_assignments := d.(judge_assignments);
     scoring_rounds := d.(scoring_rounds); scores := d.(scores);
     normalized_scores := d.(normalized_scores);
     final_results := d.(final_results) |}.

Definition with_judge_assignments (d : db) (l : list JudgeAssignments.row) : db :=
  {| profiles := d.(profiles); events := d.(events);
     categories := d.(categories); teams := d.(teams); judges := d.(judges);
     judge_assignments := l;
     scoring_rounds := d.(scoring_rounds); scores := d.(scores);
     normalized_scores := d.(normalized_scores);
     final_results := d.(final_results) |}.

Definition with_scoring_rounds (d : db) (l : list ScoringRounds.row) : db :=
  {| profiles := d.(profiles); events := d.(events);
     categories := d.(categories); teams := d.(teams); judges := d.(judges);
     judge_assignments := d.(judge_assignments);
     scoring_rounds := l; scores := d.(scores);
     normalized_scores := d.(normalized_scores);
     final_results := d.(final_results) |}.

Definition with_scores (d : db) (l : list Scores.row) : db :=
  {| profiles := d.(profiles); events := d.(events);
     categories := d.(categories); teams := d.(teams); judges := d.(judges);
     judge_assignments := d.(judge_assignments);
     scoring_rounds := d.(scoring_rounds); scores := l;
     normalized_scores := d.(normalized_scores);
     final_results := d.(final_results) |}.

Definition with_normalized_scores (d : db) (l : list NormalizedScores.row) : db :=
  {| profiles := d.(profiles); events := d.(events);
     categories := d.(categories); teams := d.(teams); judges := d.(judges);
     judge_assignments := d.(judge_assignments);
     scoring_rounds := d.(scoring_rounds); scores := d.(scores);
     normalized_scores := l;
     final_results := d.(final_results) |}.

Definition with_final_results (d : db) (l : list FinalResults.row) : db :=
  {| profiles := d.(profiles); events := d.(events);
     categories := d.(categories); teams := d.(teams); judges := d.(judges);
     judge_assignments := d.(judge_assignments);
     scoring_rounds := d.(scoring_rounds); scores := d.(scores);
     normalized_scores := d.(normalized_scores);
     final_results := l |}.

(* ===================================================================== *)
(** * Constraints *)
(* ===================================================================== *)

Definition sql_eq_int (a b : option Z) : tri :=
  match a, b with
  | Some x, Some y => Some (Z.eqb x y)
  | _, _ => None
  end.

(** [WHERE id = k] on a row whose id column is [i]. *)
Definition id_is (k : uuid) (i : option uuid) : bool :=
  is_true (sql_eq_uuid i (Some k)).

(** Is there a row with primary key [k]? *)
Definition has_id {R} (id_of : R -> option uuid) (l : list R) (k : uuid) : bool :=
  existsb (fun x => id_is k (id_of x)) l.

(** A foreign-key column (MATCH SIMPLE): a NULL reference is accepted, any
    other value must be the key of a row of the referenced table. *)
Definition fk_ok {R} (id_of : R -> option uuid) (l : list R) (ref : option uuid) : bool :=
  match ref with
  | None => true
  | Some k => has_id id_of l k
  end.

(** PRIMARY KEY on [id]: not null and not the id of an existing row. *)
Definition pkey_ok {R} (id_of : R -> option uuid) (l : list R) (i : option uuid) : bool :=
  match i with
  | None => false
  | Some k => negb (has_id id_of l k)
  end.

(** [CHECK (score >= 0 AND score <= 10)] *)
Definition scores_score_check (r : Scores.row) : tri :=
  sql_and (sql_ge r.(Scores.score) (Some (numeric_of_Z 0)))
          (sql_le r.(Scores.score) (Some (numeric_of_Z 10))).

(** Two rows collide on a UNIQUE constraint when every column of the key
    compares equal; a NULL in any of them compares as unknown, so rows with
    a NULL key column never collide. *)

(** [UNIQUE(judge_id, team_id, round_id, criterion_name)] *)
Definition scores_key_collides (a b : Scores.row) : bool :=
  is_true (sql_eq_uuid a.(Scores.judge_id) b.(Scores.judge_id)) &&
  is_true (sql_eq_uuid a.(Scores.team_id) b.(Scores.team_id)) &&
  is_true (sql_eq_uuid a.(Scores.round_id) b.(Scores.round_id)) &&
  is_true (sql_eq_text a.(Scores.criterion_name) b.(Scores.criterion_name)).

(** [access_token text UNIQUE] *)
Definition judges_key_collides (a b : Judges.row) : bool :=
  is_true (sql_eq_text a.(Judges.access_token) b.(Judges.access_token)).

(** [UNIQUE(judge_id, team_id, round_number)] *)
Definition judge_assignments_key_collides (a b : JudgeAssignments.row) : bool :=
  is_true (sql_eq_uuid a.(JudgeAssignments.judge_id) b.(JudgeAssignments.judge_id)) &&
  is_true (sql_eq_uuid a.(JudgeAssignments.team_id) b.(JudgeAssignments.team_id)) &&
  is_true (sql_eq_int a.(JudgeAssignments.round_number) b.(JudgeAssignments.round_number)).

(** [UNIQUE(event_id, round_number)] *)
Definition scoring_rounds_key_collides (a b : ScoringRounds.row) : bool :=
  is_true (sql_eq_uuid a.(ScoringRounds.event_id) b.(ScoringRounds.event_id)) &&
  is_true (sql_eq_int a.(ScoringRounds.round_number) b.(ScoringRounds.round_number)).

(** [UNIQUE(judge_id, team_id, round_id)] *)
Definition normalized_scores_key_collides (a b : NormalizedScores.row) : bool :=
  is_true (sql_eq_uuid a.(NormalizedScores.judge_id) b.(NormalizedScores.judge_id)) &&
  is_true (sql_eq_uuid a.(NormalizedScores.team_id) b.(NormalizedScores.team_id)) &&
  is_true (sql_eq_uuid a.(NormalizedScores.round_id) b.(NormalizedScores.round_id)).

(** [UNIQUE(event_id, team_id)] *)
Definition final_results_key_collides (a b : FinalResults.row) : bool :=
  is_true (sql_eq_uuid a.(FinalResults.event_id) b.(FinalResults.event_id)) &&
  is_true (sql_eq_uuid a.(FinalResults.team_id) b.(FinalResults.team_id)).

Definition not_null {A} (column : string) (v : option A) : result unit :=
  require (negb (is_null v)) (not_null_violation column).

(* ===================================================================== *)
(** * INSERT *)
(* ===================================================================== *)

(** An INSERT of one row, the columns taken after their DEFAULTs were
    filled in.  PostgreSQL checks, in this order: the NOT NULL columns
    (in column order) and the CHECK constraints; the unique indexes (the
    primary key first); the foreign keys at the end of the statement.  A
    failed statement leaves the state as it was. *)

Definition insert_event (d : db) (r : Events.row) : result db :=
  not_null "id" r.(Events.id);;
  not_null "name" r.(Events.name);;
  require (pkey_ok Events.id d.(events) r.(Events.id)) (unique_violation "events_pkey");;
  require (fk_ok (fun p : uuid => Some p) d.(profiles) r.(Events.created_by))
          (foreign_key_violation "events_created_by_fkey");;
  mret (with_events d (d.(events) ++ [r])).

Definition insert_category (d : db) (r : Categories.row) : result db :=
  not_null "id" r.(Categories.id);;
  not_null "name" r.(Categories.name);;
  require (pkey_ok Categories.id d.(categories) r.(Categories.id))
          (unique_violation "categories_pkey");;
  require (fk_ok Events.id d.(events) r.(Categories.event_id))
          (foreign_key_violation "categories_event_id_fkey");;
  mret (with_categories d (d.(categories) ++ [r])).

Definition team_constraints (d : db) (r : Teams.row) : result unit :=
  require (fk_ok Events.id d.(events) r.(Teams.event_id))
          (foreign_key_violation "teams_event_id_fkey");;
  require (fk_ok Categories.id d.(categories) r.(Teams.category_id))
          (foreign_key_violation "teams_category_id_fkey").

Definition insert_team (d : db) (r : Teams.row) : result db :=
  not_null "id" r.(Teams.id);;
  not_null "name" r.(Teams.name);;
  require (pkey_ok Teams.id d.(teams) r.(Teams.id)) (unique_violation "teams_pkey");;
  team_constraints d r;;
  mret (with_teams d (d.(teams) ++ [r])).

Definition insert_judge (d : db) (r : Judges.row) : result db :=
  not_null "id" r.(Judges.id);;
  not_null "name" r.(Judges.name);;
  not_null "email" r.(Judges.email);;
  not_null "access_token" r.(Judges.access_token);;
  require (pkey_ok Judges.id d.(judges) r.(Judges.id)) (unique_violation "judges_pkey");;
  require (negb (existsb (judges_key_collides r) d.(judges)))
          (unique_violation "judges_access_token_key");;
  require (fk_ok Events.id d.(events) r.(Judges.event_id))
          (foreign_key_violation "judges_event_id_fkey");;
  mret (with_judges d (d.(judges) ++ [r])).

Definition insert_judge_assignment (d : db) (r : JudgeAssignments.row) : result db :=
  not_null "id" r.(JudgeAssignments.id);;
  require (pkey_ok JudgeAssignments.id d.(judge_assignments) r.(JudgeAssignments.id))
          (unique_violation "judge_assignments_pkey");;
  require (negb (existsb (judge_assignments_key_collides r) d.(judge_assignments)))
          (unique_violation "judge_assignments_judge_id_team_id_round_number_key");;
  require (fk_ok Judges.id d.(judges) r.(JudgeAssignments.judge_id))
          (foreign_key_violation "judge_assignments_judge_id_fkey");;
  require (fk_ok Categories.id d.(categories) r.(JudgeAssignments.category_id))
          (foreign_key_violation "judge_assignments_category_id_fkey");;
  require (fk_ok Teams.id d.(teams) r.(JudgeAssignments.team_id))
          (foreign_key_violation "judge_assignments_team_id_fkey");;
  mret (with_judge_assignments d (d.(judge_assignments) ++ [r])).

Definition insert_scoring_round (d : db) (r : ScoringRounds.row) : result db :=
  not_null "id" r.(ScoringRounds.id);;
  not_null "round_number" r.(ScoringRounds.round_number);;
  not_null "name" r.(ScoringRounds.name);;
  require (pkey_ok ScoringRounds.id d.(scoring_rounds) r.(ScoringRounds.id))
          (unique_violation "scoring_rounds_pkey");;
  require (negb (existsb (scoring_rounds_key_collides r) d.(scoring_rounds)))
          (unique_violation "scoring_rounds_event_id_round_number_key");;
  require (fk_ok Events.id d.(events) r.(ScoringRounds.event_id))
          (foreign_key_violation "scoring_rounds_event_id_fkey");;
  mret (with_scoring_rounds d (d.(scoring_rounds) ++ [r])).

(** The column constraints of [scores], checked on every row an INSERT or
    an UPDATE proposes. *)
Definition score_row_constraints (r : Scores.row) : result unit :=
  not_null "id" r.(Scores.id);;
  not_null "criterion_name" r.(Scores.criterion_name);;
  not_null "score" r.(Scores.score);;
  require (check_passes (scores_score_check r)) (check_violation "scores_score_check").

Definition score_foreign_keys (d : db) (r : Scores.row) : result unit :=
  require (fk_ok Judges.id d.(judges) r.(Scores.judge_id))
          (foreign_key_violation "scores_judge_id_fkey");;
  require (fk_ok Teams.id d.(teams) r.(Scores.team_id))
          (foreign_key_violation "scores_team_id_fkey");;
  require (fk_ok Categories.id d.(categories) r.(Scores.category_id))
          (foreign_key_violation "scores_category_id_fkey");;
  require (fk_ok ScoringRounds.id d.(scoring_rounds) r.(Scores.round_id))
          (foreign_key_violation "scores_round_id_fkey").

Definition insert_score (d : db) (r : Scores.row) : result db :=
  score_row_constraints r;;
  require (pkey_ok Scores.id d.(scores) r.(Scores.id)) (unique_violation "scores_pkey");;
  require (negb (existsb (scores_key_collides r) d.(scores)))
          (unique_violation "scores_judge_id_team_id_round_id_criterion_name_key");;
  score_foreign_keys d r;;
  mret (with_scores d (d.(scores) ++ [r])).

Definition insert_normalized_score (d : db) (r : NormalizedScores.row) : result db :=
  not_null "id" r.(NormalizedScores.id);;
  not_null "raw_score" r.(NormalizedScores.raw_score);;
  not_null "normalized_score" r.(NormalizedScores.normalized_score);;
  require (pkey_ok NormalizedScores.id d.(normalized_scores) r.(NormalizedScores.id))
          (unique_violation "normalized_scores_pkey");;
  require (negb (existsb (normalized_scores_key_collides r) d.(normalized_scores)))
          (unique_violation "normalized_scores_judge_id_team_id_round_id_key");;
  require (fk_ok Judges.id d.(judges) r.(NormalizedScores.judge_id))
          (foreign_key_violation "normalized_scores_judge_id_fkey");;
  require (fk_ok Teams.id d.(teams) r.(NormalizedScores.team_id))
          (foreign_key_violation "normalized_scores_team_id_fkey");;
  require (fk_ok ScoringRounds.id d.(scoring_rounds) r.(NormalizedScores.round_id))
          (foreign_key_violation "normalized_scores_round_id_fkey");;
  mret (with_normalized_scores d (d.(normalized_scores) ++ [r])).

Definition insert_final_result (d : db) (r : FinalResults.row) : result db :=
  not_null "id" r.(FinalResults.id);;
  not_null "final_score" r.(FinalResults.final_score);;
  require (pkey_ok FinalResults.id d.(final_results) r.(FinalResults.id))
          (unique_violation "final_results_pkey");;
  require (negb (existsb (final_results_key_collides r) d.(final_results)))
          (unique_violation "final_results_event_id_team_id_key");;
  require (fk_ok Events.id d.(events) r.(FinalResults.event_id))
          (foreign_key_violation "final_results_event_id_fkey");;
  require (fk_ok Teams.id d.(teams) r.(FinalResults.team_id))
          (foreign_key_violation "final_results_team_id_fkey");;
  mret (with_final_results d (d.(final_results) ++ [r])).

(** ** Column defaults of [scoring_rounds] *)

(** A column of an INSERT is either left out, and then takes its DEFAULT
    (NULL when the column has none), or given, possibly as NULL. *)
Inductive col (A : Type) : Type :=
| Omitted
| Given (a : option A).
Arguments Omitted {A}.
Arguments Given {A} a.

Definition with_default {A} (dflt : option A) (c : col A) : option A :=
  match c with
  | Omitted => dflt
  | Given a => a
  end.

Module ScoringRoundsInsert.
Record columns : Type := {
  id : col uuid;
  event_id : col uuid;
  round_number : col Z;
  name : col text;
  status : col text;
  started_at : col timestamptz;
  completed_at : col timestamptz;
  created_at : col timestamptz
}.
End ScoringRoundsInsert.

(** The row an INSERT into [scoring_rounds] proposes; [fresh] is what
    [gen_random_uuid()] returns and [now] what [now()] returns. *)
Definition scoring_round_defaults (fresh : uuid) (now : timestamptz)
    (c : ScoringRoundsInsert.columns) : ScoringRounds.row :=
  {| ScoringRounds.id := with_default (Some fresh) c.(ScoringRoundsInsert.id);
     ScoringRounds.event_id := with_default None c.(ScoringRoundsInsert.event_id);
     ScoringRounds.round_number := with_default None c.(ScoringRoundsInsert.round_number);
     ScoringRounds.name := with_default None c.(ScoringRoundsInsert.name);
     ScoringRounds.status := with_default (Some "pending") c.(ScoringRoundsInsert.status);
     ScoringRounds.started_at := with_default None c.(ScoringRoundsInsert.started_at);
     ScoringRounds.completed_at := with_default None c.(ScoringRoundsInsert.completed_at);
     ScoringRounds.created_at := with_default (Some now) c.(ScoringRoundsInsert.created_at) |}.

Definition insert_scoring_round_columns (fresh : uuid) (now : timestamptz)
    (d : db) (c : ScoringRoundsInsert.columns) : result db :=
  insert_scoring_round d (scoring_round_defaults fresh now c).

(* ===================================================================== *)
(** * UPDATE *)
(* ===================================================================== *)

(** [UPDATE t SET ... WHERE id = k], every column but [id] set from [r];
    the primary key of a row is never rewritten.  When no row has the id,
    the statement changes nothing and succeeds. *)

Definition replace_row {R} (id_of : R -> option uuid) (k : uuid) (r : R) (l : list R) : list R :=
  map (fun x => if id_is k (id_of x) then r else x) l.

(** The rows other than the one with id [k]. *)
Definition others {R} (id_of : R -> option uuid) (k : uuid) (l : list R) : list R :=
  List.filter (fun x => negb (id_is k (id_of x))) l.

Definition team_with_id (k : uuid) (r : Teams.row) : Teams.row :=
  {| Teams.id := Some k; Teams.event_id := r.(Teams.event_id);
     Teams.name := r.(Teams.name); Teams.category_id := r.(Teams.category_id);
     Teams.description := r.(Teams.description); Teams.members := r.(Teams.members);
     Teams.created_at := r.(Teams.created_at) |}.

Definition update_team (d : db) (k : uuid) (r : Teams.row) : result db :=
  if has_id Teams.id d.(teams) k then
    not_null "name" r.(Teams.name);;
    team_constraints d r;;
    mret (with_teams d (replace_row Teams.id k (team_with_id k r) d.(teams)))
  else mret d.

Definition scoring_round_with_id (k : uuid) (r : ScoringRounds.row) : ScoringRounds.row :=
  {| ScoringRounds.id := Some k;
     ScoringRounds.event_id := r.(ScoringRounds.event_id);
     ScoringRounds.round_number := r.(ScoringRounds.round_number);
     ScoringRounds.name := r.(ScoringRounds.name);
     ScoringRounds.status := r.(ScoringRounds.status);
     ScoringRounds.started_at := r.(ScoringRounds.started_at);
     ScoringRounds.completed_at := r.(ScoringRounds.completed_at);
     ScoringRounds.created_at := r.(ScoringRounds.created_at) |}.

Definition update_scoring_round (d : db) (k : uuid) (r : ScoringRounds.row) : result db :=
  if has_id ScoringRounds.id d.(scoring_rounds) k then
    not_null "round_number" r.(ScoringRounds.round_number);;
    not_null "name" r.(ScoringRounds.name);;
    require (negb (existsb (scoring_rounds_key_collides r)
                           (others ScoringRounds.id k d.(scoring_rounds))))
            (unique_violation "scoring_rounds_event_id_round_number_key");;
    require (fk_ok Events.id d.(events) r.(ScoringRounds.event_id))
            (foreign_key_violation "scoring_rounds_event_id_fkey");;
    mret (with_scoring_rounds d
            (replace_row ScoringRounds.id k (scoring_round_with_id k r) d.(scoring_rounds)))
  else mret d.

Definition score_with_id (i : option uuid) (r : Scores.row) : Scores.row :=
  {| Scores.id := i; Scores.judge_id := r.(Scores.judge_id);
     Scores.team_id := r.(Scores.team_id); Scores.category_id := r.(Scores.category_id);
     Scores.round_id := r.(Scores.round_id);
     Scores.criterion_name := r.(Scores.criterion_name);
     Scores.score := r.(Scores.score); Scores.comments := r.(Scores.comments);
     Scores.submitted_at := r.(Scores.submitted_at) |}.

Definition update_score (d : db) (k : uuid) (r : Scores.row) : result db :=
  if has_id Scores.id d.(scores) k then
    score_row_constraints (score_with_id (Some k) r);;
    require (negb (existsb (scores_key_collides r) (others Scores.id k d.(scores))))
            (unique_violation "scores_judge_id_team_id_round_id_criterion_name_key");;
    score_foreign_keys d r;;
    mret (with_scores d (replace_row Scores.id k (score_with_id (Some k) r) d.(scores)))
  else mret d.

Definition event_with_id (k : uuid) (r : Events.row) : Events.row :=
  {| Events.id := Some k; Events.name := r.(Events.name);
     Events.description := r.(Events.description); Events.status := r.(Events.status);
     Events.start_date := r.(Events.start_date); Events.end_date := r.(Events.end_date);
     Events.created_by := r.(Events.created_by); Events.created_at := r.(Events.created_at);
     Events.updated_at := r.(Events.updated_at) |}.

Definition update_event (d : db) (k : uuid) (r : Events.row) : result db :=
  if has_id Events.id d.(events) k then
    not_null "name" r.(Events.name);;
    require (fk_ok (fun p : uuid => Some p) d.(profiles) r.(Events.created_by))
            (foreign_key_violation "events_created_by_fkey");;
    mret (with_events d (replace_row Events.id k (event_with_id k r) d.(events)))
  else mret d.

Definition category_with_id (k : uuid) (r : Categories.row) : Categories.row :=
  {| Categories.id := Some k; Categories.event_id := r.(Categories.event_id);
     Categories.name := r.(Categories.name);
     Categories.description := r.(Categories.description);
     Categories.weight := r.(Categories.weight); Categories.criteria := r.(Categories.criteria);
     Categories.created_at := r.(Categories.created_at) |}.

Definition update_category (d : db) (k : uuid) (r : Categories.row) : result db :=
  if has_id Categories.id d.(categories) k then
    not_null "name" r.(Categories.name);;
    require (fk_ok Events.id d.(events) r.(Categories.event_id))
            (foreign_key_violation "categories_event_id_fkey");;
    mret (with_categories d
            (replace_row Categories.id k (category_with_id k r) d.(categories)))
  else mret d.

Definition judge_with_id (k : uuid) (r : Judges.row) : Judges.row :=
  {| Judges.id := Some k; Judges.event_id := r.(Judges.event_id);
     Judges.name := r.(Judges.name); Judges.email := r.(Judges.email);
     Judges.access_token := r.(Judges.access_token);
     Judges.invitation_sent := r.(Judges.invitation_sent);
     Judges.invitation_sent_at := r.(Judges.invitation_sent_at);
     Judges.created_at := r.(Judges.created_at) |}.

Definition update_judge (d : db) (k : uuid) (r : Judges.row) : result db :=
  if has_id Judges.id d.(judges) k then
    not_null "name" r.(Judges.name);;
    not_null "email" r.(Judges.email);;
    not_null "access_token" r.(Judges.access_token);;
    require (negb (existsb (judges_key_collides r) (others Judges.id k d.(judges))))
            (unique_violation "judges_access_token_key");;
    require (fk_ok Events.id d.(events) r.(Judges.event_id))
            (foreign_key_violation "judges_event_id_fkey");;
    mret (with_judges d (replace_row Judges.id k (judge_with_id k r) d.(judges)))
  else mret d.

Definition judge_assignment_with_id (k : uuid) (r : JudgeAssignments.row)
    : JudgeAssignments.row :=
  {| JudgeAssignments.id := Some k; JudgeAssignments.judge_id := r.(JudgeAssignments.judge_id);
     JudgeAssignments.category_id := r.(JudgeAssignments.category_id);
     JudgeAssignments.team_id := r.(JudgeAssignments.team_id);
     JudgeAssignments.round_number := r.(JudgeAssignments.round_number);
     JudgeAssignments.created_at := r.(JudgeAssignments.created_at) |}.

Definition update_judge_assignment (d : db) (k : uuid) (r : JudgeAssignments.row)
    : result db :=
  if has_id JudgeAssignments.id d.(judge_assignments) k then
    require (negb (existsb (judge_assignments_key_collides r)
                           (others JudgeAssignments.id k d.(judge_assignments))))
            (unique_violation "judge_assignments_judge_id_team_id_round_number_key");;
    require (fk_ok Judges.id d.(judges) r.(JudgeAssignments.judge_id))
            (foreign_key_violation "judge_assignments_judge_id_fkey");;
    require (fk_ok Categories.id d.(categories) r.(JudgeAssignments.category_id))
            (foreign_key_violation "judge_assignments_category_id_fkey");;
    require (fk_ok Teams.id d.(teams) r.(JudgeAssignments.team_id))
            (foreign_key_violation "judge_assignments_team_id_fkey");;
    mret (with_judge_assignments d
            (replace_row JudgeAssignments.id k (judge_assignment_with_id k r)
                         d.(judge_assignments)))
  else mret d.

Definition normalized_score_with_id (k : uuid) (r : NormalizedScores.row)
    : NormalizedScores.row :=
  {| NormalizedScores.id := Some k; NormalizedScores.judge_id := r.(NormalizedScores.judge_id);
     NormalizedScores.team_id := r.(NormalizedScores.team_id);
     NormalizedScores.round_id := r.(NormalizedScores.round_id);
     NormalizedScores.raw_score := r.(NormalizedScores.raw_score);
     NormalizedScores.normalized_score := r.(NormalizedScores.normalized_score);
     NormalizedScores.percentile := r.(NormalizedScores.percentile);
     NormalizedScores.rank := r.(NormalizedScores.rank);
     NormalizedScores.selected_for_round2 := r.(NormalizedScores.selected_for_round2);
     NormalizedScores.created_at := r.(NormalizedScores.created_at) |}.

Definition update_normalized_score (d : db) (k : uuid) (r : NormalizedScores.row)
    : result db :=
  if has_id NormalizedScores.id d.(normalized_scores) k then
    not_null "raw_score" r.(NormalizedScores.raw_score);;
    not_null "normalized_score" r.(NormalizedScores.normalized_score);;
    require (negb (existsb (normalized_scores_key_collides r)
                           (others NormalizedScores.id k d.(normalized_scores))))
            (unique_violation "normalized_scores_judge_id_team_id_round_id_key");;
    require (fk_ok Judges.id d.(judges) r.(NormalizedScores.judge_id))
            (foreign_key_violation "normalized_scores_judge_id_fkey");;
    require (fk_ok Teams.id d.(teams) r.(NormalizedScores.team_id))
            (foreign_key_violation "normalized_scores_team_id_fkey");;
    require (fk_ok ScoringRounds.id d.(scoring_rounds) r.(NormalizedScores.round_id))
            (foreign_key_violation "normalized_scores_round_id_fkey");;
    mret (with_normalized_scores d
            (replace_row NormalizedScores.id k (normalized_score_with_id k r)
                         d.(normalized_scores)))
  else mret d.

Definition final_result_with_id (k : uuid) (r : FinalResults.row) : FinalResults.row :=
  {| FinalResults.id := Some k; FinalResults.event_id := r.(FinalResults.event_id);
     FinalResults.team_id := r.(FinalResults.team_id);
     FinalResults.final_score := r.(FinalResults.final_score);
     FinalResults.final_rank := r.(FinalResults.final_rank);
     FinalResults.correlation_coefficient := r.(FinalResults.correlation_coefficient);
     FinalResults.created_at := r.(FinalResults.created_at) |}.

Definition update_final_result (d : db) (k : uuid) (r : FinalResults.row) : result db :=
  if has_id FinalResults.id d.(final_results) k then
    not_null "final_score" r.(FinalResults.final_score);;
    require (negb (existsb (final_results_key_collides r)
                           (others FinalResults.id k d.(final_results))))
            (unique_violation "final_results_event_id_team_id_key");;
    require (fk_ok Events.id d.(events) r.(FinalResults.event_id))
            (foreign_key_violation "final_results_event_id_fkey");;
    require (fk_ok Teams.id d.(teams) r.(FinalResults.team_id))
            (foreign_key_violation "final_results_team_id_fkey");;
    mret (with_final_results d
            (replace_row FinalResults.id k (final_result_with_id k r) d.(final_results)))
  else mret d.

(* ===================================================================== *)
(** * DELETE and the referential actions *)
(* ===================================================================== *)

(** Is the reference [ref] one of the keys [ks]? *)
Definition in_ids (ref : option uuid) (ks : list uuid) : bool :=
  match ref with
  | None => false
  | Some k => existsb (N.eqb k) ks
  end.

Definition ids_of {R} (id_of : R -> option uuid) (l : list R) : list uuid :=
  omap id_of l.

(** The keys of the rows a DELETE removes from the five tables that other
    tables reference. *)
Record doomed : Type := {
  d_events : list uuid;
  d_categories : list uuid;
  d_teams : list uuid;
  d_judges : list uuid;
  d_rounds : list uuid
}.

(** Removing the doomed rows.  Every foreign key declared ON DELETE
    CASCADE takes the referencing rows along: [judge_assignments] by
    judge, category and team; [scores] by judge, team, category and round;
    [normalized_scores] by judge, team and round; [final_results] by event
    and team.  [teams.category_id] declares no action, which is NO ACTION:
    when the statement and its cascades are done, a remaining team that
    still references a removed category makes the whole statement fail. *)
Definition remove_doomed (d : db) (x : doomed) : result db :=
  let teams' := List.filter (fun t => negb (in_ids t.(Teams.id) x.(d_teams))) d.(teams) in
  require (forallb (fun t => negb (in_ids t.(Teams.category_id) x.(d_categories))) teams')
          (foreign_key_violation "teams_category_id_fkey");;
  mret {|
    profiles := d.(profiles);
    events := List.filter (fun e => negb (in_ids e.(Events.id) x.(d_events))) d.(events);
    categories :=
      List.filter (fun c => negb (in_ids c.(Categories.id) x.(d_categories))) d.(categories);
    teams := teams';
    judges := List.filter (fun j => negb (in_ids j.(Judges.id) x.(d_judges))) d.(judges);
    judge_assignments :=
      List.filter (fun a => negb (in_ids a.(JudgeAssignments.judge_id) x.(d_judges)
                              || in_ids a.(JudgeAssignments.category_id) x.(d_categories)
                              || in_ids a.(JudgeAssignments.team_id) x.(d_teams)))
                  d.(judge_assignments);
    scoring_rounds :=
      List.filter (fun r => negb (in_ids r.(ScoringRounds.id) x.(d_rounds))) d.(scoring_rounds);
    scores :=
      List.filter (fun s => negb (in_ids s.(Scores.judge_id) x.(d_judges)
                              || in_ids s.(Scores.team_id) x.(d_teams)
                              || in_ids s.(Scores.category_id) x.(d_categories)
                              || in_ids s.(Scores.round_id) x.(d_rounds)))
                  d.(scores);
    normalized_scores :=
      List.filter (fun n => negb (in_ids n.(NormalizedScores.judge_id) x.(d_judges)
                              || in_ids n.(NormalizedScores.team_id) x.(d_teams)
                              || in_ids n.(NormalizedScores.round_id) x.(d_rounds)))
                  d.(normalized_scores);
    final_results :=
      List.filter (fun f => negb (in_ids f.(FinalResults.event_id) x.(d_events)
                              || in_ids f.(FinalResults.team_id) x.(d_teams)))
                  d.(final_results)
  |}.

(** [DELETE FROM events WHERE id = k]: the event, and by ON DELETE CASCADE
    on their [event_id] its categories, teams, judges and scoring rounds
    (its final results go with [remove_doomed]). *)
Definition doomed_by_event (d : db) (k : uuid) : doomed :=
  {| d_events := [k];
     d_categories :=
       ids_of Categories.id
         (List.filter (fun c => in_ids c.(Categories.event_id) [k]) d.(categories));
     d_teams :=
       ids_of Teams.id (List.filter (fun t => in_ids t.(Teams.event_id) [k]) d.(teams));
     d_judges :=
       ids_of Judges.id (List.filter (fun j => in_ids j.(Judges.event_id) [k]) d.(judges));
     d_rounds :=
       ids_of ScoringRounds.id
         (List.filter (fun r => in_ids r.(ScoringRounds.event_id) [k]) d.(scoring_rounds)) |}.

Definition delete_event (d : db) (k : uuid) : result db :=
  if has_id Events.id d.(events) k then remove_doomed d (doomed_by_event d k)
  else mret d.

Definition delete_category (d : db) (k : uuid) : result db :=
  if has_id Categories.id d.(categories) k then
    remove_doomed d {| d_events := []; d_categories := [k]; d_teams := [];
                       d_judges := []; d_rounds := [] |}
  else mret d.

Definition delete_team (d : db) (k : uuid) : result db :=
  if has_id Teams.id d.(teams) k then
    remove_doomed d {| d_events := []; d_categories := []; d_teams := [k];
                       d_judges := []; d_rounds := [] |}
  else mret d.

Definition delete_judge (d : db) (k : uuid) : result db :=
  if has_id Judges.id d.(judges) k then
    remove_doomed d {| d_events := []; d_categories := []; d_teams := [];
                       d_judges := [k]; d_rounds := [] |}
  else mret d.

Definition delete_scoring_round (d : db) (k : uuid) : result db :=
  if has_id ScoringRounds.id d.(scoring_rounds) k then
    remove_doomed d {| d_events := []; d_categories := []; d_teams := [];
                       d_judges := []; d_rounds := [k] |}
  else mret d.

(** No table references the last four tables: a DELETE there removes the
    row and nothing else. *)
Definition delete_judge_assignment (d : db) (k : uuid) : result db :=
  mret (with_judge_assignments d (others JudgeAssignments.id k d.(judge_assignments))).

Definition delete_score (d : db) (k : uuid) : result db :=
  mret (with_scores d (others Scores.id k d.(scores))).

Definition delete_normalized_score (d : db) (k : uuid) : result db :=
  mret (with_normalized_scores d (others NormalizedScores.id k d.(normalized_scores))).

Definition delete_final_result (d : db) (k : uuid) : result db :=
  mret (with_final_results d (others FinalResults.id k d.(final_results))).

(* ===================================================================== *)
(** * Score submission *)
(* ===================================================================== *)

(** [l] with its first row that satisfies [p] replaced by [r]. *)
Fixpoint replace_first {R} (p : R -> bool) (r : R) (l : list R) : list R :=
  match l with
  | [] => []
  | x :: l' => if p x then r :: l' else x :: replace_first p r l'
  end.

(** [INSERT ... ON CONFLICT (judge_id, team_id, round_id, criterion_name)
    DO UPDATE SET] every column but [id] to the proposed value.  The
    proposed row is checked against the column constraints first; the
    arbiter is the unique index of the four columns, so a row conflicts
    exactly when it collides on that key.  With a conflict the existing
    row (the first one found) keeps its id and takes the proposed values;
    without one the statement goes on as a plain INSERT. *)
Definition upsert_score (d : db) (r : Scores.row) : result db :=
  score_row_constraints r;;
  match List.find (scores_key_collides r) d.(scores) with
  | Some old =>
      let r' := score_with_id old.(Scores.id) r in
      score_foreign_keys d r';;
      mret (with_scores d (replace_first (scores_key_collides r) r' d.(scores)))
  | None =>
      require (pkey_ok Scores.id d.(scores) r.(Scores.id)) (unique_violation "scores_pkey");;
      score_foreign_keys d r;;
      mret (with_scores d (d.(scores) ++ [r]))
  end.

(** Modelled from the spec: the statement with which the application
    submits a score is not part of the given sources; the spec describes it
    as an upsert driven by the unique constraint of [scores] ("idempotent
    upsert", "unique-constraint-driven upsert semantics"). *)
Definition submit_score (d : db) (r : Scores.row) : result db :=
  upsert_score d r.

(* ===================================================================== *)
(** * Statements and reachable states *)
(* ===================================================================== *)

Inductive statement : Type :=
| InsertEvent (r : Events.row)
| UpdateEvent (k : uuid) (r : Events.row)
| DeleteEvent (k : uuid)
| InsertCategory (r : Categories.row)
| UpdateCategory (k : uuid) (r : Categories.row)
| DeleteCategory (k : uuid)
| InsertTeam (r : Teams.row)
| UpdateTeam (k : uuid) (r : Teams.row)
| DeleteTeam (k : uuid)
| InsertJudge (r : Judges.row)
| UpdateJudge (k : uuid) (r : Judges.row)
| DeleteJudge (k : uuid)
| InsertJudgeAssignment (r : JudgeAssignments.row)
| UpdateJudgeAssignment (k : uuid) (r : JudgeAssignments.row)
| DeleteJudgeAssignment (k : uuid)
| InsertScoringRound (fresh : uuid) (now : timestamptz) (c : ScoringRoundsInsert.columns)
| UpdateScoringRound (k : uuid) (r : ScoringRounds.row)
| DeleteScoringRound (k : uuid)
| InsertScore (r : Scores.row)
| UpdateScore (k : uuid) (r : Scores.row)
| DeleteScore (k : uuid)
| SubmitScore (r : Scores.row)
| InsertNormalizedScore (r : NormalizedScores.row)
| UpdateNormalizedScore (k : uuid) (r : NormalizedScores.row)
| DeleteNormalizedScore (k : uuid)
| InsertFinalResult (r : FinalResults.row)
| UpdateFinalResult (k : uuid) (r : FinalResults.row)
| DeleteFinalResult (k : uuid).

Definition exec (d : db) (s : statement) : result db :=
  match s with
  | InsertEvent r => insert_event d r
  | UpdateEvent k r => update_event d k r
  | DeleteEvent k => delete_event d k
  | InsertCategory r => insert_category d r
  | UpdateCategory k r => update_category d k r
  | DeleteCategory k => delete_category d k
  | InsertTeam r => insert_team d r
  | UpdateTeam k r => update_team d k r
  | DeleteTeam k => delete_team d k
  | InsertJudge r => insert_judge d r
  | UpdateJudge k r => update_judge d k r
  | DeleteJudge k => delete_judge d k
  | InsertJudgeAssignment r => insert_judge_assignment d r
  | UpdateJudgeAssignment k r => update_judge_assignment d k r
  | DeleteJudgeAssignment k => delete_judge_assignment d k
  | InsertScoringRound fresh now c => insert_scoring_round_columns fresh now d c
  | UpdateScoringRound k r => update_scoring_round d k r
  | DeleteScoringRound k => delete_scoring_round d k
  | InsertScore r => insert_score d r
  | UpdateScore k r => update_score d k r
  | DeleteScore k => delete_score d k
  | SubmitScore r => submit_score d r
  | InsertNormalizedScore r => insert_normalized_score d r
  | UpdateNormalizedScore k r => update_normalized_score d k r
  | DeleteNormalizedScore k => delete_normalized_score d k
  | InsertFinalResult r => insert_final_result d r
  | UpdateFinalResult k r => update_final_result d k r
  | DeleteFinalResult k => delete_final_result d k
  end.

(** A state is reachable when statements that succeeded lead to it from
    the freshly migrated database, whose nine tables are empty. *)
Inductive reachable : db -> Prop :=
| reachable_migrated (ps : list uuid) : reachable (empty_db ps)
| reachable_exec (d d' : db) (s : statement) :
    reachable d -> exec d s = Ok d' -> reachable d'.

(** Running a list of statements, stopping at the first that fails. *)
Fixpoint run (d : db) (ss : list statement) : result db :=
  match ss with
  | [] => Ok d
  | s :: ss' => d' ← exec d s; run d' ss'
  end.

(* ===================================================================== *)
(** * Row-level security *)
(* ===================================================================== *)

(** Who runs a statement through the API: the [anon] role, or the
    [authenticated] role with the user id of the session. *)
Inductive role : Type := anon | authenticated.

Inductive caller : Type :=
| Anonymous
| Authenticated (uid : uuid).

Definition role_of (c : caller) : role :=
  match c with
  | Anonymous => anon
  | Authenticated _ => authenticated
  end.

(** [auth.uid()] *)
Definition auth_uid (c : caller) : option uuid :=
  match c with
  | Anonymous => None
  | Authenticated u => Some u
  end.

Definition role_eqb (a b : role) : bool :=
  match a, b with
  | anon, anon | authenticated, authenticated => true
  | _, _ => false
  end.

Inductive command : Type := SELECT | INSERT | UPDATE | DELETE.

Definition command_eqb (a b : command) : bool :=
  match a, b with
  | SELECT, SELECT | INSERT, INSERT | UPDATE, UPDATE | DELETE, DELETE => true
  | _, _ => false
  end.

Inductive policy_for : Type :=
| FOR_ALL
| FOR (c : command).

(** CREATE POLICY name ON table FOR ... TO ... USING (...) WITH CHECK (...) *)
Record policy (R : Type) : Type := {
  policy_name : string;
  policy_cmd : policy_for;
  policy_to : list role;
  policy_using : option (db -> caller -> R -> tri);
  policy_with_check : option (db -> caller -> R -> tri)
}.
Arguments policy_name {R} p.
Arguments policy_cmd {R} p.
Arguments policy_to {R} p.
Arguments policy_using {R} p.
Arguments policy_with_check {R} p.

Definition applies {R} (p : policy R) (cmd : command) (c : caller) : bool :=
  match p.(policy_cmd) with
  | FOR_ALL => true
  | FOR cmd' => command_eqb cmd cmd'
  end && existsb (role_eqb (role_of c)) p.(policy_to).

(** The policies are permissive: a row passes when the expression of some
    policy that applies is true; with no policy that applies nothing
    passes.  Existing rows are tested with USING. *)
Definition using_allows {R} (ps : list (policy R)) (cmd : command)
    (d : db) (c : caller) (row : R) : bool :=
  existsb (fun p => applies p cmd c &&
                    match p.(policy_using) with
                    | Some e => is_true (e d c row)
                    | None => false
                    end) ps.

(** Proposed rows are tested with WITH CHECK, and with USING where a
    policy gives no WITH CHECK. *)
Definition check_allows {R} (ps : list (policy R)) (cmd : command)
    (d : db) (c : caller) (row : R) : bool :=
  existsb (fun p => applies p cmd c &&
                    match p.(policy_with_check), p.(policy_using) with
                    | Some e, _ => is_true (e d c row)
                    | None, Some e => is_true (e d c row)
                    | None, None => false
                    end) ps.

(** [EXISTS (SELECT 1 FROM events WHERE events.id = <event_id>
             AND events.created_by = auth.uid())] *)
Definition owns_event (d : db) (c : caller) (event_id : option uuid) : tri :=
  Some (existsb (fun e => is_true (sql_and (sql_eq_uuid e.(Events.id) event_id)
                                           (sql_eq_uuid e.(Events.created_by) (auth_uid c))))
                d.(events)).

(** [EXISTS (SELECT 1 FROM teams t JOIN events e ON e.id = t.event_id
             WHERE t.id = <team_id> AND e.created_by = auth.uid())] *)
Definition owns_team (d : db) (c : caller) (team_id : option uuid) : tri :=
  Some (existsb (fun t =>
          existsb (fun e =>
            is_true (sql_eq_uuid e.(Events.id) t.(Teams.event_id)) &&
            is_true (sql_and (sql_eq_uuid t.(Teams.id) team_id)
                             (sql_eq_uuid e.(Events.created_by) (auth_uid c))))
          d.(events)) d.(teams)).

(** [EXISTS (SELECT 1 FROM judges j JOIN events e ON e.id = j.event_id
             WHERE j.id = <judge_id> AND e.created_by = auth.uid())] *)
Definition owns_judge (d : db) (c : caller) (judge_id : option uuid) : tri :=
  Some (existsb (fun j =>
          existsb (fun e =>
            is_true (sql_eq_uuid e.(Events.id) j.(Judges.event_id)) &&
            is_true (sql_and (sql_eq_uuid j.(Judges.id) judge_id)
                             (sql_eq_uuid e.(Events.created_by) (auth_uid c))))
          d.(events)) d.(judges)).

Definition created_by_caller : db -> caller -> Events.row -> tri :=
  fun _ c e => sql_eq_uuid e.(Events.created_by) (auth_uid c).

Definition sql_true {R} : db -> caller -> R -> tri := fun _ _ _ => Some true.

Definition events_policies : list (policy Events.row) :=
  [ {| policy_name := "Users can view their events";
       policy_cmd := FOR SELECT; policy_to := [authenticated];
       policy_using := Some created_by_caller; policy_with_check := None |};
    {| policy_name := "Users can insert their events";
       policy_cmd := FOR INSERT; policy_to := [authenticated];
       policy_using := None; policy_with_check := Some created_by_caller |};
    {| policy_name := "Users can update their events";
       policy_cmd := FOR UPDATE; policy_to := [authenticated];
       policy_using := Some created_by_caller;
       policy_with_check := Some created_by_caller |};
    {| policy_name := "Users can delete their events";
       policy_cmd := FOR DELETE; policy_to := [authenticated];
       policy_using := Some created_by_caller; policy_with_check := None |} ].

Definition categories_policies : list (policy Categories.row) :=
  [ {| policy_name := "Users can manage categories for their events";
       policy_cmd := FOR_ALL; policy_to := [authenticated];
       policy_using := Some (fun d c r => owns_event d c r.(Categories.event_id));
       policy_with_check := None |} ].

Definition teams_policies : list (policy Teams.row) :=
  [ {| policy_name := "Users can manage teams for their events";
       policy_cmd := FOR_ALL; policy_to := [authenticated];
       policy_using := Some (fun d c r => owns_event d c r.(Teams.event_id));
       policy_with_check := None |} ].

Definition judges_policies : list (policy Judges.row) :=
  [ {| policy_name := "Users can manage judges for their events";
       policy_cmd := FOR_ALL; policy_to := [authenticated];
       policy_using := Some (fun d c r => owns_event d c r.(Judges.event_id));
       policy_with_check := None |};
    {| policy_name := "Judges can view their own profile by token";
       policy_cmd := FOR SELECT; policy_to := [anon; authenticated];
       policy_using := Some sql_true; policy_with_check := None |} ].

Definition judge_assignments_policies : list (policy JudgeAssignments.row) :=
  [ {| policy_name := "Users can manage judge assignments for their events";
       policy_cmd := FOR_ALL; policy_to := [authenticated];
       policy_using := Some (fun d c r => owns_judge d c r.(JudgeAssignments.judge_id));
       policy_with_check := None |};
    {| policy_name := "Judges can view their assignments";
       policy_cmd := FOR SELECT; policy_to := [anon; authenticated];
       policy_using := Some sql_true; policy_with_check := None |} ].

Definition scoring_rounds_policies : list (policy ScoringRounds.row) :=
  [ {| policy_name := "Users can manage rounds for their events";
       policy_cmd := FOR_ALL; policy_to := [authenticated];
       policy_using := Some (fun d c r => owns_event d c r.(ScoringRounds.event_id));
       policy_with_check := None |};
    {| policy_name := "Judges can view rounds";
       policy_cmd := FOR SELECT; policy_to := [anon; authenticated];
       policy_using := Some sql_true; policy_with_check := None |} ].

Definition scores_policies : list (policy Scores.row) :=
  [ {| policy_name := "Judges can manage their own scores";
       policy_cmd := FOR_ALL; policy_to := [anon; authenticated];
       policy_using := Some sql_true; policy_with_check := Some sql_true |};
    {| policy_name := "Event owners can view all scores";
       policy_cmd := FOR SELECT; policy_to := [authenticated];
       policy_using := Some (fun d c r => owns_team d c r.(Scores.team_id));
       policy_with_check := None |} ].

Definition normalized_scores_policies : list (policy NormalizedScores.row) :=
  [ {| policy_name := "Event owners can manage normalized scores";
       policy_cmd := FOR_ALL; policy_to := [authenticated];
       policy_using := Some (fun d c r => owns_team d c r.(NormalizedScores.team_id));
       policy_with_check := None |} ].

Definition final_results_policies : list (policy FinalResults.row) :=
  [ {| policy_name := "Users can view final results for their events";
       policy_cmd := FOR SELECT; policy_to := [authenticated];
       policy_using := Some (fun d c r => owns_event d c r.(FinalResults.event_id));
       policy_with_check := None |};
    {| policy_name := "Users can manage final results for their events";
       policy_cmd := FOR INSERT; policy_to := [authenticated];
       policy_using := None;
       policy_with_check := Some (fun d c r => owns_event d c r.(FinalResults.event_id)) |};
    {| policy_name := "Users can update final results for their events";
       policy_cmd := FOR UPDATE; policy_to := [authenticated];
       policy_using := Some (fun d c r => owns_event d c r.(FinalResults.event_id));
       policy_with_check := Some (fun d c r => owns_event d c r.(FinalResults.event_id)) |} ].

(** ** Statements under row-level security *)

(** A SELECT returns the rows the caller's SELECT policies let through. *)
Definition select_judges (c : caller) (d : db) : list Judges.row :=
  List.filter (using_allows judges_policies SELECT d c) d.(judges).

Definition select_scores (c : caller) (d : db) : list Scores.row :=
  List.filter (using_allows scores_policies SELECT d c) d.(scores).

(** An INSERT fails when the proposed row does not pass WITH CHECK. *)
Definition rls_insert_score (c : caller) (d : db) (r : Scores.row) : result db :=
  require (check_allows scores_policies INSERT d c r) (insufficient_privilege "scores");;
  insert_score d r.

(** An UPDATE or DELETE with [WHERE id = k] sees the row only if it passes
    the USING expressions of the command and, because the WHERE clause
    reads the row, of SELECT; a row it does not see is left alone without
    an error.  The row an UPDATE writes must pass WITH CHECK. *)
Definition targets (cmd : command) (c : caller) (d : db) (k : uuid) : bool :=
  existsb (fun s => id_is k s.(Scores.id) &&
                    using_allows scores_policies cmd d c s &&
                    using_allows scores_policies SELECT d c s) d.(scores).

Definition rls_update_score (c : caller) (d : db) (k : uuid) (r : Scores.row) : result db :=
  if targets UPDATE c d k then
    require (check_allows scores_policies UPDATE d c (score_with_id (Some k) r))
            (insufficient_privilege "scores");;
    update_score d k r
  else mret d.

Definition rls_delete_score (c : caller) (d : db) (k : uuid) : result db :=
  if targets DELETE c d k then delete_score d k else mret d.

(* ===================================================================== *)
(** * JavaScript values and JSON.parse *)
(* ===================================================================== *)

Module Js.

(** A JavaScript string is a sequence of 16-bit code units. *)
Abbreviation jsstring := (list N).

(** The code units of an ASCII literal. *)
Definition lit (s : string) : jsstring :=
  map N_of_ascii (list_ascii_of_string s).

Definition dq : jsstring := [34%N].   (* the double quote *)
Definition nl : jsstring := [10%N].   (* the line feed *)

Definition jsstring_eqb (a b : jsstring) : bool :=
  bool_decide (a = b).

(** The values the two programs handle: what JSON.parse builds, and
    [undefined], which a missing property reads as.  A number is kept as
    the exact rational its JSON text denotes.  An object is the list of
    its own properties, each key once. *)
#[warnings="-register-all"]
Inductive value : Type :=
| Undefined
| Null
| Bool (b : bool)
| Number (q : Q)
| Str (s : jsstring)
| Array (elements : list value)
| Object (properties : list (jsstring * value)).

(** [o[k]] for an own property. *)
Fixpoint get_prop (k : jsstring) (ps : list (jsstring * value)) : value :=
  match ps with
  | [] => Undefined
  | (k', v) :: ps' => if jsstring_eqb k k' then v else get_prop k ps'
  end.

Definition has_prop (k : jsstring) (ps : list (jsstring * value)) : bool :=
  existsb (fun p => jsstring_eqb k p.1) ps.

(** [o[k] = v]: overwrite the property, or add it after the others. *)
Fixpoint set_prop (k : jsstring) (v : value) (ps : list (jsstring * value))
    : list (jsstring * value) :=
  match ps with
  | [] => [(k, v)]
  | (k', v') :: ps' =>
      if jsstring_eqb k k' then (k, v) :: ps' else (k', v') :: set_prop k v ps'
  end.

(** Error objects: the constructor's name and the message. *)
Record error : Type := {
  error_name : string;
  error_message : jsstring
}.

(** How an evaluation ends. *)
Inductive completion (A : Type) : Type :=
| Return (a : A)
| Throw (e : error).
Arguments Return {A} a.
Arguments Throw {A} e.

(** The smallest positive double is [2^-1074]; a JSON number of magnitude
    at most [2^-1075] is read as zero. *)
Definition reads_as_zero (q : Q) : bool :=
  Qle_bool (Qabs q) (1 # (2 ^ 1075)).

(** ToBoolean *)
Definition ToBoolean (v : value) : bool :=
  match v with
  | Undefined | Null => false
  | Bool b => b
  | Number q => negb (reads_as_zero q)
  | Str s => negb (bool_decide (s = []))
  | Array _ | Object _ => true
  end.

(** [a || b] *)
Definition or_else (a b : value) : value :=
  if ToBoolean a then a else b.

(** ** The lexical grammar of JSON *)

Inductive token : Type :=
| TLBrace | TRBrace | TLBracket | TRBracket | TColon | TComma
| TString (s : jsstring)
| TNumber (q : Q)
| TTrue | TFalse | TNull.

(** A number under construction: sign, the digits of the integer and
    fraction parts read as one integer, the count of fraction digits, and
    the exponent with its sign. *)
Record numacc : Type := {
  n_neg : bool;
  n_mant : Z;
  n_frac : Z;
  n_eneg : bool;
  n_exp : Z
}.

(** Where the lexer stands in a number: an optional minus; a zero, or a
    non-zero digit and more digits; optionally a point and one digit or
    more; optionally [e] or [E], an optional sign and one digit or more. *)
Inductive numstate : Type :=
| NMinus | NZero | NInt | NDot | NFrac | NE | NESign | NEDigits.

Definition num_final (st : numstate) : bool :=
  match st with
  | NZero | NInt | NFrac | NEDigits => true
  | NMinus | NDot | NE | NESign => false
  end.

Definition num_value (a : numacc) : Q :=
  let e := ((if a.(n_eneg) then - a.(n_exp) else a.(n_exp)) - a.(n_frac))%Z in
  let m := (if a.(n_neg) then - a.(n_mant) else a.(n_mant))%Z in
  if (0 <=? e)%Z then inject_Z (m * 10 ^ e) else (m # Z.to_pos (10 ^ (- e))).

Definition digit_of (c : N) : option Z :=
  if ((48 <=? c) && (c <=? 57))%N then Some (Z.of_N c - 48)%Z else None.

Definition hex_of (c : N) : option N :=
  if ((48 <=? c) && (c <=? 57))%N then Some (c - 48)%N
  else if ((97 <=? c) && (c <=? 102))%N then Some (c - 87)%N
  else if ((65 <=? c) && (c <=? 70))%N then Some (c - 55)%N
  else None.

Definition push_digit (a : numacc) (dgt : Z) : numacc :=
  {| n_neg := a.(n_neg); n_mant := (a.(n_mant) * 10 + dgt)%Z; n_frac := a.(n_frac);
     n_eneg := a.(n_eneg); n_exp := a.(n_exp) |}.

Definition push_frac (a : numacc) (dgt : Z) : numacc :=
  {| n_neg := a.(n_neg); n_mant := (a.(n_mant) * 10 + dgt)%Z;
     n_frac := (a.(n_frac) + 1)%Z; n_eneg := a.(n_eneg); n_exp := a.(n_exp) |}.

Definition push_exp (a : numacc) (dgt : Z) : numacc :=
  {| n_neg := a.(n_neg); n_mant := a.(n_mant); n_frac := a.(n_frac);
     n_eneg := a.(n_eneg); n_exp := (a.(n_exp) * 10 + dgt)%Z |}.

Definition neg_exp (a : numacc) : numacc :=
  {| n_neg := a.(n_neg); n_mant := a.(n_mant); n_frac := a.(n_frac);
     n_eneg := true; n_exp := a.(n_exp) |}.

Definition num_start (neg : bool) : numacc :=
  {| n_neg := neg; n_mant := 0; n_frac := 0; n_eneg := false; n_exp := 0 |}.

Definition is_e (c : N) : bool := ((c =? 101) || (c =? 69))%N.

(** One more character of a number, or [None] when [c] cannot go on it. *)
Definition num_step (st : numstate) (a : numacc) (c : N) : option (numstate * numacc) :=
  match st, digit_of c with
  | NMinus, Some dgt => Some (if (dgt =? 0)%Z then NZero else NInt, push_digit a dgt)
  | NMinus, None => None
  | NZero, Some _ => None
  | NZero, None =>
      if (c =? 46)%N then Some (NDot, a) else if is_e c then Some (NE, a) else None
  | NInt, Some dgt => Some (NInt, push_digit a dgt)
  | NInt, None =>
      if (c =? 46)%N then Some (NDot, a) else if is_e c then Some (NE, a) else None
  | NDot, Some dgt => Some (NFrac, push_frac a dgt)
  | NDot, None => None
  | NFrac, Some dgt => Some (NFrac, push_frac a dgt)
  | NFrac, None => if is_e c then Some (NE, a) else None
  | NE, Some dgt => Some (NEDigits, push_exp a dgt)
  | NE, None =>
      if (c =? 43)%N then Some (NESign, a)
      else if (c =? 45)%N then Some (NESign, neg_exp a) else None
  | NESign, Some dgt => Some (NEDigits, push_exp a dgt)
  | NESign, None => None
  | NEDigits, Some dgt => Some (NEDigits, push_exp a dgt)
  | NEDigits, None => None
  end.

Inductive lexmode : Type :=
| LStart                                       (* between tokens *)
| LString (acc : jsstring)                     (* in a string; [acc] is reversed *)
| LEscape (acc : jsstring)                     (* after a backslash *)
| LUnicode (acc : jsstring) (hex : list N)     (* after backslash u; the digits so far *)
| LWord (rest : jsstring) (t : token)          (* in true, false or null *)
| LNumber (st : numstate) (a : numacc).

Definition is_ws (c : N) : bool :=
  ((c =? 32) || (c =? 9) || (c =? 10) || (c =? 13))%N.

(** The first character of a token. *)
Definition lex_start (c : N) : option (lexmode * list token) :=
  if is_ws c then Some (LStart, [])
  else if (c =? 123)%N then Some (LStart, [TLBrace])
  else if (c =? 125)%N then Some (LStart, [TRBrace])
  else if (c =? 91)%N then Some (LStart, [TLBracket])
  else if (c =? 93)%N then Some (LStart, [TRBracket])
  else if (c =? 58)%N then Some (LStart, [TColon])
  else if (c =? 44)%N then Some (LStart, [TComma])
  else if (c =? 34)%N then Some (LString [], [])
  else if (c =? 45)%N then Some (LNumber NMinus (num_start true), [])
  else if (c =? 116)%N then Some (LWord (lit "rue") TTrue, [])
  else if (c =? 102)%N then Some (LWord (lit "alse") TFalse, [])
  else if (c =? 110)%N then Some (LWord (lit "ull") TNull, [])
  else match digit_of c with
       | Some dgt =>
           Some (LNumber (if (dgt =? 0)%Z then NZero else NInt)
                         (push_digit (num_start false) dgt), [])
       | None => None
       end.

Definition lex_escape (c : N) : option N :=
  if (c =? 34)%N then Some 34%N          (* quote *)
  else if (c =? 92)%N then Some 92%N     (* backslash *)
  else if (c =? 47)%N then Some 47%N     (* slash *)
  else if (c =? 98)%N then Some 8%N      (* b: backspace *)
  else if (c =? 102)%N then Some 12%N    (* f: form feed *)
  else if (c =? 110)%N then Some 10%N    (* n: line feed *)
  else if (c =? 114)%N then Some 13%N    (* r: carriage return *)
  else if (c =? 116)%N then Some 9%N     (* t: tab *)
  else None.

(** One character: the next mode and the tokens it completes. *)
Definition lex_step (m : lexmode) (c : N) : option (lexmode * list token) :=
  match m with
  | LStart => lex_start c
  | LString acc =>
      if (c =? 34)%N then Some (LStart, [TString (rev acc)])
      else if (c =? 92)%N then Some (LEscape acc, [])
      else if (c <? 32)%N then None
      else Some (LString (c :: acc), [])
  | LEscape acc =>
      if (c =? 117)%N then Some (LUnicode acc [], [])
      else match lex_escape c with
           | Some c' => Some (LString (c' :: acc), [])
           | None => None
           end
  | LUnicode acc hex =>
      match hex_of c with
      | Some h =>
          match hex with
          | [h1; h2; h3] =>
              Some (LString ((((h1 * 16 + h2) * 16 + h3) * 16 + h)%N :: acc), [])
          | _ => Some (LUnicode acc (hex ++ [h]), [])
          end
      | None => None
      end
  | LWord rest t =>
      match rest with
      | [] => None
      | r :: rest' =>
          if (c =? r)%N then
            match rest' with
            | [] => Some (LStart, [t])
            | _ => Some (LWord rest' t, [])
            end
          else None
      end
  | LNumber st a =>
      match num_step st a c with
      | Some (st', a') => Some (LNumber st' a', [])
      | None =>
          if num_final st then
            match lex_start c with
            | Some (m', ts) => Some (m', TNumber (num_value a) :: ts)
            | None => None
            end
          else None
      end
  end.

Definition lex_end (m : lexmode) : option (list token) :=
  match m with
  | LStart => Some []
  | LNumber st a => if num_final st then Some [TNumber (num_value a)] else None
  | _ => None
  end.

Fixpoint lex (m : lexmode) (s : jsstring) : option (list token) :=
  match s with
  | [] => lex_end m
  | c :: s' =>
      match lex_step m c with
      | Some (m', ts) =>
          match lex m' s' with
          | Some rest => Some (ts ++ rest)
          | None => None
          end
      | None => None
      end
  end.

(** ** The syntactic grammar of JSON *)

(** The containers that are open around the current position: an array
    with the elements read so far (reversed), or an object with the
    properties read so far and the key whose value is being read. *)
Inductive frame : Type :=
| FArray (elements : list value)
| FObject (properties : list (jsstring * value)) (key : option jsstring).

Inductive expect : Type :=
| EValue            (* a value *)
| EArrayFirst       (* after [: a value or ] *)
| EObjectFirst      (* after {: a key or } *)
| EKey              (* after a comma in an object: a key *)
| EColon            (* after a key: the colon *)
| EAfter            (* after a value: a comma, or the end of the container *)
| EDone (v : value).  (* after the outermost value: nothing more *)

(** A value is complete: it goes into the innermost open container, or is
    the result. *)
Definition deliver (v : value) (stack : list frame) : option (expect * list frame) :=
  match stack with
  | [] => Some (EDone v, [])
  | FArray es :: stack' => Some (EAfter, FArray (v :: es) :: stack')
  | FObject ps (Some k) :: stack' => Some (EAfter, FObject (set_prop k v ps) None :: stack')
  | FObject _ None :: _ => None
  end.

Definition scalar_of (t : token) : option value :=
  match t with
  | TString s => Some (Str s)
  | TNumber q => Some (Number q)
  | TTrue => Some (Bool true)
  | TFalse => Some (Bool false)
  | TNull => Some Null
  | _ => None
  end.

Definition begin_value (t : token) (stack : list frame) : option (expect * list frame) :=
  match t with
  | TLBracket => Some (EArrayFirst, FArray [] :: stack)
  | TLBrace => Some (EObjectFirst, FObject [] None :: stack)
  | _ =>
      match scalar_of t with
      | Some v => deliver v stack
      | None => None
      end
  end.

Definition close_array (stack : list frame) : option (expect * list frame) :=
  match stack with
  | FArray es :: stack' => deliver (Array (rev es)) stack'
  | _ => None
  end.

Definition close_object (stack : list frame) : option (expect * list frame) :=
  match stack with
  | FObject ps None :: stack' => deliver (Object ps) stack'
  | _ => None
  end.

Definition begin_key (t : token) (stack : list frame) : option (expect * list frame) :=
  match t, stack with
  | TString k, FObject ps None :: stack' => Some (EColon, FObject ps (Some k) :: stack')
  | _, _ => None
  end.

Definition parse_step (e : expect) (stack : list frame) (t : token)
    : option (expect * list frame) :=
  match e with
  | EValue => begin_value t stack
  | EArrayFirst =>
      match t with
      | TRBracket => close_array stack
      | _ => begin_value t stack
      end
  | EObjectFirst =>
      match t with
      | TRBrace => close_object stack
      | _ => begin_key t stack
      end
  | EKey => begin_key t stack
  | EColon =>
      match t with
      | TColon => Some (EValue, stack)
      | _ => None
      end
  | EAfter =>
      match t, stack with
      | TComma, FArray _ :: _ => Some (EValue, stack)
      | TRBracket, FArray _ :: _ => close_array stack
      | TComma, FObject _ None :: _ => Some (EKey, stack)
      | TRBrace, FObject _ None :: _ => close_object stack
      | _, _ => None
      end
  | EDone _ => None
  end.

Fixpoint parse_tokens (e : expect) (stack : list frame) (ts : list token) : option value :=
  match ts with
  | [] =>
      match e with
      | EDone v => Some v
      | _ => None
      end
  | t :: ts' =>
      match parse_step e stack t with
      | Some (e', stack') => parse_tokens e' stack' ts'
      | None => None
      end
  end.

(** The SyntaxError of JSON.parse.  The wording of the message is the
    engine's; one text stands for all of them. *)
Definition SyntaxError : error :=
  {| error_name := "SyntaxError"; error_message := lit "Unexpected token in JSON" |}.

(** [JSON.parse(text)] *)
Definition JSON_parse (text : jsstring) : completion value :=
  match lex LStart text with
  | Some ts =>
      match parse_tokens EValue [] ts with
      | Some v => Return v
      | None => Throw SyntaxError
      end
  | None => Throw SyntaxError
  end.

(** ** ToString *)

Definition TypeError (message : string) : error :=
  {| error_name := "TypeError"; error_message := lit message |}.

Section ToString.

(** Number::toString, the shortest decimal that reads back as the same
    double, is the engine's; the development is parametric in it. *)
Variable Number_toString : Q -> jsstring.

(** ToString on the values above.  An array is joined with commas,
    [undefined] and [null] elements giving the empty string.  An object
    goes through OrdinaryToPrimitive: with no own [toString] property the
    inherited one answers "[object Object]"; an own [toString] is never
    callable on a value built by JSON.parse, [valueOf] returns no
    primitive, and the conversion throws a TypeError. *)
Fixpoint ToString (v : value) : completion jsstring :=
  match v with
  | Undefined => Return (lit "undefined")
  | Null => Return (lit "null")
  | Bool true => Return (lit "true")
  | Bool false => Return (lit "false")
  | Number q => Return (Number_toString q)
  | Str s => Return s
  | Array es =>
      (fix join (l : list value) : completion jsstring :=
         match l with
         | [] => Return []
         | e :: l' =>
             let first :=
               match e with
               | Undefined | Null => Return []
               | _ => ToString e
               end in
             match first, l' with
             | Throw err, _ => Throw err
             | Return s, [] => Return s
             | Return s, _ :: _ =>
                 match join l' with
                 | Return r => Return (s ++ lit "," ++ r)
                 | Throw err => Throw err
                 end
             end
         end) es
  | Object ps =>
      if has_prop (lit "toString") ps
      then Throw (TypeError "Cannot convert object to primitive value")
      else Return (lit "[object Object]")
  end.

End ToString.

(** ** Computations with effects *)

(** A computation over a store [St] that returns or throws; what it did
    to the store before throwing stays done. *)
Definition Eff (St : Type) (A : Type) : Type := St -> completion A * St.

Definition eff_bind {St A B} (m : Eff St A) (k : A -> Eff St B) : Eff St B :=
  fun st =>
    match m st with
    | (Return a, st') => k a st'
    | (Throw e, st') => (Throw e, st')
    end.

Definition eff_ret {St A} (a : A) : Eff St A := fun st => (Return a, st).

Definition throw {St A} (e : error) : Eff St A := fun st => (Throw e, st).

Definition lift {St A} (c : completion A) : Eff St A := fun st => (c, st).

(** [try { body } catch (error) { handler }] *)
Definition try_catch {St A} (body : Eff St A) (handler : error -> Eff St A) : Eff St A :=
  fun st =>
    match body st with
    | (Return a, st') => (Return a, st')
    | (Throw e, st') => handler e st'
    end.

End Js.

Global Instance eff_mbind {St} : MBind (Js.Eff St) := fun A B k m => Js.eff_bind m k.
Global Instance eff_mret {St} : MRet (Js.Eff St) := fun A a => Js.eff_ret a.

(* ===================================================================== *)
(** * The send-judge-invitation function *)
(* ===================================================================== *)

Module Invitation.
Import Js.

Definition corsHeaders : list (jsstring * jsstring) :=
  [ (lit "Access-Control-Allow-Origin", lit "*");
    (lit "Access-Control-Allow-Methods", lit "GET, POST, PUT, DELETE, OPTIONS");
    (lit "Access-Control-Allow-Headers",
     lit "Content-Type, Authorization, X-Client-Info, Apikey") ].

(** A request as it arrives: its method and the text the client sent as
    its body. *)
Record Request : Type := {
  method : jsstring;
  sent : jsstring
}.

(** The methods whose requests have no body: the server hands the function
    a GET or HEAD request without one, whatever the client sent. *)
Definition bodiless (m : jsstring) : bool :=
  jsstring_eqb m (lit "GET") || jsstring_eqb m (lit "HEAD").

(** The text of the body as the function reads it: empty for a request
    without a body. *)
Definition body (req : Request) : jsstring :=
  if bodiless req.(method) then [] else req.(sent).

(** A response: the status, the headers, and the body, kept as the value
    that is handed to JSON.stringify ([None] for the [null] body). *)
Record Response : Type := {
  status : Z;
  headers : list (jsstring * jsstring);
  payload : option value
}.

(** What the function writes to the console. *)
Inductive console_entry : Type :=
| console_log (line : jsstring)
| console_error (label : jsstring) (e : error).

Abbreviation console := (list console_entry).

Definition log (line : jsstring) : Eff console unit :=
  fun out => (Return tt, out ++ [console_log line]).

Definition log_error (label : jsstring) (e : error) : Eff console unit :=
  fun out => (Return tt, out ++ [console_error label e]).

(** [interface InvitationRequest] *)
Record InvitationRequest : Type := {
  judgeName : value;
  judgeEmail : value;
  eventName : value;
  accessToken : value;
  dashboardUrl : value
}.

(** [await req.json()] *)
Definition req_json (req : Request) : completion value :=
  JSON_parse (body req).

(** [const { judgeName, judgeEmail, eventName, accessToken, dashboardUrl } = v]:
    [null] cannot be destructured; a property that is missing, or any
    property of a value that is no object, reads as [undefined]. *)
Definition destructure (v : value) : completion InvitationRequest :=
  match v with
  | Undefined | Null =>
      Throw (TypeError
        "Cannot destructure property 'judgeName' of '(intermediate value)' as it is null.")
  | Object ps =>
      Return {| judgeName := get_prop (lit "judgeName") ps;
                judgeEmail := get_prop (lit "judgeEmail") ps;
                eventName := get_prop (lit "eventName") ps;
                accessToken := get_prop (lit "accessToken") ps;
                dashboardUrl := get_prop (lit "dashboardUrl") ps |}
  | Bool _ | Number _ | Str _ | Array _ =>
      Return {| judgeName := Undefined; judgeEmail := Undefined; eventName := Undefined;
                accessToken := Undefined; dashboardUrl := Undefined |}
  end.

(** The template of the email, its four parameters already strings. *)
Definition emailContent (eventName judgeName dashboardUrl accessToken : jsstring) : jsstring :=
  nl ++
  lit "      <html>" ++ nl ++
  lit "        <body style=" ++ dq ++ lit "font-family: Arial, sans-serif; max-width: 600px; margin: 0 auto; padding: 20px;" ++ dq ++ lit ">" ++ nl ++
  lit "          <h2 style=" ++ dq ++ lit "color: #2563eb;" ++ dq ++ lit ">Judge Invitation - " ++ eventName ++ lit "</h2>" ++ nl ++
  lit "          <p>Dear " ++ judgeName ++ lit ",</p>" ++ nl ++
  lit "          <p>You have been invited to judge the event: <strong>" ++ eventName ++ lit "</strong></p>" ++ nl ++
  lit "          <p>Please use the link below to access your judging dashboard:</p>" ++ nl ++
  lit "          <div style=" ++ dq ++ lit "background-color: #f3f4f6; padding: 20px; border-radius: 8px; margin: 20px 0;" ++ dq ++ lit ">" ++ nl ++
  lit "            <p style=" ++ dq ++ lit "margin: 0;" ++ dq ++ lit "><strong>Dashboard Link:</strong></p>" ++ nl ++
  lit "            <a href=" ++ dq ++ dashboardUrl ++ lit "?token=" ++ accessToken ++ dq ++ nl ++
  lit "               style=" ++ dq ++ lit "display: inline-block; margin-top: 10px; padding: 12px 24px; background-color: #2563eb; color: white; text-decoration: none; border-radius: 6px;" ++ dq ++ lit ">" ++ nl ++
  lit "              Access Judging Dashboard" ++ nl ++
  lit "            </a>" ++ nl ++
  lit "          </div>" ++ nl ++
  lit "          <p style=" ++ dq ++ lit "color: #6b7280; font-size: 14px;" ++ dq ++ lit ">" ++ nl ++
  lit "            Your access token: <code style=" ++ dq ++ lit "background-color: #f3f4f6; padding: 4px 8px; border-radius: 4px;" ++ dq ++ lit ">" ++ accessToken ++ lit "</code>" ++ nl ++
  lit "          </p>" ++ nl ++
  lit "          <p>Best regards,<br/>Event Management Team</p>" ++ nl ++
  lit "        </body>" ++ nl ++
  lit "      </html>" ++ nl ++
  lit "    ".

Section Handler.

Variable Number_toString : Q -> jsstring.

(** A substitution of a template literal. *)
Definition subst (v : value) : Eff console jsstring :=
  lift (ToString Number_toString v).

(** The body of the [try] block.  The substitutions of a template literal
    are converted from left to right, each variable where it first
    occurs. *)
Definition try_block (req : Request) : Eff console Response :=
  v ← lift (req_json req);
  r ← lift (destructure v);
  event ← subst r.(eventName);
  judge ← subst r.(judgeName);
  url ← subst r.(dashboardUrl);
  token ← subst r.(accessToken);
  let content := emailContent event judge url token in
  email ← subst r.(judgeEmail);
  log (lit "Email would be sent to: " ++ email);;
  log (lit "Event: " ++ event);;
  log (lit "Access Token: " ++ token);;
  log (lit "Dashboard URL: " ++ url);;
  mret {| status := 200;
          headers := corsHeaders ++ [(lit "Content-Type", lit "application/json")];
          payload := Some (Object [ (lit "success", Bool true);
                                    (lit "message", Str (lit "Invitation email sent successfully"));
                                    (lit "preview", Str content) ]) |}.

(** [error.message || "Failed to send invitation"] *)
Definition message_or_default (e : error) : jsstring :=
  match e.(error_message) with
  | [] => lit "Failed to send invitation"
  | m => m
  end.

(** The body of the [catch] block. *)
Definition catch_block (e : error) : Eff console Response :=
  log_error (lit "Error sending invitation:") e;;
  mret {| status := 500;
          headers := corsHeaders ++ [(lit "Content-Type", lit "application/json")];
          payload := Some (Object [ (lit "success", Bool false);
                                    (lit "error", Str (message_or_default e)) ]) |}.

(** The function given to [Deno.serve]. *)
Definition handler (req : Request) : Eff console Response :=
  if jsstring_eqb req.(method) (lit "OPTIONS") then
    mret {| status := 200; headers := corsHeaders; payload := None |}
  else
    try_catch (try_block req) catch_block.

End Handler.

End Invitation.

(* ===================================================================== *)
(** * The client state mirror *)
(* ===================================================================== *)

Module AppContext.
Import Js.

(** The five mirrored state cells of [AppProvider]. *)
Record state : Type := {
  events : value;
  teams : value;
  judges : value;
  categories : value;
  evaluations : value
}.

(** [useState([])] for each of them. *)
Definition initial : state :=
  {| events := Array []; teams := Array []; judges := Array [];
     categories := Array []; evaluations := Array [] |}.

(** The setters.  A setter is taken to write its cell.  React queues the
    update and applies it with the render that follows the effect, so the
    state after a [loadData] that returns is the state of that render.
    When [loadData] throws inside the effect no render follows: what the
    cells hold after a throw is the bookkeeping of the model and says
    which setters had been called, not what the application shows. *)
Definition setEvents (v : value) : Eff state unit :=
  fun st => (Return tt,
             {| events := v; teams := st.(teams); judges := st.(judges);
                categories := st.(categories); evaluations := st.(evaluations) |}).

Definition setTeams (v : value) : Eff state unit :=
  fun st => (Return tt,
             {| events := st.(events); teams := v; judges := st.(judges);
                categories := st.(categories); evaluations := st.(evaluations) |}).

Definition setJudges (v : value) : Eff state unit :=
  fun st => (Return tt,
             {| events := st.(events); teams := st.(teams); judges := v;
                categories := st.(categories); evaluations := st.(evaluations) |}).

Definition setCategories (v : value) : Eff state unit :=
  fun st => (Return tt,
             {| events := st.(events); teams := st.(teams); judges := st.(judges);
                categories := v; evaluations := st.(evaluations) |}).

Definition setEvaluations (v : value) : Eff state unit :=
  fun st => (Return tt,
             {| events := st.(events); teams := st.(teams); judges := st.(judges);
                categories := st.(categories); evaluations := v |}).

(** The browser's local storage: strings under string keys. *)
Abbreviation storage := (gmap jsstring jsstring).

(** [localStorage.getItem(key)]: the stored string, or [null]. *)
Definition getItem (ls : storage) (key : jsstring) : option jsstring :=
  ls !! key.

(** [JSON.parse(item)]: the argument is converted to a string first, and
    [null] converts to the text [null]. *)
Definition JSON_parse_item (item : option jsstring) : completion value :=
  match item with
  | Some text => JSON_parse text
  | None => JSON_parse (lit "null")
  end.

Definition num (z : Z) : value := Number (inject_Z z).

(** The literals to the right of [||]. *)
Definition default_events : value :=
  Array [ Object [ (lit "id", num 1); (lit "name", Str (lit "Event 1"));
                   (lit "description", Str (lit "First event")) ] ].

Definition default_teams : value :=
  Array [ Object [ (lit "id", num 1); (lit "name", Str (lit "Team A"));
                   (lit "description", Str (lit "Team Alpha")) ];
          Object [ (lit "id", num 2); (lit "name", Str (lit "Team B"));
                   (lit "description", Str (lit "Team Beta")) ] ].

Definition default_judges : value :=
  Array [ Object [ (lit "id", num 1); (lit "name", Str (lit "Judge 1"));
                   (lit "description", Str (lit "First judge")) ] ].

Definition default_categories : value :=
  Array [ Object [ (lit "id", num 1); (lit "name", Str (lit "Idea")); (lit "weight", num 1) ];
          Object [ (lit "id", num 2); (lit "name", Str (lit "Presentation"));
                   (lit "weight", num 1) ];
          Object [ (lit "id", num 3); (lit "name", Str (lit "Execution"));
                   (lit "weight", num 1) ] ].

Definition default_evaluations : value := Array [].

(** [JSON.parse(localStorage.getItem(key)) || seed] *)
Definition load (ls : storage) (key : string) (seed : value) : completion value :=
  match JSON_parse_item (getItem ls (lit key)) with
  | Return v => Return (or_else v seed)
  | Throw e => Throw e
  end.

Definition loadData (ls : storage) : Eff state unit :=
  v ← lift (load ls "events" default_events); setEvents v;;
  v ← lift (load ls "teams" default_teams); setTeams v;;
  v ← lift (load ls "judges" default_judges); setJudges v;;
  v ← lift (load ls "categories" default_categories); setCategories v;;
  v ← lift (load ls "evaluations" default_evaluations); setEvaluations v.

(** The five keys with their state cell and seed, in the order in which
    [loadData] goes through them. *)
Definition cells : list (string * (state -> value) * value) :=
  [ ("events", events, default_events);
    ("teams", teams, default_teams);
    ("judges", judges, default_judges);
    ("categories", categories, default_categories);
    ("evaluations", evaluations, default_evaluations) ].

End AppContext.

(* ===================================================================== *)
(** * Vocabulary of the properties *)
(* ===================================================================== *)

(** [v] lies in the closed interval from 0 to 10. *)
Definition within_0_10 (v : numeric) : Prop :=
  match v with
  | Num q => (0 <= q)%Q /\ (q <= 10)%Q
  | PosInf | NegInf | NaN => False
  end.

Definition rejected {A} (r : result A) : Prop := exists e, r = Err e.

Definition accepted {A} (r : result A) : Prop := exists a, r = Ok a.

(** The four key columns of a score, as stored. *)
Definition score_tuple : Type := option uuid * option uuid * option uuid * option text.

Definition tuple_of (s : Scores.row) : score_tuple :=
  (s.(Scores.judge_id), s.(Scores.team_id), s.(Scores.round_id), s.(Scores.criterion_name)).

Global Instance score_tuple_eq_dec : EqDecision score_tuple.
Proof. unfold score_tuple, uuid, text. apply _. Defined.

(** The rows for a tuple. *)
Definition rows_with (t : score_tuple) (l : list Scores.row) : list Scores.row :=
  List.filter (fun s => bool_decide (tuple_of s = t)) l.

(** No two rows of [l] collide on the unique key of [scores]. *)
Definition keys_distinct (l : list Scores.row) : Prop :=
  ForallOrdPairs (fun a b => scores_key_collides a b = false) l.

(** Primary key: every row has an id and no two rows share one. *)
Definition ids_distinct {R} (id_of : R -> option uuid) (l : list R) : Prop :=
  Forall (fun x => id_of x <> None) l /\ NoDup (map id_of l).

(** What every reachable state satisfies: the primary keys of the tables
    that are referenced or updated, the unique key of [scores], and the
    foreign key from teams to categories. *)
Record well_keyed (d : db) : Prop := {
  wk_categories : ids_distinct Categories.id d.(categories);
  wk_teams : ids_distinct Teams.id d.(teams);
  wk_judges : ids_distinct Judges.id d.(judges);
  wk_rounds : ids_distinct ScoringRounds.id d.(scoring_rounds);
  wk_scores : ids_distinct Scores.id d.(scores);
  wk_score_keys : keys_distinct d.(scores);
  wk_team_category :
    forall t, In t d.(teams) -> fk_ok Categories.id d.(categories) t.(Teams.category_id) = true
}.

(** The rows of event [k] in the four tables with an [event_id] that other
    tables reference. *)
Definition category_of_event (d : db) (k : uuid) (c : Categories.row) : Prop :=
  In c d.(categories) /\ c.(Categories.event_id) = Some k.

Definition team_of_event (d : db) (k : uuid) (t : Teams.row) : Prop :=
  In t d.(teams) /\ t.(Teams.event_id) = Some k.

Definition judge_of_event (d : db) (k : uuid) (j : Judges.row) : Prop :=
  In j d.(judges) /\ j.(Judges.event_id) = Some k.

Definition round_of_event (d : db) (k : uuid) (r : ScoringRounds.row) : Prop :=
  In r d.(scoring_rounds) /\ r.(ScoringRounds.event_id) = Some k.

(** The reference [ref] is set and is the id [i]. *)
Definition points_to (ref i : option uuid) : Prop :=
  exists k, ref = Some k /\ i = Some k.

(** The rows of the four derived tables that hang on event [k] in [d]:
    through a judge, a team, a category or a round of the event, or, for
    final results, through the event itself. *)
Definition assignment_of_event (d : db) (k : uuid) (a : JudgeAssignments.row) : Prop :=
  (exists j, judge_of_event d k j /\ points_to a.(JudgeAssignments.judge_id) j.(Judges.id)) \/
  (exists c, category_of_event d k c /\
             points_to a.(JudgeAssignments.category_id) c.(Categories.id)) \/
  (exists t, team_of_event d k t /\ points_to a.(JudgeAssignments.team_id) t.(Teams.id)).

Definition score_of_event (d : db) (k : uuid) (s : Scores.row) : Prop :=
  (exists j, judge_of_event d k j /\ points_to s.(Scores.judge_id) j.(Judges.id)) \/
  (exists t, team_of_event d k t /\ points_to s.(Scores.team_id) t.(Teams.id)) \/
  (exists c, category_of_event d k c /\ points_to s.(Scores.category_id) c.(Categories.id)) \/
  (exists r, round_of_event d k r /\ points_to s.(Scores.round_id) r.(ScoringRounds.id)).

Definition normalized_score_of_event (d : db) (k : uuid) (n : NormalizedScores.row) : Prop :=
  (exists j, judge_of_event d k j /\ points_to n.(NormalizedScores.judge_id) j.(Judges.id)) \/
  (exists t, team_of_event d k t /\ points_to n.(NormalizedScores.team_id) t.(Teams.id)) \/
  (exists r, round_of_event d k r /\
             points_to n.(NormalizedScores.round_id) r.(ScoringRounds.id)).

Definition final_result_of_event (d : db) (k : uuid) (f : FinalResults.row) : Prop :=
  f.(FinalResults.event_id) = Some k \/
  (exists t, team_of_event d k t /\ points_to f.(FinalResults.team_id) t.(Teams.id)).

(** A team outside event [k] whose category is a category of event [k]. *)
Definition foreign_team_in_category (d : db) (k : uuid) : Prop :=
  exists t c, In t d.(teams) /\ t.(Teams.event_id) <> Some k /\
              category_of_event d k c /\ points_to t.(Teams.category_id) c.(Categories.id).

(** The state after the event and everything that hangs on it is gone,
    and nothing else. *)
Record event_removed (d : db) (k : uuid) (d' : db) : Prop := {
  removed_event : forall e, In e d'.(events) <-> In e d.(events) /\ e.(Events.id) <> Some k;
  removed_categories :
    forall c, In c d'.(categories) <-> In c d.(categories) /\ ~ category_of_event d k c;
  removed_teams : forall t, In t d'.(teams) <-> In t d.(teams) /\ ~ team_of_event d k t;
  removed_judges : forall j, In j d'.(judges) <-> In j d.(judges) /\ ~ judge_of_event d k j;
  removed_rounds :
    forall r, In r d'.(scoring_rounds) <-> In r d.(scoring_rounds) /\ ~ round_of_event d k r;
  removed_assignments :
    forall a, In a d'.(judge_assignments) <->
              In a d.(judge_assignments) /\ ~ assignment_of_event d k a;
  removed_scores : forall s, In s d'.(scores) <-> In s d.(scores) /\ ~ score_of_event d k s;
  removed_normalized_scores :
    forall n, In n d'.(normalized_scores) <->
              In n d.(normalized_scores) /\ ~ normalized_score_of_event d k n;
  removed_final_results :
    forall f, In f d'.(final_results) <->
              In f d.(final_results) /\ ~ final_result_of_event d k f
}.

(** The teams that are left after the teams of the event went. *)
Definition remaining_teams (d : db) (k : uuid) : list Teams.row :=
  List.filter (fun t => negb (in_ids t.(Teams.id) (doomed_by_event d k).(d_teams))) d.(teams).

(** The columns of an INSERT with the status column changed, and a row of
    [scoring_rounds] with another status. *)
Definition with_status (st : col text) (c : ScoringRoundsInsert.columns)
    : ScoringRoundsInsert.columns :=
  {| ScoringRoundsInsert.id := c.(ScoringRoundsInsert.id);
     ScoringRoundsInsert.event_id := c.(ScoringRoundsInsert.event_id);
     ScoringRoundsInsert.round_number := c.(ScoringRoundsInsert.round_number);
     ScoringRoundsInsert.name := c.(ScoringRoundsInsert.name);
     ScoringRoundsInsert.status := st;
     ScoringRoundsInsert.started_at := c.(ScoringRoundsInsert.started_at);
     ScoringRoundsInsert.completed_at := c.(ScoringRoundsInsert.completed_at);
     ScoringRoundsInsert.created_at := c.(ScoringRoundsInsert.created_at) |}.

Definition round_with_status (s : option text) (r : ScoringRounds.row) : ScoringRounds.row :=
  {| ScoringRounds.id := r.(ScoringRounds.id);
     ScoringRounds.event_id := r.(ScoringRounds.event_id);
     ScoringRounds.round_number := r.(ScoringRounds.round_number);
     ScoringRounds.name := r.(ScoringRounds.name);
     ScoringRounds.status := s;
     ScoringRounds.started_at := r.(ScoringRounds.started_at);
     ScoringRounds.completed_at := r.(ScoringRounds.completed_at);
     ScoringRounds.created_at := r.(ScoringRounds.created_at) |}.

(** The three values of the round lifecycle. *)
Definition lifecycle_status (s : option text) : Prop :=
  s = Some "pending" \/ s = Some "active" \/ s = Some "completed".

(** [sub] occurs in [s]. *)
Definition contains (sub s : Js.jsstring) : Prop :=
  exists before after, s = before ++ sub ++ after.

(* ===================================================================== *)
(** * Example data *)
(* ===================================================================== *)

Module Ex.

Local Open Scope N_scope.

Definition score (i : uuid) (j t r : option uuid) (c : string) (v : numeric) : Scores.row :=
  {| Scores.id := Some i; Scores.judge_id := j; Scores.team_id := t;
     Scores.category_id := None; Scores.round_id := r;
     Scores.criterion_name := Some c; Scores.score := Some v;
     Scores.comments := None; Scores.submitted_at := None |}.

(** Scores that refer to no judge, team or round. *)
Definition score_eleven : Scores.row := score 1 None None None "design" (Num (11 # 1)).
Definition score_ten : Scores.row := score 1 None None None "design" (Num (10 # 1)).
Definition score_nan : Scores.row := score 1 None None None "design" NaN.

Definition event (i : uuid) (n : string) : Events.row :=
  {| Events.id := Some i; Events.name := Some n; Events.description := None;
     Events.status := Some "draft"; Events.start_date := None; Events.end_date := None;
     Events.created_by := None; Events.created_at := None; Events.updated_at := None |}.

Definition category (i e : uuid) (n : string) : Categories.row :=
  {| Categories.id := Some i; Categories.event_id := Some e; Categories.name := Some n;
     Categories.description := None; Categories.weight := Some (numeric_of_Z 1%Z);
     Categories.criteria := Some "[]"; Categories.created_at := None |}.

Definition team (i e : uuid) (n : string) (c : option uuid) : Teams.row :=
  {| Teams.id := Some i; Teams.event_id := Some e; Teams.name := Some n;
     Teams.category_id := c; Teams.description := None; Teams.members := Some "[]";
     Teams.created_at := None |}.

Definition judge (i e : uuid) (n token : string) : Judges.row :=
  {| Judges.id := Some i; Judges.event_id := Some e; Judges.name := Some n;
     Judges.email := Some "judge@example.org"; Judges.access_token := Some token;
     Judges.invitation_sent := Some false; Judges.invitation_sent_at := None;
     Judges.created_at := None |}.

Definition round_columns (e : uuid) (n : Z) (st : col text) : ScoringRoundsInsert.columns :=
  {| ScoringRoundsInsert.id := Omitted; ScoringRoundsInsert.event_id := Given (Some e);
     ScoringRoundsInsert.round_number := Given (Some n);
     ScoringRoundsInsert.name := Given (Some "Round");
     ScoringRoundsInsert.status := st; ScoringRoundsInsert.started_at := Omitted;
     ScoringRoundsInsert.completed_at := Omitted; ScoringRoundsInsert.created_at := Omitted |}.

Definition software : Categories.row := category 10 1 "Software".
Definition visitors : Teams.row := team 20 2 "Visitors" (Some 10).
Definition loners : Teams.row := team 21 2 "Loners" None.
Definition lost : Teams.row := team 21 2 "Lost" (Some 99).

(** Two events; the category belongs to the first, the team to the second,
    and the team is filed under that category. *)
Definition two_events : list statement :=
  [ InsertEvent (event 1 "Spring"); InsertEvent (event 2 "Autumn");
    InsertCategory software; InsertTeam visitors ].

(** One event with a category, a team in it, a judge, a round and a score. *)
Definition one_event : list statement :=
  [ InsertEvent (event 1 "Spring");
    InsertCategory (category 10 1 "Software");
    InsertTeam (team 20 1 "Home" (Some 10%N));
    InsertJudge (judge 30 1 "Ana" "tok123");
    InsertScoringRound 40 0%Z (round_columns 1 1%Z Omitted);
    InsertScore (score 50 (Some 30%N) (Some 20%N) (Some 40%N) "design" (numeric_of_Z 7%Z)) ].

(** Two scores that name no judge, team or round, for one criterion. *)
Definition unassigned_a : Scores.row := score 1 None None None "design" (numeric_of_Z 5%Z).
Definition unassigned_b : Scores.row := score 2 None None None "design" (numeric_of_Z 6%Z).

(** Two scores of the judge of [one_event] for the criterion already
    scored there, with another value. *)
Definition design_again : Scores.row :=
  score 52 (Some 30) (Some 20) (Some 40) "design" (numeric_of_Z 9%Z).

(** A second score of the judge of [one_event], for another criterion. *)
Definition pitch_score : Scores.row :=
  score 51 (Some 30) (Some 20) (Some 40) "pitch" (numeric_of_Z 3%Z).

(** An event with a first round inserted as "archived", and the same with
    the round then updated to "paused". *)
Definition spring_only : list statement := [ InsertEvent (event 1 "Spring") ].

Definition archived_columns : ScoringRoundsInsert.columns :=
  round_columns 1 1%Z (Given (Some "archived")).

Definition archived_round : list statement :=
  [ InsertEvent (event 1 "Spring"); InsertScoringRound 40 0%Z archived_columns ].

Definition paused : ScoringRounds.row :=
  {| ScoringRounds.id := None; ScoringRounds.event_id := Some 1;
     ScoringRounds.round_number := Some 1%Z; ScoringRounds.name := Some "Round";
     ScoringRounds.status := Some "paused"; ScoringRounds.started_at := None;
     ScoringRounds.completed_at := None; ScoringRounds.created_at := None |}.

Definition paused_round : list statement :=
  [ InsertEvent (event 1 "Spring");
    InsertScoringRound 40 0%Z (round_columns 1 1%Z Omitted);
    UpdateScoringRound 40 paused ].

(** The state a list of statements leads to from the migrated database. *)
Definition state_after (ss : list statement) : db :=
  match run (empty_db []) ss with
  | Ok d => d
  | Err _ => empty_db []
  end.

(** The request of the spec's example, with its body as JSON text. *)
Definition invitation_body : Js.jsstring :=
  Js.lit "{" ++
  Js.dq ++ Js.lit "judgeName" ++ Js.dq ++ Js.lit ":" ++ Js.dq ++ Js.lit "Ana" ++ Js.dq ++
  Js.lit "," ++
  Js.dq ++ Js.lit "judgeEmail" ++ Js.dq ++ Js.lit ":" ++ Js.dq ++ Js.lit "a@x.com" ++ Js.dq ++
  Js.lit "," ++
  Js.dq ++ Js.lit "eventName" ++ Js.dq ++ Js.lit ":" ++ Js.dq ++ Js.lit "HackX" ++ Js.dq ++
  Js.lit "," ++
  Js.dq ++ Js.lit "accessToken" ++ Js.dq ++ Js.lit ":" ++ Js.dq ++ Js.lit "tok123" ++ Js.dq ++
  Js.lit "," ++
  Js.dq ++ Js.lit "dashboardUrl" ++ Js.dq ++ Js.lit ":" ++ Js.dq ++
  Js.lit "https://d.example/judge" ++ Js.dq ++
  Js.lit "}".

Definition invitation_request : Invitation.Request :=
  {| Invitation.method := Js.lit "POST"; Invitation.sent := invitation_body |}.

(** A request without a body, and requests whose body is [null] or holds
    an object that cannot be converted to a string. *)
Definition empty_request : Invitation.Request :=
  {| Invitation.method := Js.lit "POST"; Invitation.sent := [] |}.

Definition null_request : Invitation.Request :=
  {| Invitation.method := Js.lit "POST"; Invitation.sent := Js.lit "null" |}.

Definition unprintable_request : Invitation.Request :=
  {| Invitation.method := Js.lit "POST";
     Invitation.sent :=
       Js.lit "{" ++ Js.dq ++ Js.lit "eventName" ++ Js.dq ++ Js.lit ":{" ++
       Js.dq ++ Js.lit "toString" ++ Js.dq ++ Js.lit ":1}}" |}.

(** The examples convert no number to a string; any rendering of numbers
    will do for them. *)
Definition no_digits : Q -> Js.jsstring := fun _ => [].

(** A local storage whose [teams] entry is cut off. *)
Definition broken_storage : AppContext.storage :=
  {[ Js.lit "teams" := Js.lit "[{" ]}.

End Ex.

(* ===================================================================== *)
(** * Integrity of the stored data: vocabulary *)
(* ===================================================================== *)

(** Every reference of the rows [rs] is NULL or the id of a row of [ss]. *)
Definition refs_ok {R S} (ref : R -> option uuid) (id_of : S -> option uuid)
    (rs : list R) (ss : list S) : Prop :=
  forall r, In r rs -> fk_ok id_of ss (ref r) = true.

(** The eighteen REFERENCES clauses of the migration. *)
Record referential (d : db) : Prop := {
  ri_events_created_by :
    refs_ok Events.created_by (fun p : uuid => Some p) d.(events) d.(profiles);
  ri_categories_event : refs_ok Categories.event_id Events.id d.(categories) d.(events);
  ri_teams_event : refs_ok Teams.event_id Events.id d.(teams) d.(events);
  ri_teams_category : refs_ok Teams.category_id Categories.id d.(teams) d.(categories);
  ri_judges_event : refs_ok Judges.event_id Events.id d.(judges) d.(events);
  ri_assignments_judge :
    refs_ok JudgeAssignments.judge_id Judges.id d.(judge_assignments) d.(judges);
  ri_assignments_category :
    refs_ok JudgeAssignments.category_id Categories.id d.(judge_assignments) d.(categories);
  ri_assignments_team :
    refs_ok JudgeAssignments.team_id Teams.id d.(judge_assignments) d.(teams);
  ri_rounds_event : refs_ok ScoringRounds.event_id Events.id d.(scoring_rounds) d.(events);
  ri_scores_judge : refs_ok Scores.judge_id Judges.id d.(scores) d.(judges);
  ri_scores_team : refs_ok Scores.team_id Teams.id d.(scores) d.(teams);
  ri_scores_category : refs_ok Scores.category_id Categories.id d.(scores) d.(categories);
  ri_scores_round : refs_ok Scores.round_id ScoringRounds.id d.(scores) d.(scoring_rounds);
  ri_normalized_judge :
    refs_ok NormalizedScores.judge_id Judges.id d.(normalized_scores) d.(judges);
  ri_normalized_team :
    refs_ok NormalizedScores.team_id Teams.id d.(normalized_scores) d.(teams);
  ri_normalized_round :
    refs_ok NormalizedScores.round_id ScoringRounds.id d.(normalized_scores)
            d.(scoring_rounds);
  ri_final_event : refs_ok FinalResults.event_id Events.id d.(final_results) d.(events);
  ri_final_team : refs_ok FinalResults.team_id Teams.id d.(final_results) d.(teams)
}.

(** The nine PRIMARY KEY clauses. *)
Record primary_keys (d : db) : Prop := {
  pk_events : ids_distinct Events.id d.(events);
  pk_categories : ids_distinct Categories.id d.(categories);
  pk_teams : ids_distinct Teams.id d.(teams);
  pk_judges : ids_distinct Judges.id d.(judges);
  pk_judge_assignments : ids_distinct JudgeAssignments.id d.(judge_assignments);
  pk_scoring_rounds : ids_distinct ScoringRounds.id d.(scoring_rounds);
  pk_scores : ids_distinct Scores.id d.(scores);
  pk_normalized_scores : ids_distinct NormalizedScores.id d.(normalized_scores);
  pk_final_results : ids_distinct FinalResults.id d.(final_results)
}.

(** No two rows of [l] collide on a unique key. *)
Definition no_collision {R} (collides : R -> R -> bool) (l : list R) : Prop :=
  ForallOrdPairs (fun a b => collides a b = false) l.

(** The UNIQUE clauses other than the one of [scores]. *)
Record unique_keys (d : db) : Prop := {
  uq_judges : no_collision judges_key_collides d.(judges);
  uq_judge_assignments : no_collision judge_assignments_key_collides d.(judge_assignments);
  uq_scoring_rounds : no_collision scoring_rounds_key_collides d.(scoring_rounds);
  uq_normalized_scores : no_collision normalized_scores_key_collides d.(normalized_scores);
  uq_final_results : no_collision final_results_key_collides d.(final_results)
}.

(** What the NOT NULL and CHECK clauses say of one stored row. *)
Definition event_columns_ok (e : Events.row) : Prop := e.(Events.name) <> None.

Definition category_columns_ok (c : Categories.row) : Prop := c.(Categories.name) <> None.

Definition team_columns_ok (t : Teams.row) : Prop := t.(Teams.name) <> None.

Definition judge_columns_ok (j : Judges.row) : Prop :=
  j.(Judges.name) <> None /\ j.(Judges.email) <> None /\ j.(Judges.access_token) <> None.

Definition round_columns_ok (r : ScoringRounds.row) : Prop :=
  r.(ScoringRounds.round_number) <> None /\ r.(ScoringRounds.name) <> None.

Definition score_columns_ok (s : Scores.row) : Prop :=
  s.(Scores.criterion_name) <> None /\
  exists v, s.(Scores.score) = Some v /\ within_0_10 v.

Definition normalized_score_columns_ok (n : NormalizedScores.row) : Prop :=
  n.(NormalizedScores.raw_score) <> None /\ n.(NormalizedScores.normalized_score) <> None.

Definition final_result_columns_ok (f : FinalResults.row) : Prop :=
  f.(FinalResults.final_score) <> None.

Record columns_ok (d : db) : Prop := {
  co_events : Forall event_columns_ok d.(events);
  co_categories : Forall category_columns_ok d.(categories);
  co_teams : Forall team_columns_ok d.(teams);
  co_judges : Forall judge_columns_ok d.(judges);
  co_scoring_rounds : Forall round_columns_ok d.(scoring_rounds);
  co_scores : Forall score_columns_ok d.(scores);
  co_normalized_scores : Forall normalized_score_columns_ok d.(normalized_scores);
  co_final_results : Forall final_result_columns_ok d.(final_results)
}.

(** Whatever a DELETE dooms in the five referenced tables, the rows that
    reference it through an [event_id] are doomed with it. *)
Record doomed_closed (d : db) (x : doomed) : Prop := {
  dc_categories :
    forall c, In c d.(categories) -> in_ids c.(Categories.event_id) x.(d_events) = true ->
              in_ids c.(Categories.id) x.(d_categories) = true;
  dc_teams :
    forall t, In t d.(teams) -> in_ids t.(Teams.event_id) x.(d_events) = true ->
              in_ids t.(Teams.id) x.(d_teams) = true;
  dc_judges :
    forall j, In j d.(judges) -> in_ids j.(Judges.event_id) x.(d_events) = true ->
              in_ids j.(Judges.id) x.(d_judges) = true;
  dc_rounds :
    forall r, In r d.(scoring_rounds) ->
              in_ids r.(ScoringRounds.event_id) x.(d_events) = true ->
              in_ids r.(ScoringRounds.id) x.(d_rounds) = true
}.

(* ===================================================================== *)
(** * Further statements and properties: vocabulary *)
(* ===================================================================== *)

(** ** What a DELETE leaves *)

(** [others ref k l] with a reference column [ref] is [l] without the rows
    that reference [k].  The states below are what the four DELETEs on a
    referenced table other than [events] lead to. *)
Definition without_category (d : db) (k : uuid) : db :=
  {| profiles := d.(profiles); events := d.(events);
     categories := others Categories.id k d.(categories);
     teams := d.(teams); judges := d.(judges);
     judge_assignments := others JudgeAssignments.category_id k d.(judge_assignments);
     scoring_rounds := d.(scoring_rounds);
     scores := others Scores.category_id k d.(scores);
     normalized_scores := d.(normalized_scores);
     final_results := d.(final_results) |}.

Definition without_team (d : db) (k : uuid) : db :=
  {| profiles := d.(profiles); events := d.(events); categories := d.(categories);
     teams := others Teams.id k d.(teams); judges := d.(judges);
     judge_assignments := others JudgeAssignments.team_id k d.(judge_assignments);
     scoring_rounds := d.(scoring_rounds);
     scores := others Scores.team_id k d.(scores);
     normalized_scores := others NormalizedScores.team_id k d.(normalized_scores);
     final_results := others FinalResults.team_id k d.(final_results) |}.

Definition without_judge (d : db) (k : uuid) : db :=
  {| profiles := d.(profiles); events := d.(events); categories := d.(categories);
     teams := d.(teams); judges := others Judges.id k d.(judges);
     judge_assignments := others JudgeAssignments.judge_id k d.(judge_assignments);
     scoring_rounds := d.(scoring_rounds);
     scores := others Scores.judge_id k d.(scores);
     normalized_scores := others NormalizedScores.judge_id k d.(normalized_scores);
     final_results := d.(final_results) |}.

Definition without_round (d : db) (k : uuid) : db :=
  {| profiles := d.(profiles); events := d.(events); categories := d.(categories);
     teams := d.(teams); judges := d.(judges);
     judge_assignments := d.(judge_assignments);
     scoring_rounds := others ScoringRounds.id k d.(scoring_rounds);
     scores := others Scores.round_id k d.(scores);
     normalized_scores := others NormalizedScores.round_id k d.(normalized_scores);
     final_results := d.(final_results) |}.

(** Is a team filed under category [k]? *)
Definition category_in_use (d : db) (k : uuid) : bool :=
  existsb (fun t => id_is k t.(Teams.category_id)) d.(teams).

(** ** Who passes a policy *)

(** User [u] created the event that [ref] references. *)
Definition created_event (d : db) (u : uuid) (ref : option uuid) : Prop :=
  exists e k, In e d.(events) /\ ref = Some k /\ e.(Events.id) = Some k /\
              e.(Events.created_by) = Some u.

(** User [u] created the event of the team, or of the judge, that [ref]
    references. *)
Definition created_event_of_team (d : db) (u : uuid) (ref : option uuid) : Prop :=
  exists t k, In t d.(teams) /\ ref = Some k /\ t.(Teams.id) = Some k /\
              created_event d u t.(Teams.event_id).

Definition created_event_of_judge (d : db) (u : uuid) (ref : option uuid) : Prop :=
  exists j k, In j d.(judges) /\ ref = Some k /\ j.(Judges.id) = Some k /\
              created_event d u j.(Judges.event_id).

(** SELECT on the other tables under row-level security. *)
Definition select_events (c : caller) (d : db) : list Events.row :=
  List.filter (using_allows events_policies SELECT d c) d.(events).

Definition select_judge_assignments (c : caller) (d : db) : list JudgeAssignments.row :=
  List.filter (using_allows judge_assignments_policies SELECT d c) d.(judge_assignments).

Definition select_scoring_rounds (c : caller) (d : db) : list ScoringRounds.row :=
  List.filter (using_allows scoring_rounds_policies SELECT d c) d.(scoring_rounds).

(** ** The invitation function *)

(** [v] has a string conversion. *)
Definition renders (Number_toString : Q -> Js.jsstring) (v : Js.value) : Prop :=
  exists s, Js.ToString Number_toString v = Js.Return s.

(** The body is JSON for a value that can be destructured and whose five
    fields have a string conversion. *)
Definition body_accepted (Number_toString : Q -> Js.jsstring) (body : Js.jsstring) : Prop :=
  exists v r,
    Js.JSON_parse body = Js.Return v /\ Invitation.destructure v = Js.Return r /\
    renders Number_toString r.(Invitation.eventName) /\
    renders Number_toString r.(Invitation.judgeName) /\
    renders Number_toString r.(Invitation.dashboardUrl) /\
    renders Number_toString r.(Invitation.accessToken) /\
    renders Number_toString r.(Invitation.judgeEmail).

(** The value has none of the five fields: it is no object, or an object
    without them. *)
Definition no_invitation_field (v : Js.value) : Prop :=
  match v with
  | Js.Object ps =>
      Forall (fun k => Js.has_prop (Js.lit k) ps = false)
             ["judgeName"; "judgeEmail"; "eventName"; "accessToken"; "dashboardUrl"]
  | Js.Undefined | Js.Null => False
  | Js.Bool _ | Js.Number _ | Js.Str _ | Js.Array _ => True
  end.

(** ** saveData *)

Module Persist.
Import Js AppContext.

Section SaveData.

(** JSON.stringify is the engine's; the development is parametric in the
    text that it gives for a state.  The capacity of the storage is not
    modelled: [setItem] always stores. *)
Variable JSON_stringify : value -> jsstring.

(** [localStorage.setItem(key, text)] *)
Definition setItem (key : string) (text : jsstring) (ls : storage) : storage :=
  <[lit key := text]> ls.

(** [saveData]: the five states, one key after the other. *)
Definition saveData (st : state) (ls : storage) : storage :=
  setItem "evaluations" (JSON_stringify st.(evaluations))
    (setItem "categories" (JSON_stringify st.(categories))
       (setItem "judges" (JSON_stringify st.(judges))
          (setItem "teams" (JSON_stringify st.(teams))
             (setItem "events" (JSON_stringify st.(events)) ls)))).

End SaveData.

(** The five keys of the mirror. *)
Definition mirrored (key : jsstring) : Prop :=
  In key (map (fun c => lit c.1.1) cells).

(** The state that [loadData] reads from the texts [JSON.parse] accepts
    with the values [v1] to [v5]. *)
Definition loaded (v1 v2 v3 v4 v5 : value) : state :=
  {| events := or_else v1 default_events; teams := or_else v2 default_teams;
     judges := or_else v3 default_judges; categories := or_else v4 default_categories;
     evaluations := or_else v5 default_evaluations |}.

End Persist.

(** ** A second example: one event in full *)

Module Fx.

Local Open Scope N_scope.

Definition assignment (i j c t : uuid) (n : Z) : JudgeAssignments.row :=
  {| JudgeAssignments.id := Some i; JudgeAssignments.judge_id := Some j;
     JudgeAssignments.category_id := Some c; JudgeAssignments.team_id := Some t;
     JudgeAssignments.round_number := Some n; JudgeAssignments.created_at := None |}.

Definition normalized (i j t r : uuid) (raw norm : Z) : NormalizedScores.row :=
  {| NormalizedScores.id := Some i; NormalizedScores.judge_id := Some j;
     NormalizedScores.team_id := Some t; NormalizedScores.round_id := Some r;
     NormalizedScores.raw_score := Some (numeric_of_Z raw);
     NormalizedScores.normalized_score := Some (numeric_of_Z norm);
     NormalizedScores.percentile := None; NormalizedScores.rank := Some 1%Z;
     NormalizedScores.selected_for_round2 := Some true;
     NormalizedScores.created_at := None |}.

Definition final (i e t : uuid) (v : Z) : FinalResults.row :=
  {| FinalResults.id := Some i; FinalResults.event_id := Some e;
     FinalResults.team_id := Some t; FinalResults.final_score := Some (numeric_of_Z v);
     FinalResults.final_rank := Some 1%Z; FinalResults.correlation_coefficient := None;
     FinalResults.created_at := None |}.

Definition owned_event (i owner : uuid) (n : string) : Events.row :=
  {| Events.id := Some i; Events.name := Some n; Events.description := None;
     Events.status := Some "draft"; Events.start_date := None; Events.end_date := None;
     Events.created_by := Some owner; Events.created_at := None;
     Events.updated_at := None |}.

Definition ana : Judges.row := Ex.judge 30 1 "Ana" "tok123".
Definition ben : Judges.row := Ex.judge 31 1 "Ben" "tok456".
Definition home : Teams.row := Ex.team 20 1 "Home" (Some 10).
Definition away : Teams.row := Ex.team 21 1 "Away" None.
Definition hardware : Categories.row := Ex.category 11 1 "Hardware".
Definition design_score : Scores.row :=
  Ex.score 50 (Some 30) (Some 20) (Some 40) "design" (numeric_of_Z 7%Z).

(** An event of user 7 with two categories, two teams, two judges, two
    rounds, and rows in every derived table. *)
Definition festival : list statement :=
  [ InsertEvent (owned_event 1 7 "Spring");
    InsertCategory Ex.software; InsertCategory hardware;
    InsertTeam home; InsertTeam away;
    InsertJudge ana; InsertJudge ben;
    InsertScoringRound 40 0%Z (Ex.round_columns 1 1%Z Omitted);
    InsertScoringRound 41 0%Z (Ex.round_columns 1 2%Z Omitted);
    InsertJudgeAssignment (assignment 60 30 10 20 1%Z);
    InsertJudgeAssignment (assignment 61 31 11 21 1%Z);
    InsertScore design_score;
    InsertScore (Ex.score 51 (Some 31) (Some 21) (Some 40) "design" (numeric_of_Z 4%Z));
    InsertNormalizedScore (normalized 70 30 20 40 7%Z 1%Z);
    InsertFinalResult (final 80 1 20 9%Z) ].

(** The migrated database with the profiles of users 7 and 8. *)
Definition with_users : db := empty_db [7; 8].

Definition festival_db : db :=
  match run with_users festival with
  | Ok d => d
  | Err _ => with_users
  end.

(** An event that is not in [festival_db]. *)
Definition autumn : Events.row := Ex.event 2 "Autumn".

(** A request with an object that has none of the fields, and one whose
    body is a number. *)
Definition empty_object_request : Invitation.Request :=
  {| Invitation.method := Js.lit "POST"; Invitation.sent := Js.lit "{}" |}.

Definition number_request : Invitation.Request :=
  {| Invitation.method := Js.lit "PUT"; Invitation.sent := Js.lit "5" |}.

(** JSON.stringify on the values of the storage examples: the empty
    array, and an array of one string that needs no escape.  It is used
    on these only. *)
Definition stringify_example (v : Js.value) : Js.jsstring :=
  match v with
  | Js.Array [] => Js.lit "[]"
  | Js.Array [Js.Str s] => Js.lit "[" ++ Js.dq ++ s ++ Js.dq ++ Js.lit "]"
  | _ => Js.lit "null"
  end.

(** A state of the provider, and a storage with a key of another
    application next to a stale mirror. *)
Definition some_state : AppContext.state :=
  {| AppContext.events := Js.Array [Js.Str (Js.lit "e")];
     AppContext.teams := Js.Array [Js.Str (Js.lit "t")];
     AppContext.judges := Js.Array [Js.Str (Js.lit "j")];
     AppContext.categories := Js.Array [Js.Str (Js.lit "c")];
     AppContext.evaluations := Js.Array [] |}.

Definition stale_storage : AppContext.storage :=
  {[ Js.lit "currentUser" := Js.lit "{}"; Js.lit "teams" := Js.lit "[{" ]}.

(** A storage with all five entries: a number, a falsy value, and
    arrays. *)
Definition full_storage : AppContext.storage :=
  {[ Js.lit "events" := Js.lit "5"; Js.lit "teams" := Js.lit "null";
     Js.lit "judges" := Js.lit "[]"; Js.lit "categories" := Js.lit "[true]";
     Js.lit "evaluations" := Js.lit "false" ]}.

End Fx.

(** ** Rows and requests for the second example *)

Module Sample.

Local Open Scope N_scope.

(** A score that is not in [Fx.festival_db], and a second one for the
    same judge, team, round and criterion. *)
Definition pitch : Scores.row :=
  Ex.score 52 (Some 30) (Some 20) (Some 41) "pitch" (numeric_of_Z 3%Z).

Definition pitch_again : Scores.row :=
  Ex.score 53 (Some 30) (Some 20) (Some 41) "pitch" (numeric_of_Z 8%Z).

(** The first round of [Fx.festival], as the INSERT stores it. *)
Definition first_round : ScoringRounds.row :=
  scoring_round_defaults 40 0%Z (Ex.round_columns 1 1%Z Omitted).

(** [Fx.festival_db] with one more event, and with one more score. *)
Definition with_autumn : db :=
  with_events Fx.festival_db (Fx.festival_db.(events) ++ [Fx.autumn]).

Definition with_pitch : db :=
  with_scores Fx.festival_db (Fx.festival_db.(scores) ++ [pitch]).

(** A request whose fields are a boolean, an array, [null] and strings. *)
Definition mixed_body : Js.jsstring :=
  Js.lit "{" ++
  Js.dq ++ Js.lit "judgeName" ++ Js.dq ++ Js.lit ":true," ++
  Js.dq ++ Js.lit "judgeEmail" ++ Js.dq ++ Js.lit ":false," ++
  Js.dq ++ Js.lit "eventName" ++ Js.dq ++ Js.lit ":[" ++
    Js.dq ++ Js.lit "a" ++ Js.dq ++ Js.lit "," ++ Js.dq ++ Js.lit "b" ++ Js.dq ++ Js.lit "]," ++
  Js.dq ++ Js.lit "accessToken" ++ Js.dq ++ Js.lit ":null," ++
  Js.dq ++ Js.lit "dashboardUrl" ++ Js.dq ++ Js.lit ":" ++ Js.dq ++ Js.lit "u" ++ Js.dq ++
  Js.lit "}".

Definition mixed_request : Invitation.Request :=
  {| Invitation.method := Js.lit "PUT"; Invitation.sent := mixed_body |}.

(** The same text sent with a GET request. *)
Definition get_request : Invitation.Request :=
  {| Invitation.method := Js.lit "GET"; Invitation.sent := mixed_body |}.

Definition mixed_fields : Invitation.InvitationRequest :=
  {| Invitation.judgeName := Js.Bool true; Invitation.judgeEmail := Js.Bool false;
     Invitation.eventName := Js.Array [Js.Str (Js.lit "a"); Js.Str (Js.lit "b")];
     Invitation.accessToken := Js.Null; Invitation.dashboardUrl := Js.Str (Js.lit "u") |}.

End Sample.

(* ===================================================================== *)
(** * Basic facts *)
(* ===================================================================== *)

Section ResultFacts.
Context {A B : Type}.

Lemma bind_Ok (m : result A) (k : A -> result B) (b : B) :
  m ≫= k = Ok b -> exists a, m = Ok a /\ k a = Ok b.
Proof. destruct m as [a|e]; simpl; [eauto | discriminate]. Qed.

End ResultFacts.

Lemma require_Ok (b : bool) (e : pg_error) (u : unit) :
  require b e = Ok u -> b = true.
Proof. destruct b; [reflexivity | discriminate]. Qed.

Lemma not_null_Ok {A} (column : string) (v : option A) (u : unit) :
  not_null column v = Ok u -> v <> None.
Proof. destruct v; [discriminate | discriminate]. Qed.

Lemma mret_Ok {A} (a b : A) : mret a = Ok b -> a = b.
Proof. intros H. injection H as ->. reflexivity. Qed.

(** Take a successful statement apart into its successful steps. *)
Ltac ok_steps :=
  repeat match goal with
  | H : (_ ≫= _) = Ok _ |- _ =>
      let u := fresh "u" in
      let H1 := fresh "Hstep" in
      apply bind_Ok in H; destruct H as (u & H1 & H)
  | H : require _ _ = Ok _ |- _ => apply require_Ok in H
  | H : not_null _ _ = Ok _ |- _ => apply not_null_Ok in H
  | H : mret _ = Ok _ |- _ => apply mret_Ok in H
  | H : Ok _ = Ok _ |- _ => injection H as H
  end.

Lemma id_is_true (k : uuid) (i : option uuid) : id_is k i = true <-> i = Some k.
Proof.
  unfold id_is. destruct i as [i|]; simpl.
  - destruct (N.eqb_spec i k) as [->|Hne]; split; try reflexivity; try discriminate.
    intros [= ->]. destruct Hne. reflexivity.
  - split; discriminate.
Qed.

Lemma id_is_false (k : uuid) (i : option uuid) : id_is k i = false <-> i <> Some k.
Proof.
  rewrite <- id_is_true. destruct (id_is k i); split; congruence.
Qed.

Lemma has_id_true {R} (id_of : R -> option uuid) (l : list R) (k : uuid) :
  has_id id_of l k = true <-> exists x, In x l /\ id_of x = Some k.
Proof.
  unfold has_id. rewrite existsb_exists.
  split; intros (x & Hx & H); exists x; split; auto; apply id_is_true; auto.
Qed.

Lemma has_id_false {R} (id_of : R -> option uuid) (l : list R) (k : uuid) :
  has_id id_of l k = false <-> forall x, In x l -> id_of x <> Some k.
Proof.
  split.
  - intros H x Hx Hk.
    assert (has_id id_of l k = true) by (apply has_id_true; eauto). congruence.
  - intros H. destruct (has_id id_of l k) eqn:E; [|reflexivity].
    apply has_id_true in E. destruct E as (x & Hx & Hk). destruct (H x Hx Hk).
Qed.

Lemma in_ids_true (ref : option uuid) (ks : list uuid) :
  in_ids ref ks = true <-> exists k, ref = Some k /\ In k ks.
Proof.
  destruct ref as [k|]; simpl.
  - rewrite existsb_exists. split.
    + intros (x & Hx & E). apply N.eqb_eq in E. subst. eauto.
    + intros (k' & [= <-] & Hk). exists k. split; [auto | apply N.eqb_refl].
  - split; [discriminate | intros (k & H & _); discriminate].
Qed.

Lemma in_ids_single (ref : option uuid) (k : uuid) :
  in_ids ref [k] = true <-> ref = Some k.
Proof.
  rewrite in_ids_true. split.
  - intros (k' & -> & [<- | []]). reflexivity.
  - intros ->. exists k. split; [reflexivity | left; reflexivity].
Qed.

Lemma In_ids_of {R} (id_of : R -> option uuid) (l : list R) (k : uuid) :
  In k (ids_of id_of l) <-> exists x, In x l /\ id_of x = Some k.
Proof.
  unfold ids_of. rewrite <- list_elem_of_In, list_elem_of_omap.
  split; intros (x & Hx & H); exists x; split; auto; apply list_elem_of_In; auto.
Qed.

(* ===================================================================== *)
(** * The bounds of a score *)
(* ===================================================================== *)

Lemma score_check_within (r : Scores.row) (v : numeric) :
  r.(Scores.score) = Some v ->
  check_passes (scores_score_check r) = true <-> within_0_10 v.
Proof.
  intros Hv. unfold scores_score_check, sql_ge. rewrite Hv. simpl.
  destruct v as [q| | |]; simpl.
  - unfold numeric_of_Z.
    destruct (Qle_bool (inject_Z 0) q) eqn:E1, (Qle_bool q (inject_Z 10)) eqn:E2; simpl;
      split; try discriminate; try reflexivity.
    + intros _. split; apply Qle_bool_iff; assumption.
    + intros [_ H]. apply Qle_bool_iff in H. unfold inject_Z in E2. congruence.
    + intros [H _]. apply Qle_bool_iff in H. unfold inject_Z in E1. congruence.
    + intros [H _]. apply Qle_bool_iff in H. unfold inject_Z in E1. congruence.
  - split; [discriminate | intros []].
  - split; [discriminate | intros []].
  - split; [discriminate | intros []].
Qed.

Lemma score_row_constraints_check (r : Scores.row) :
  check_passes (scores_score_check r) = false ->
  rejected (score_row_constraints r).
Proof.
  intros H. unfold score_row_constraints, not_null, rejected.
  destruct (Scores.id r), (Scores.criterion_name r), (Scores.score r); simpl; eauto.
  rewrite H. simpl. eauto.
Qed.

(** C1.  A score whose value lies outside the closed interval from 0 to 10
    (the special values of [numeric] included) fails the CHECK constraint
    of [scores] and its INSERT is rejected, with the check violation when
    the row has its id and criterion name; a value inside the interval
    passes the check. *)
Theorem score_bounds_enforced (d : db) (r : Scores.row) (v : numeric) :
  r.(Scores.score) = Some v ->
  (~ within_0_10 v ->
     check_passes (scores_score_check r) = false /\
     rejected (insert_score d r) /\
     (r.(Scores.id) <> None -> r.(Scores.criterion_name) <> None ->
      insert_score d r = Err (check_violation "scores_score_check"))) /\
  (within_0_10 v -> check_passes (scores_score_check r) = true).
Proof.
  intros Hv. split.
  - intros Hout.
    assert (Hc : check_passes (scores_score_check r) = false).
    { destruct (check_passes (scores_score_check r)) eqn:E; [|reflexivity].
      apply (score_check_within r v Hv) in E. contradiction. }
    split; [exact Hc|]. split.
    + destruct (score_row_constraints_check r Hc) as [e He].
      exists e. unfold insert_score. rewrite He. reflexivity.
    + intros Hid Hcn. unfold insert_score, score_row_constraints, not_null.
      destruct (Scores.id r); [|congruence].
      destruct (Scores.criterion_name r); [|congruence].
      rewrite Hv. simpl. rewrite Hc. reflexivity.
  - intros Hin. apply (score_check_within r v Hv). exact Hin.
Qed.

Lemma score_bounds_enforced_witness :
  (~ within_0_10 (Num (11 # 1)) ->
     check_passes (scores_score_check
                     Ex.score_eleven) = false /\
     rejected (insert_score (empty_db [])
                 Ex.score_eleven) /\
     (Ex.score_eleven.(Scores.id) <> None ->
      Ex.score_eleven.(Scores.criterion_name) <> None ->
      insert_score (empty_db []) Ex.score_eleven
      = Err (check_violation "scores_score_check"))) /\
  (within_0_10 (Num (11 # 1)) ->
   check_passes (scores_score_check
                   Ex.score_eleven) = true).
Proof.
  apply (score_bounds_enforced (empty_db [])
           Ex.score_eleven (Num (11 # 1))).
  reflexivity.
Defined.

Example score_eleven_rejected :
  insert_score (empty_db []) Ex.score_eleven
  = Err (check_violation "scores_score_check").
Proof. reflexivity. Qed.

Example score_nan_rejected :
  insert_score (empty_db []) Ex.score_nan
  = Err (check_violation "scores_score_check").
Proof. reflexivity. Qed.

Example score_ten_accepted :
  accepted (insert_score (empty_db []) Ex.score_ten).
Proof. eexists. reflexivity. Qed.

(* ===================================================================== *)
(** * What the policies let through *)
(* ===================================================================== *)

Lemma scores_using_allows (cmd : command) (d : db) (c : caller) (s : Scores.row) :
  using_allows scores_policies cmd d c s = true.
Proof. destruct cmd, c; reflexivity. Qed.

Lemma scores_check_allows (cmd : command) (d : db) (c : caller) (s : Scores.row) :
  check_allows scores_policies cmd d c s = true.
Proof. destruct cmd, c; reflexivity. Qed.

Lemma targets_has_id (cmd : command) (c : caller) (d : db) (k : uuid) :
  targets cmd c d k = has_id Scores.id d.(scores) k.
Proof.
  unfold targets, has_id. induction d.(scores) as [|s l IH]; [reflexivity|].
  cbn [existsb]. rewrite !scores_using_allows, IH, !andb_true_r. reflexivity.
Qed.

(** C3.  On [scores] the policy "Judges can manage their own scores" is
    FOR ALL, TO anon and authenticated, USING (true) WITH CHECK (true):
    for every caller, the anonymous one included, and every row, the
    policies pass INSERT, UPDATE and DELETE in every state, whatever the
    row's [judge_id] is; a statement under row-level security does what
    the statement does without it. *)
Theorem scores_open_to_every_caller (c : caller) (d : db) (k : uuid) (r : Scores.row) :
  check_allows scores_policies INSERT d c r = true /\
  using_allows scores_policies UPDATE d c r = true /\
  check_allows scores_policies UPDATE d c r = true /\
  using_allows scores_policies DELETE d c r = true /\
  rls_insert_score c d r = insert_score d r /\
  rls_update_score c d k r = update_score d k r /\
  rls_delete_score c d k = delete_score d k.
Proof.
  repeat split; try apply scores_using_allows; try apply scores_check_allows.
  - unfold rls_insert_score. rewrite scores_check_allows. reflexivity.
  - unfold rls_update_score. rewrite targets_has_id, scores_check_allows.
    unfold update_score. destruct (has_id Scores.id (scores d) k); reflexivity.
  - unfold rls_delete_score. rewrite targets_has_id. unfold delete_score, others.
    destruct (has_id Scores.id (scores d) k) eqn:E; [reflexivity|].
    simpl. f_equal. unfold with_scores. destruct d; simpl in *. f_equal.
    symmetry. apply forallb_filter_id. apply forallb_forall. intros x Hx.
    apply negb_true_iff. apply id_is_false. eapply has_id_false; eauto.
Qed.

Example anonymous_writes_score :
  exists d d',
    run (empty_db []) Ex.one_event = Ok d /\
    rls_insert_score Anonymous d
      Ex.pitch_score = Ok d' /\
    length d'.(scores) = 2%nat.
Proof. eexists. eexists. split; [reflexivity|]. split; reflexivity. Qed.

(** C10.  On [judges] the policy "Judges can view their own profile by
    token" is FOR SELECT, TO anon and authenticated, USING (true): in
    every state a SELECT by the anonymous caller returns every row of
    [judges], and so the access token of every judge. *)
Theorem judges_readable_by_anonymous (d : db) :
  using_allows judges_policies SELECT d Anonymous = (fun _ => true) /\
  select_judges Anonymous d = d.(judges) /\
  map Judges.access_token (select_judges Anonymous d) = map Judges.access_token d.(judges).
Proof.
  assert (H : select_judges Anonymous d = d.(judges)).
  { unfold select_judges. apply forallb_filter_id. apply forallb_forall.
    intros x _. reflexivity. }
  split; [reflexivity|]. split; [exact H|]. rewrite H. reflexivity.
Qed.

Example anonymous_reads_token :
  exists d,
    run (empty_db []) Ex.one_event = Ok d /\
    map Judges.access_token (select_judges Anonymous d) = [Some "tok123"].
Proof. eexists. split; reflexivity. Qed.

(* ===================================================================== *)
(** * Keys in reachable states *)
(* ===================================================================== *)

Section PrimaryKeys.
Context {R : Type} (id_of : R -> option uuid).

Lemma ids_distinct_nil : ids_distinct id_of [].
Proof. split; constructor. Qed.

Lemma ids_distinct_snoc (l : list R) (r : R) :
  ids_distinct id_of l -> pkey_ok id_of l (id_of r) = true ->
  ids_distinct id_of (l ++ [r]).
Proof.
  intros [Hnn Hnd] Hpk. unfold pkey_ok in Hpk.
  destruct (id_of r) as [k|] eqn:Hr; [|discriminate].
  apply negb_true_iff in Hpk. rewrite has_id_false in Hpk.
  split.
  - apply Forall_app. split; [exact Hnn|]. constructor; [congruence | constructor].
  - rewrite map_app. simpl. rewrite Hr. apply NoDup_app. split; [exact Hnd|]. split.
    + intros i Hi Hk. apply list_elem_of_singleton in Hk. subst i.
      apply list_elem_of_In, in_map_iff in Hi. destruct Hi as (x & Hx & Hin).
      exact (Hpk x Hin Hx).
    + apply NoDup_singleton.
Qed.

Lemma ids_distinct_filter (p : R -> bool) (l : list R) :
  ids_distinct id_of l -> ids_distinct id_of (List.filter p l).
Proof.
  intros [Hnn Hnd]. split.
  - rewrite List.Forall_forall in *. intros x Hx. apply filter_In in Hx. apply Hnn, Hx.
  - induction l as [|x l IH]; simpl; [constructor|].
    inversion Hnd as [|? ? Hx Hl]; subst. inversion Hnn; subst.
    destruct (p x); simpl; [|auto].
    constructor; [|auto]. intros Hin. apply Hx.
    apply list_elem_of_In, in_map_iff in Hin. destruct Hin as (y & Hy & Hin).
    apply filter_In in Hin. apply list_elem_of_In, in_map_iff. exists y. tauto.
Qed.

Lemma map_id_replace_row (k : uuid) (r : R) (l : list R) :
  id_of r = Some k -> map id_of (replace_row id_of k r l) = map id_of l.
Proof.
  intros Hr. unfold replace_row. rewrite map_map. apply map_ext.
  intros x. destruct (id_is k (id_of x)) eqn:E; [|reflexivity].
  apply id_is_true in E. congruence.
Qed.

Lemma ids_distinct_replace_row (k : uuid) (r : R) (l : list R) :
  id_of r = Some k -> ids_distinct id_of l ->
  ids_distinct id_of (replace_row id_of k r l).
Proof.
  intros Hr [Hnn Hnd]. split.
  - rewrite List.Forall_forall in *. intros x Hx. unfold replace_row in Hx.
    apply in_map_iff in Hx. destruct Hx as (y & <- & Hy).
    destruct (id_is k (id_of y)); [congruence | auto].
  - rewrite map_id_replace_row; assumption.
Qed.

Lemma map_id_replace_first (p : R -> bool) (r old : R) (l : list R) :
  List.find p l = Some old -> id_of r = id_of old ->
  map id_of (replace_first p r l) = map id_of l.
Proof.
  intros Hf Hr. induction l as [|x l IH]; simpl in *; [discriminate|].
  destruct (p x); simpl.
  - injection Hf as ->. rewrite Hr. reflexivity.
  - rewrite IH; auto.
Qed.

Lemma ids_distinct_replace_first (p : R -> bool) (r old : R) (l : list R) :
  List.find p l = Some old -> id_of r = id_of old -> ids_distinct id_of l ->
  ids_distinct id_of (replace_first p r l).
Proof.
  intros Hf Hr [Hnn Hnd]. split.
  - assert (Hold : id_of old <> None).
    { apply find_some in Hf. rewrite List.Forall_forall in Hnn. apply Hnn, Hf. }
    clear Hf Hnd. induction l as [|x l IH]; simpl; [constructor|].
    inversion Hnn; subst. destruct (p x); constructor; auto. congruence.
  - erewrite map_id_replace_first; eauto.
Qed.

(** With distinct ids, the id names the row. *)
Lemma ids_distinct_inj (l : list R) (x y : R) :
  ids_distinct id_of l -> In x l -> In y l -> id_of x = id_of y -> x = y.
Proof.
  intros [_ Hnd]. induction l as [|z l IH]; simpl; [intros []|].
  inversion Hnd as [|? ? Hz Hl]; subst.
  intros [->|Hx] [->|Hy] E; auto.
  - destruct Hz. apply list_elem_of_In, in_map_iff. exists y. split; auto.
  - destruct Hz. apply list_elem_of_In, in_map_iff. exists x. split; auto.
Qed.

Lemma others_all (k : uuid) (l : list R) :
  has_id id_of l k = false -> others id_of k l = l.
Proof.
  intros H. unfold others. apply forallb_filter_id. apply forallb_forall.
  intros x Hx. apply negb_true_iff, id_is_false. eapply has_id_false; eauto.
Qed.

Lemma replace_row_none (k : uuid) (r : R) (l : list R) :
  has_id id_of l k = false -> replace_row id_of k r l = l.
Proof.
  intros H. unfold replace_row. rewrite <- (map_id l) at 2. apply map_ext_in.
  intros x Hx. rewrite has_id_false in H.
  destruct (id_is k (id_of x)) eqn:E; [|reflexivity].
  apply id_is_true in E. destruct (H x Hx E).
Qed.

Lemma has_id_snoc (l : list R) (r : R) (k : uuid) :
  has_id id_of l k = true -> has_id id_of (l ++ [r]) k = true.
Proof. unfold has_id. rewrite existsb_app. intros ->. reflexivity. Qed.

End PrimaryKeys.

(** ** The unique key of [scores] *)

Lemma is_true_eq_uuid (a b : option uuid) :
  is_true (sql_eq_uuid a b) = true <-> exists k, a = Some k /\ b = Some k.
Proof.
  destruct a as [x|], b as [y|]; simpl;
    try (split; [discriminate | intros (k & H1 & H2); discriminate]).
  destruct (N.eqb_spec x y) as [->|Hne]; split; eauto; try discriminate.
  intros (k & [= ->] & [= ->]). destruct Hne. reflexivity.
Qed.

Lemma is_true_eq_text (a b : option text) :
  is_true (sql_eq_text a b) = true <-> exists k, a = Some k /\ b = Some k.
Proof.
  destruct a as [x|], b as [y|]; simpl;
    try (split; [discriminate | intros (k & H1 & H2); discriminate]).
  destruct (String.eqb_spec x y) as [->|Hne]; split; eauto; try discriminate.
  intros (k & [= ->] & [= ->]). destruct Hne. reflexivity.
Qed.

(** Two rows collide exactly when they have the same tuple and no column
    of it is NULL. *)
Lemma collides_iff (a b : Scores.row) :
  scores_key_collides a b = true <->
  exists j t r c, tuple_of a = (Some j, Some t, Some r, Some c) /\
                  tuple_of b = (Some j, Some t, Some r, Some c).
Proof.
  unfold scores_key_collides, tuple_of. rewrite !andb_true_iff.
  rewrite !is_true_eq_uuid, is_true_eq_text. split.
  - intros [[[(j & -> & ->) (t & -> & ->)] (r & -> & ->)] (c & -> & ->)].
    exists j, t, r, c. split; reflexivity.
  - intros (j & t & r & c & [= -> -> -> ->] & [= -> -> -> ->]).
    repeat split; eexists; split; reflexivity.
Qed.

Lemma collides_sym (a b : Scores.row) :
  scores_key_collides a b = scores_key_collides b a.
Proof.
  destruct (scores_key_collides a b) eqn:E1, (scores_key_collides b a) eqn:E2;
    try reflexivity.
  - apply collides_iff in E1. destruct E1 as (j & t & r & c & Ha & Hb).
    assert (scores_key_collides b a = true) by (apply collides_iff; eauto 10). congruence.
  - apply collides_iff in E2. destruct E2 as (j & t & r & c & Ha & Hb).
    assert (scores_key_collides a b = true) by (apply collides_iff; eauto 10). congruence.
Qed.

Lemma collides_tuple (a a' b : Scores.row) :
  tuple_of a = tuple_of a' -> scores_key_collides a b = scores_key_collides a' b.
Proof.
  unfold scores_key_collides, tuple_of. intros [= -> -> -> ->]. reflexivity.
Qed.

Lemma collides_trans (a b c : Scores.row) :
  scores_key_collides a b = true -> scores_key_collides a c = true ->
  scores_key_collides b c = true.
Proof.
  rewrite !collides_iff.
  intros (j & t & r & n & Ha & Hb) (j' & t' & r' & n' & Ha' & Hc).
  rewrite Ha in Ha'. injection Ha' as <- <- <- <-. eauto 10.
Qed.

Lemma tuple_of_score_with_id (i : option uuid) (r : Scores.row) :
  tuple_of (score_with_id i r) = tuple_of r.
Proof. reflexivity. Qed.

Lemma keys_distinct_filter (p : Scores.row -> bool) (l : list Scores.row) :
  keys_distinct l -> keys_distinct (List.filter p l).
Proof.
  unfold keys_distinct. induction 1 as [|x l Hx Hl IH]; simpl; [constructor|].
  destruct (p x); [|exact IH]. constructor; [|exact IH].
  rewrite List.Forall_forall in *. intros y Hy. apply filter_In in Hy. apply Hx, Hy.
Qed.

Lemma keys_distinct_snoc (l : list Scores.row) (r : Scores.row) :
  keys_distinct l -> existsb (scores_key_collides r) l = false ->
  keys_distinct (l ++ [r]).
Proof.
  unfold keys_distinct. intros Hl Hr.
  assert (Hr' : forall x, In x l -> scores_key_collides x r = false).
  { intros x Hx. rewrite collides_sym.
    destruct (scores_key_collides r x) eqn:E; [|reflexivity].
    assert (existsb (scores_key_collides r) l = true) by (apply existsb_exists; eauto).
    congruence. }
  clear Hr. induction Hl as [|x l Hx Hl IH]; simpl.
  - constructor; constructor.
  - constructor.
    + apply Forall_app. split; [exact Hx|]. constructor; [|constructor].
      apply Hr'. left. reflexivity.
    + apply IH. intros y Hy. apply Hr'. right. exact Hy.
Qed.

Lemma keys_distinct_replace_row (k : uuid) (r r' : Scores.row) (l : list Scores.row) :
  ids_distinct Scores.id l -> keys_distinct l ->
  tuple_of r' = tuple_of r ->
  existsb (scores_key_collides r) (others Scores.id k l) = false ->
  keys_distinct (replace_row Scores.id k r' l).
Proof.
  unfold keys_distinct. intros Hid Hl Ht Hr.
  assert (Hr' : forall x, In x (others Scores.id k l) -> scores_key_collides r' x = false).
  { intros x Hx. rewrite (collides_tuple r' r x Ht).
    destruct (scores_key_collides r x) eqn:E; [|reflexivity].
    assert (existsb (scores_key_collides r) (others Scores.id k l) = true)
      by (apply existsb_exists; eauto).
    congruence. }
  clear Hr. induction Hl as [|x l Hx Hl IH]; simpl; [constructor|].
  assert (Hid' : ids_distinct Scores.id l).
  { destruct Hid as [H1 H2]. inversion H1; inversion H2; subst. split; assumption. }
  destruct (id_is k (Scores.id x)) eqn:E.
  - apply id_is_true in E.
    assert (Hno : has_id Scores.id l k = false).
    { apply has_id_false. intros y Hy Hk. destruct Hid as [_ Hnd].
      inversion Hnd as [|? ? Hnin _]; subst. apply Hnin.
      apply list_elem_of_In, in_map_iff. exists y. split; [congruence | exact Hy]. }
    fold (replace_row Scores.id k r' l). rewrite (replace_row_none _ _ _ _ Hno).
    constructor; [|exact Hl].
    rewrite List.Forall_forall. intros y Hy. apply Hr'.
    unfold others. simpl. rewrite E.
    assert (id_is k (Some k) = true) by (apply id_is_true; reflexivity).
    rewrite H. simpl. fold (others Scores.id k l). rewrite (others_all _ _ _ Hno). exact Hy.
  - assert (Hin : In x (others Scores.id k (x :: l))).
    { unfold others. simpl. rewrite E. left. reflexivity. }
    constructor.
    + rewrite List.Forall_forall in *. intros y Hy.
      fold (replace_row Scores.id k r' l) in Hy. unfold replace_row in Hy.
      apply in_map_iff in Hy. destruct Hy as (z & <- & Hz).
      destruct (id_is k (Scores.id z)); [|auto].
      rewrite collides_sym. apply Hr'. exact Hin.
    + apply IH; [exact Hid'|]. intros y Hy. apply Hr'.
      unfold others in *. simpl. rewrite E. right. exact Hy.
Qed.

Lemma keys_distinct_replace_first (r r' : Scores.row) (l : list Scores.row) :
  keys_distinct l -> tuple_of r' = tuple_of r ->
  keys_distinct (replace_first (scores_key_collides r) r' l).
Proof.
  unfold keys_distinct. intros Hl Ht.
  induction Hl as [|x l Hx Hl IH]; simpl; [constructor|].
  destruct (scores_key_collides r x) eqn:E.
  - constructor; [|exact Hl].
    rewrite List.Forall_forall in *. intros y Hy.
    rewrite (collides_tuple r' r y Ht).
    destruct (scores_key_collides r y) eqn:E'; [|reflexivity].
    rewrite <- (Hx y Hy). symmetry. eapply collides_trans; eauto.
  - constructor; [|exact IH].
    rewrite List.Forall_forall in *. intros y Hy.
    assert (Hy' : In y l \/ y = r').
    { clear - Hy. induction l as [|z l IH]; simpl in *; [destruct Hy|].
      destruct (scores_key_collides r z); simpl in Hy.
      - destruct Hy as [<-|Hy]; auto.
      - destruct Hy as [<-|Hy]; auto. destruct (IH Hy); auto. }
    destruct Hy' as [Hy'| ->]; [auto|].
    rewrite collides_sym, (collides_tuple r' r x Ht). exact E.
Qed.

(** At most one row for a tuple without NULLs. *)
Lemma keys_distinct_rows_with (l : list Scores.row) (j t r : uuid) (c : text) :
  keys_distinct l -> (length (rows_with (Some j, Some t, Some r, Some c) l) <= 1)%nat.
Proof.
  unfold keys_distinct, rows_with. induction 1 as [|x l Hx Hl IH]; simpl; [lia|].
  case_bool_decide as Ex; simpl; [|exact IH].
  assert (Hnone : List.filter
            (fun s => bool_decide (tuple_of s = (Some j, Some t, Some r, Some c))) l = []).
  { rewrite List.Forall_forall in Hx.
    destruct (List.filter _ l) as [|y l'] eqn:Ef; [reflexivity|].
    assert (Hy : In y (List.filter
              (fun s => bool_decide (tuple_of s = (Some j, Some t, Some r, Some c))) l))
      by (rewrite Ef; left; reflexivity).
    apply filter_In in Hy. destruct Hy as [Hy Hty]. apply bool_decide_eq_true in Hty.
    assert (scores_key_collides x y = true) by (apply collides_iff; eauto 10).
    rewrite (Hx y Hy) in H. discriminate. }
  rewrite Hnone. simpl. lia.
Qed.

(** ** Every statement keeps the keys *)

Lemma fk_ok_snoc {R} (id_of : R -> option uuid) (l : list R) (r : R) (ref : option uuid) :
  fk_ok id_of l ref = true -> fk_ok id_of (l ++ [r]) ref = true.
Proof. destruct ref as [k|]; simpl; [apply has_id_snoc | reflexivity]. Qed.

Lemma well_keyed_empty (ps : list uuid) : well_keyed (empty_db ps).
Proof.
  constructor; simpl; try apply ids_distinct_nil; try constructor. intros t [].
Qed.

Lemma insert_event_keyed d r d' :
  well_keyed d -> insert_event d r = Ok d' -> well_keyed d'.
Proof.
  intros [] H. unfold insert_event in H. ok_steps. subst d'.
  constructor; simpl; auto.
Qed.

Lemma insert_category_keyed d r d' :
  well_keyed d -> insert_category d r = Ok d' -> well_keyed d'.
Proof.
  intros [] H. unfold insert_category in H. ok_steps. subst d'.
  constructor; simpl; auto.
  - apply ids_distinct_snoc; assumption.
  - intros t Ht. apply fk_ok_snoc. auto.
Qed.

Lemma team_constraints_category d r u :
  team_constraints d r = Ok u ->
  fk_ok Categories.id d.(categories) r.(Teams.category_id) = true.
Proof. intros H. unfold team_constraints in H. ok_steps. assumption. Qed.

Lemma insert_team_keyed d r d' :
  well_keyed d -> insert_team d r = Ok d' -> well_keyed d'.
Proof.
  intros [] H. unfold insert_team in H. ok_steps. subst d'.
  constructor; simpl; auto.
  - apply ids_distinct_snoc; assumption.
  - intros t Ht. apply in_app_or in Ht. destruct Ht as [Ht|[<-|[]]]; [auto|].
    eapply team_constraints_category; eauto.
Qed.

Lemma update_team_keyed d k r d' :
  well_keyed d -> update_team d k r = Ok d' -> well_keyed d'.
Proof.
  intros Hwk H. unfold update_team in H.
  destruct (has_id Teams.id (teams d) k); [|ok_steps; subst; assumption].
  destruct Hwk. ok_steps. subst d'. constructor; simpl; auto.
  - apply ids_distinct_replace_row; [reflexivity | assumption].
  - intros t Ht. unfold replace_row in Ht. apply in_map_iff in Ht.
    destruct Ht as (x & <- & Hx). destruct (id_is k (Teams.id x)); [|auto].
    simpl. eapply team_constraints_category; eauto.
Qed.

Lemma insert_judge_keyed d r d' :
  well_keyed d -> insert_judge d r = Ok d' -> well_keyed d'.
Proof.
  intros [] H. unfold insert_judge in H. ok_steps. subst d'.
  constructor; simpl; auto. apply ids_distinct_snoc; assumption.
Qed.

Lemma insert_judge_assignment_keyed d r d' :
  well_keyed d -> insert_judge_assignment d r = Ok d' -> well_keyed d'.
Proof.
  intros [] H. unfold insert_judge_assignment in H. ok_steps. subst d'.
  constructor; simpl; auto.
Qed.

Lemma insert_scoring_round_keyed d r d' :
  well_keyed d -> insert_scoring_round d r = Ok d' -> well_keyed d'.
Proof.
  intros [] H. unfold insert_scoring_round in H. ok_steps. subst d'.
  constructor; simpl; auto. apply ids_distinct_snoc; assumption.
Qed.

Lemma update_scoring_round_keyed d k r d' :
  well_keyed d -> update_scoring_round d k r = Ok d' -> well_keyed d'.
Proof.
  intros Hwk H. unfold update_scoring_round in H.
  destruct (has_id ScoringRounds.id (scoring_rounds d) k); [|ok_steps; subst; assumption].
  destruct Hwk. ok_steps. subst d'. constructor; simpl; auto.
  apply ids_distinct_replace_row; [reflexivity | assumption].
Qed.

Lemma insert_score_keyed d r d' :
  well_keyed d -> insert_score d r = Ok d' -> well_keyed d'.
Proof.
  intros [] H. unfold insert_score in H. ok_steps. subst d'.
  constructor; simpl; auto.
  - apply ids_distinct_snoc; assumption.
  - apply keys_distinct_snoc; [assumption|]. apply negb_true_iff. assumption.
Qed.

Lemma update_score_keyed d k r d' :
  well_keyed d -> update_score d k r = Ok d' -> well_keyed d'.
Proof.
  intros Hwk H. unfold update_score in H.
  destruct (has_id Scores.id (scores d) k); [|ok_steps; subst; assumption].
  destruct Hwk. ok_steps. subst d'. constructor; simpl; auto.
  - apply ids_distinct_replace_row; [reflexivity | assumption].
  - apply keys_distinct_replace_row with (r := r); auto.
    apply negb_true_iff. assumption.
Qed.

Lemma delete_score_keyed d k d' :
  well_keyed d -> delete_score d k = Ok d' -> well_keyed d'.
Proof.
  intros [] H. unfold delete_score in H. ok_steps. subst d'.
  constructor; simpl; auto.
  - apply ids_distinct_filter. assumption.
  - apply keys_distinct_filter. assumption.
Qed.

Lemma upsert_score_keyed d r d' :
  well_keyed d -> upsert_score d r = Ok d' -> well_keyed d'.
Proof.
  intros [] H. unfold upsert_score in H. ok_steps.
  destruct (List.find (scores_key_collides r) (scores d)) as [old|] eqn:Ef.
  - ok_steps. subst d'. constructor; simpl; auto.
    + eapply ids_distinct_replace_first; eauto.
    + apply keys_distinct_replace_first; auto.
  - ok_steps. subst d'. constructor; simpl; auto.
    + apply ids_distinct_snoc; assumption.
    + apply keys_distinct_snoc; [assumption|].
      destruct (existsb (scores_key_collides r) (scores d)) eqn:E; [|reflexivity].
      apply existsb_exists in E. destruct E as (x & Hx & Hc).
      eapply find_none in Ef; [|exact Hx]. congruence.
Qed.

Lemma insert_normalized_score_keyed d r d' :
  well_keyed d -> insert_normalized_score d r = Ok d' -> well_keyed d'.
Proof.
  intros [] H. unfold insert_normalized_score in H. ok_steps. subst d'.
  constructor; simpl; auto.
Qed.

Lemma insert_final_result_keyed d r d' :
  well_keyed d -> insert_final_result d r = Ok d' -> well_keyed d'.
Proof.
  intros [] H. unfold insert_final_result in H. ok_steps. subst d'.
  constructor; simpl; auto.
Qed.

Lemma has_id_replace_row {R} (id_of : R -> option uuid) (k k' : uuid) (r : R) (l : list R) :
  id_of r = Some k ->
  has_id id_of (replace_row id_of k r l) k' = has_id id_of l k'.
Proof.
  intros Hr.
  destruct (has_id id_of l k') eqn:E.
  - apply has_id_true in E. destruct E as (x & Hx & Hk). apply has_id_true.
    exists (if id_is k (id_of x) then r else x). split.
    + unfold replace_row. apply in_map_iff. exists x. split; [reflexivity | exact Hx].
    + destruct (id_is k (id_of x)) eqn:Ek; [|exact Hk].
      apply id_is_true in Ek. congruence.
  - apply has_id_false. intros y Hy Hk. rewrite has_id_false in E.
    unfold replace_row in Hy. apply in_map_iff in Hy. destruct Hy as (x & <- & Hx).
    destruct (id_is k (id_of x)) eqn:Ek; [|exact (E x Hx Hk)].
    apply id_is_true in Ek. apply (E x Hx). congruence.
Qed.

Lemma update_event_keyed d k r d' :
  well_keyed d -> update_event d k r = Ok d' -> well_keyed d'.
Proof.
  intros Hwk H. unfold update_event in H.
  destruct (has_id Events.id (events d) k); [|ok_steps; subst; assumption].
  destruct Hwk. ok_steps. subst d'. constructor; simpl; auto.
Qed.

Lemma update_category_keyed d k r d' :
  well_keyed d -> update_category d k r = Ok d' -> well_keyed d'.
Proof.
  intros Hwk H. unfold update_category in H.
  destruct (has_id Categories.id (categories d) k); [|ok_steps; subst; assumption].
  destruct Hwk. ok_steps. subst d'. constructor; simpl; auto.
  - apply ids_distinct_replace_row; [reflexivity | assumption].
  - intros t Ht. specialize (wk_team_category0 t Ht).
    destruct (Teams.category_id t) as [c|]; simpl in *; [|reflexivity].
    rewrite has_id_replace_row; [assumption | reflexivity].
Qed.

Lemma update_judge_keyed d k r d' :
  well_keyed d -> update_judge d k r = Ok d' -> well_keyed d'.
Proof.
  intros Hwk H. unfold update_judge in H.
  destruct (has_id Judges.id (judges d) k); [|ok_steps; subst; assumption].
  destruct Hwk. ok_steps. subst d'. constructor; simpl; auto.
  apply ids_distinct_replace_row; [reflexivity | assumption].
Qed.

Lemma update_judge_assignment_keyed d k r d' :
  well_keyed d -> update_judge_assignment d k r = Ok d' -> well_keyed d'.
Proof.
  intros Hwk H. unfold update_judge_assignment in H.
  destruct (has_id JudgeAssignments.id (judge_assignments d) k);
    [|ok_steps; subst; assumption].
  destruct Hwk. ok_steps. subst d'. constructor; simpl; auto.
Qed.

Lemma update_normalized_score_keyed d k r d' :
  well_keyed d -> update_normalized_score d k r = Ok d' -> well_keyed d'.
Proof.
  intros Hwk H. unfold update_normalized_score in H.
  destruct (has_id NormalizedScores.id (normalized_scores d) k);
    [|ok_steps; subst; assumption].
  destruct Hwk. ok_steps. subst d'. constructor; simpl; auto.
Qed.

Lemma update_final_result_keyed d k r d' :
  well_keyed d -> update_final_result d k r = Ok d' -> well_keyed d'.
Proof.
  intros Hwk H. unfold update_final_result in H.
  destruct (has_id FinalResults.id (final_results d) k); [|ok_steps; subst; assumption].
  destruct Hwk. ok_steps. subst d'. constructor; simpl; auto.
Qed.

Lemma delete_leaf_keyed d d' :
  well_keyed d ->
  (exists k, delete_judge_assignment d k = Ok d') \/
  (exists k, delete_normalized_score d k = Ok d') \/
  (exists k, delete_final_result d k = Ok d') ->
  well_keyed d'.
Proof.
  intros [] [[k H]|[[k H]|[k H]]];
    unfold delete_judge_assignment, delete_normalized_score, delete_final_result in H;
    ok_steps; subst d'; constructor; simpl; auto.
Qed.

Lemma remove_doomed_keyed d x d' :
  well_keyed d -> remove_doomed d x = Ok d' -> well_keyed d'.
Proof.
  intros [] H. unfold remove_doomed in H. ok_steps. subst d'.
  constructor; simpl; auto using ids_distinct_filter, keys_distinct_filter.
  intros t Ht.
  assert (Hin : In t (teams d)) by (apply filter_In in Ht; tauto).
  rewrite forallb_forall in Hstep. specialize (Hstep t Ht).
  apply negb_true_iff in Hstep.
  specialize (wk_team_category0 t Hin).
  destruct (Teams.category_id t) as [c|]; simpl in *; [|reflexivity].
  apply has_id_true in wk_team_category0. destruct wk_team_category0 as (cat & Hcat & Hc).
  apply has_id_true. exists cat. split; [|exact Hc].
  apply filter_In. split; [exact Hcat|]. rewrite Hc. simpl. rewrite Hstep. reflexivity.
Qed.

Ltac delete_keyed H :=
  match type of H with
  | (if ?c then _ else _) = Ok _ =>
      destruct c; [eapply remove_doomed_keyed; eauto | ok_steps; subst; assumption]
  end.

Lemma exec_keyed d s d' :
  well_keyed d -> exec d s = Ok d' -> well_keyed d'.
Proof.
  intros Hwk H. destruct s; cbn [exec] in H.
  - eapply insert_event_keyed; eassumption.
  - eapply update_event_keyed; eassumption.
  - unfold delete_event in H. delete_keyed H.
  - eapply insert_category_keyed; eassumption.
  - eapply update_category_keyed; eassumption.
  - unfold delete_category in H. delete_keyed H.
  - eapply insert_team_keyed; eassumption.
  - eapply update_team_keyed; eassumption.
  - unfold delete_team in H. delete_keyed H.
  - eapply insert_judge_keyed; eassumption.
  - eapply update_judge_keyed; eassumption.
  - unfold delete_judge in H. delete_keyed H.
  - eapply insert_judge_assignment_keyed; eassumption.
  - eapply update_judge_assignment_keyed; eassumption.
  - eapply delete_leaf_keyed; eauto.
  - eapply insert_scoring_round_keyed; eassumption.
  - eapply update_scoring_round_keyed; eassumption.
  - unfold delete_scoring_round in H. delete_keyed H.
  - eapply insert_score_keyed; eassumption.
  - eapply update_score_keyed; eassumption.
  - eapply delete_score_keyed; eassumption.
  - eapply upsert_score_keyed; eassumption.
  - eapply insert_normalized_score_keyed; eassumption.
  - eapply update_normalized_score_keyed; eassumption.
  - eapply delete_leaf_keyed; eauto.
  - eapply insert_final_result_keyed; eassumption.
  - eapply update_final_result_keyed; eassumption.
  - eapply delete_leaf_keyed; eauto 6.
Qed.

Lemma reachable_well_keyed d : reachable d -> well_keyed d.
Proof.
  induction 1 as [ps|d d' s _ IH H]; [apply well_keyed_empty | eapply exec_keyed; eauto].
Qed.

Lemma run_reachable d ss d' : reachable d -> run d ss = Ok d' -> reachable d'.
Proof.
  revert d. induction ss as [|s ss IH]; simpl; intros d Hd H.
  - injection H as <-. exact Hd.
  - apply bind_Ok in H. destruct H as (d1 & H1 & H2).
    eapply IH; [|exact H2]. eapply reachable_exec; eauto.
Qed.

(* ===================================================================== *)
(** * One score per judge, team, round and criterion *)
(* ===================================================================== *)

Lemma replace_first_In {R} (p : R -> bool) (r old : R) (l : list R) :
  List.find p l = Some old -> In r (replace_first p r l).
Proof.
  induction l as [|x l IH]; simpl; [discriminate|].
  destruct (p x); [intros _; left; reflexivity | intros H; right; auto].
Qed.

Lemma length_replace_first {R} (p : R -> bool) (r : R) (l : list R) :
  length (replace_first p r l) = length l.
Proof.
  induction l as [|x l IH]; simpl; [reflexivity|].
  destruct (p x); simpl; [reflexivity | rewrite IH; reflexivity].
Qed.

Lemma score_with_own_id (r : Scores.row) : score_with_id r.(Scores.id) r = r.
Proof. destruct r; reflexivity. Qed.

Lemma rows_with_In (t : score_tuple) (l : list Scores.row) (x : Scores.row) :
  In x (rows_with t l) <-> In x l /\ tuple_of x = t.
Proof.
  unfold rows_with. rewrite filter_In, bool_decide_eq_true. reflexivity.
Qed.

Lemma at_most_one_is (l : list Scores.row) (x : Scores.row) :
  (length l <= 1)%nat -> In x l -> l = [x].
Proof.
  destruct l as [|y [|z l]]; simpl; intros Hl Hx.
  - destruct Hx.
  - destruct Hx as [->|[]]. reflexivity.
  - lia.
Qed.

(** C2, the claim as stated fails: two submissions whose tuple has a NULL
    in it (here no judge, team or round) both succeed, as do two plain
    INSERTs, and the reachable state holds two rows for the one tuple. *)
Lemma score_tuple_with_null_twice :
  exists d,
    run (empty_db []) [SubmitScore Ex.unassigned_a; SubmitScore Ex.unassigned_b] = Ok d /\
    run (empty_db []) [InsertScore Ex.unassigned_a; InsertScore Ex.unassigned_b] = Ok d /\
    reachable d /\
    tuple_of Ex.unassigned_a = tuple_of Ex.unassigned_b /\
    rows_with (tuple_of Ex.unassigned_a) d.(scores) = [Ex.unassigned_a; Ex.unassigned_b] /\
    ~ (length (rows_with (tuple_of Ex.unassigned_a) d.(scores)) <= 1)%nat.
Proof.
  eexists. split; [reflexivity|]. split; [reflexivity|]. split.
  - apply (run_reachable (empty_db [])
             [SubmitScore Ex.unassigned_a; SubmitScore Ex.unassigned_b]);
      [apply reachable_migrated | reflexivity].
  - split; [reflexivity|]. split; [reflexivity|]. simpl. lia.
Qed.

(** A second submission for the tuple of [one_event] replaces the value. *)
Example second_submission_replaces :
  exists d d',
    run (empty_db []) Ex.one_event = Ok d /\
    map Scores.score d.(scores) = [Some (numeric_of_Z 7)] /\
    submit_score d Ex.design_again = Ok d' /\
    map Scores.score d'.(scores) = [Some (numeric_of_Z 9)] /\
    map Scores.id d'.(scores) = [Some 50%N].
Proof. eexists. eexists. repeat split; reflexivity. Qed.

(** A plain INSERT for the tuple is rejected by the unique constraint. *)
Example second_insert_rejected :
  exists d,
    run (empty_db []) Ex.one_event = Ok d /\
    insert_score d Ex.design_again
    = Err (unique_violation "scores_judge_id_team_id_round_id_criterion_name_key").
Proof. eexists. split; reflexivity. Qed.

(* ===================================================================== *)
(** * Deleting an event *)
(* ===================================================================== *)

Lemma bool_false_iff (b : bool) (P : Prop) : (b = true <-> P) -> (b = false <-> ~ P).
Proof. destruct b; intros [H1 H2]; split; try congruence; try tauto. intros _ HP.
  specialize (H2 HP). discriminate. Qed.

Section EventRows.
Context {R : Type} (id_of event_of : R -> option uuid) (l : list R) (k : uuid).

Local Abbreviation keys := (ids_of id_of (List.filter (fun y => in_ids (event_of y) [k]) l)).

Lemma in_event_keys (ref : option uuid) :
  in_ids ref keys = true <->
  exists y, (In y l /\ event_of y = Some k) /\ points_to ref (id_of y).
Proof.
  rewrite in_ids_true. split.
  - intros (i & -> & Hi). apply In_ids_of in Hi. destruct Hi as (y & Hy & Hi).
    apply filter_In in Hy. destruct Hy as [Hy Hev]. apply in_ids_single in Hev.
    exists y. split; [split; assumption|]. exists i. split; [reflexivity | exact Hi].
  - intros (y & [Hy Hev] & i & -> & Hi). exists i. split; [reflexivity|].
    apply In_ids_of. exists y. split; [|exact Hi].
    apply filter_In. split; [exact Hy|]. apply in_ids_single. exact Hev.
Qed.

(** With a primary key, a row is among them exactly when it is a row of
    the event. *)
Lemma own_id_in_event_keys (x : R) :
  ids_distinct id_of l -> In x l ->
  in_ids (id_of x) keys = true <-> event_of x = Some k.
Proof.
  intros Hid Hx. rewrite in_event_keys. split.
  - intros (y & [Hy Hev] & i & Hxi & Hyi).
    assert (x = y) by (eapply ids_distinct_inj; eauto; congruence). subst y. exact Hev.
  - intros Hev. exists x. split; [split; assumption|].
    destruct Hid as [Hnn _]. rewrite List.Forall_forall in Hnn. specialize (Hnn x Hx).
    destruct (id_of x) as [i|]; [|congruence]. exists i. split; reflexivity.
Qed.

(** What is left of the table when the rows of the event go. *)
Lemma event_rows_removed (x : R) :
  ids_distinct id_of l ->
  In x (List.filter (fun y => negb (in_ids (id_of y) keys)) l) <->
  In x l /\ ~ (In x l /\ event_of x = Some k).
Proof.
  intros Hid. rewrite filter_In, negb_true_iff. split.
  - intros [Hx Hf]. split; [exact Hx|]. intros [_ Hev].
    apply (proj2 (own_id_in_event_keys x Hid Hx)) in Hev. congruence.
  - intros [Hx Hn]. split; [exact Hx|].
    apply (bool_false_iff _ _ (own_id_in_event_keys x Hid Hx)). tauto.
Qed.

Lemma forallb_false (f : R -> bool) (xs : list R) :
  forallb f xs = false -> exists x, In x xs /\ f x = false.
Proof.
  induction xs as [|x xs IH]; simpl; [discriminate|].
  destruct (f x) eqn:E; simpl.
  - intros H. destruct (IH H) as (y & Hy & Hf). eauto.
  - intros _. eauto.
Qed.

End EventRows.

Lemma remove_doomed_by_event (d : db) (k : uuid) (d' : db) :
  well_keyed d -> remove_doomed d (doomed_by_event d k) = Ok d' -> event_removed d k d'.
Proof.
  intros Hwk H. unfold remove_doomed in H. ok_steps. subst d'. clear Hstep.
  destruct Hwk. constructor; simpl; intros x.
  - rewrite filter_In, negb_true_iff, (bool_false_iff _ _ (in_ids_single _ _)).
    reflexivity.
  - apply (event_rows_removed Categories.id Categories.event_id); assumption.
  - apply (event_rows_removed Teams.id Teams.event_id); assumption.
  - apply (event_rows_removed Judges.id Judges.event_id); assumption.
  - apply (event_rows_removed ScoringRounds.id ScoringRounds.event_id); assumption.
  - rewrite filter_In, negb_true_iff, !orb_false_iff.
    rewrite !(bool_false_iff _ _ (in_event_keys _ _ _ _ _)).
    unfold assignment_of_event, judge_of_event, category_of_event, team_of_event. tauto.
  - rewrite filter_In, negb_true_iff, !orb_false_iff.
    rewrite !(bool_false_iff _ _ (in_event_keys _ _ _ _ _)).
    unfold score_of_event, judge_of_event, category_of_event, team_of_event, round_of_event.
    tauto.
  - rewrite filter_In, negb_true_iff, !orb_false_iff.
    rewrite !(bool_false_iff _ _ (in_event_keys _ _ _ _ _)).
    unfold normalized_score_of_event, judge_of_event, team_of_event, round_of_event. tauto.
  - rewrite filter_In, negb_true_iff, !orb_false_iff.
    rewrite (bool_false_iff _ _ (in_ids_single _ _)).
    rewrite !(bool_false_iff _ _ (in_event_keys _ _ _ _ _)).
    unfold final_result_of_event, team_of_event. tauto.
Qed.

Lemma remaining_teams_In (d : db) (k : uuid) (t : Teams.row) :
  well_keyed d ->
  In t (remaining_teams d k) <-> In t d.(teams) /\ t.(Teams.event_id) <> Some k.
Proof.
  intros []. unfold remaining_teams. simpl.
  rewrite (event_rows_removed Teams.id Teams.event_id _ k t wk_teams0). tauto.
Qed.

(** The NO ACTION check of [teams.category_id] passes exactly when no team
    outside the event is filed under one of its categories. *)
Lemma no_action_check_passes (d : db) (k : uuid) :
  well_keyed d ->
  forallb (fun t => negb (in_ids t.(Teams.category_id) (doomed_by_event d k).(d_categories)))
          (remaining_teams d k) = true ->
  ~ foreign_team_in_category d k.
Proof.
  intros Hwk H (t & c & Ht & Hev & [Hc Hcev] & Hp).
  rewrite forallb_forall in H.
  assert (Hin : In t (remaining_teams d k)) by (apply remaining_teams_In; auto).
  specialize (H t Hin). apply negb_true_iff in H. simpl in H.
  apply (bool_false_iff _ _ (in_event_keys Categories.id Categories.event_id _ k _)) in H.
  apply H. exists c. tauto.
Qed.

Lemma no_action_check_fails (d : db) (k : uuid) :
  well_keyed d ->
  forallb (fun t => negb (in_ids t.(Teams.category_id) (doomed_by_event d k).(d_categories)))
          (remaining_teams d k) = false ->
  foreign_team_in_category d k.
Proof.
  intros Hwk H. apply forallb_false in H. destruct H as (t & Ht & Hf).
  apply remaining_teams_In in Ht; [|exact Hwk]. destruct Ht as [Ht Hev].
  apply negb_false_iff in Hf. simpl in Hf.
  apply (in_event_keys Categories.id Categories.event_id) in Hf.
  destruct Hf as (c & Hc & Hp). exists t, c. unfold category_of_event. tauto.
Qed.

(** Where every team's category is a category of the team's own event,
    no team blocks the deletion of an event. *)
Lemma no_foreign_team_within_events (d : db) (k : uuid) :
  (forall t c, In t d.(teams) -> In c d.(categories) ->
               points_to t.(Teams.category_id) c.(Categories.id) ->
               t.(Teams.event_id) = c.(Categories.event_id)) ->
  ~ foreign_team_in_category d k.
Proof.
  intros Hsame (t & c & Ht & Hev & [Hc Hck] & Hp).
  apply Hev. rewrite (Hsame t c Ht Hc Hp). exact Hck.
Qed.

(** C4, the claim as stated fails: with a team of another event filed
    under a category of the event, the DELETE of the event is rejected by
    the foreign key of [teams.category_id]; nothing is removed. *)
Lemma delete_event_blocked_by_foreign_team :
  exists d,
    run (empty_db []) Ex.two_events = Ok d /\
    reachable d /\
    has_id Events.id d.(events) 1%N = true /\
    delete_event d 1%N = Err (foreign_key_violation "teams_category_id_fkey").
Proof.
  eexists. split; [reflexivity|]. split.
  - apply (run_reachable (empty_db []) Ex.two_events);
      [apply reachable_migrated | reflexivity].
  - split; reflexivity.
Qed.

(** C4, amended.  In every reachable state, deleting an event that exists
    either succeeds, and then removes the event and exactly the rows that
    hang on it through the foreign keys (its categories, teams, judges and
    scoring rounds, and the assignments, scores, normalized scores and
    final results that reference any of them), or it is rejected by the
    foreign key of [teams.category_id]; it is rejected exactly when a
    team outside the event is filed under one of the event's categories,
    so teams of the event itself never block it. *)
Theorem delete_event_cascades (d : db) (k : uuid) :
  reachable d ->
  has_id Events.id d.(events) k = true ->
  (foreign_team_in_category d k /\
   delete_event d k = Err (foreign_key_violation "teams_category_id_fkey")) \/
  (~ foreign_team_in_category d k /\
   exists d', delete_event d k = Ok d' /\ event_removed d k d').
Proof.
  intros Hd Hk. apply reachable_well_keyed in Hd.
  unfold delete_event. rewrite Hk.
  destruct (forallb
              (fun t => negb (in_ids t.(Teams.category_id)
                                     (doomed_by_event d k).(d_categories)))
              (remaining_teams d k)) eqn:Ef.
  - right. split; [apply no_action_check_passes; assumption|].
    assert (E : exists d', remove_doomed d (doomed_by_event d k) = Ok d').
    { unfold remove_doomed. fold (remaining_teams d k). rewrite Ef. simpl. eauto. }
    destruct E as [d' E]. exists d'. split; [exact E|].
    apply remove_doomed_by_event; assumption.
  - left. split; [apply no_action_check_fails; assumption|].
    unfold remove_doomed. fold (remaining_teams d k). rewrite Ef. reflexivity.
Qed.

Lemma delete_event_cascades_witness :
  (foreign_team_in_category (Ex.state_after Ex.one_event) 1%N /\
   delete_event (Ex.state_after Ex.one_event) 1%N
   = Err (foreign_key_violation "teams_category_id_fkey")) \/
  (~ foreign_team_in_category (Ex.state_after Ex.one_event) 1%N /\
   exists d', delete_event (Ex.state_after Ex.one_event) 1%N = Ok d' /\
              event_removed (Ex.state_after Ex.one_event) 1%N d').
Proof.
  apply (delete_event_cascades (Ex.state_after Ex.one_event) 1%N).
  - apply (run_reachable (empty_db []) Ex.one_event); [apply reachable_migrated | reflexivity].
  - reflexivity.
Defined.

(** The event of [one_event] goes with all that hangs on it, its team in
    its own category included. *)
Example delete_event_empties :
  exists d',
    delete_event (Ex.state_after Ex.one_event) 1%N = Ok d' /\
    d' = empty_db [].
Proof. exists (empty_db []). split; vm_compute; reflexivity. Qed.

(* ===================================================================== *)
(** * The category of a team *)
(* ===================================================================== *)

(** C5, the claim as stated fails: a team of the second event is inserted
    with a category of the first event; the statement is accepted and the
    reachable state holds a team whose category belongs to another
    event. *)
Lemma team_in_category_of_other_event :
  exists d t c,
    run (empty_db []) Ex.two_events = Ok d /\
    reachable d /\
    In t d.(teams) /\ In c d.(categories) /\
    t.(Teams.category_id) = c.(Categories.id) /\
    t.(Teams.category_id) = Some 10%N /\
    t.(Teams.event_id) = Some 2%N /\
    c.(Categories.event_id) = Some 1%N /\
    t.(Teams.event_id) <> c.(Categories.event_id).
Proof.
  eexists. exists Ex.visitors, Ex.software.
  split; [reflexivity|]. split.
  - apply (run_reachable (empty_db []) Ex.two_events);
      [apply reachable_migrated | reflexivity].
  - simpl. repeat split; auto.
Qed.

(** C5, amended.  In every reachable state the [category_id] of a team is
    either NULL or the id of a row of [categories]; no statement on teams
    or categories breaks this.  Nothing relates the event of that category
    to the event of the team. *)
Theorem team_category_exists (d : db) (t : Teams.row) :
  reachable d -> In t d.(teams) ->
  t.(Teams.category_id) = None \/
  exists c, In c d.(categories) /\ c.(Categories.id) = t.(Teams.category_id).
Proof.
  intros Hd Ht. apply reachable_well_keyed in Hd.
  pose proof (wk_team_category d Hd t Ht) as H.
  destruct (Teams.category_id t) as [k|]; [right | left; reflexivity].
  simpl in H. apply has_id_true in H. destruct H as (c & Hc & Hk). eauto.
Qed.

Lemma team_category_exists_witness :
  Ex.visitors.(Teams.category_id) = None \/
  exists c, In c (Ex.state_after Ex.two_events).(categories) /\
            c.(Categories.id) = Ex.visitors.(Teams.category_id).
Proof.
  apply (team_category_exists (Ex.state_after Ex.two_events)
           Ex.visitors).
  - apply (run_reachable (empty_db []) Ex.two_events);
      [apply reachable_migrated | reflexivity].
  - simpl. left. reflexivity.
Defined.

(** A team may have no category, and a category that does not exist is
    refused. *)
Example team_without_category :
  accepted (insert_team (Ex.state_after Ex.two_events) Ex.loners).
Proof. eexists. reflexivity. Qed.

Example team_with_unknown_category :
  insert_team (Ex.state_after Ex.two_events) Ex.lost
  = Err (foreign_key_violation "teams_category_id_fkey").
Proof. reflexivity. Qed.

(* ===================================================================== *)
(** * The status of a scoring round *)
(* ===================================================================== *)

Lemma insert_scoring_round_any_status (d : db) (r : ScoringRounds.row) (s : option text) :
  insert_scoring_round d (round_with_status s r)
  = (insert_scoring_round d r ≫= fun _ =>
     Ok (with_scoring_rounds d (d.(scoring_rounds) ++ [round_with_status s r]))).
Proof.
  unfold insert_scoring_round, not_null, scoring_rounds_key_collides. simpl.
  repeat match goal with
         | |- context [require ?b _] => destruct b; simpl
         end; reflexivity.
Qed.

Lemma update_scoring_round_any_status (d : db) (k : uuid) (r : ScoringRounds.row)
    (s : option text) :
  has_id ScoringRounds.id d.(scoring_rounds) k = true ->
  update_scoring_round d k (round_with_status s r)
  = (update_scoring_round d k r ≫= fun _ =>
     Ok (with_scoring_rounds d
           (replace_row ScoringRounds.id k
              (round_with_status s (scoring_round_with_id k r)) d.(scoring_rounds)))).
Proof.
  intros Hk. unfold update_scoring_round, not_null, scoring_rounds_key_collides.
  rewrite Hk. simpl.
  repeat match goal with
         | |- context [require ?b _] => destruct b; simpl
         end; reflexivity.
Qed.

Lemma In_replace_row {R} (id_of : R -> option uuid) (k : uuid) (r x : R) (l : list R) :
  In x (replace_row id_of k r l) -> id_of r = Some k -> id_of x = Some k -> x = r.
Proof.
  unfold replace_row. intros Hx Hr Hk. apply in_map_iff in Hx.
  destruct Hx as (y & <- & Hy). destruct (id_is k (id_of y)) eqn:E; [reflexivity|].
  apply id_is_false in E. contradiction.
Qed.

(** C6, the claim as stated fails: a round is inserted with the status
    "archived"; the statement is accepted and the reachable state holds a
    round whose status is none of the three values.  An UPDATE stores
    "paused" in the same way. *)
Lemma round_status_outside_lifecycle :
  (exists d r,
     run (empty_db []) Ex.archived_round = Ok d /\ reachable d /\
     In r d.(scoring_rounds) /\ r.(ScoringRounds.status) = Some "archived" /\
     ~ lifecycle_status r.(ScoringRounds.status)) /\
  (exists d r,
     run (empty_db []) Ex.paused_round = Ok d /\ reachable d /\
     In r d.(scoring_rounds) /\ r.(ScoringRounds.status) = Some "paused" /\
     ~ lifecycle_status r.(ScoringRounds.status)).
Proof.
  split.
  - eexists. eexists. split; [reflexivity|]. split.
    + apply (run_reachable (empty_db []) Ex.archived_round);
        [apply reachable_migrated | reflexivity].
    + split; [left; reflexivity|]. split; [reflexivity|].
      intros [H|[H|H]]; discriminate.
  - eexists. eexists. split; [reflexivity|]. split.
    + apply (run_reachable (empty_db []) Ex.paused_round);
        [apply reachable_migrated | reflexivity].
    + split; [left; reflexivity|]. split; [reflexivity|].
      intros [H|[H|H]]; discriminate.
Qed.

(** C6, amended.  The status of a scoring round is free text: an INSERT
    that leaves the column out stores 'pending', and wherever an INSERT is
    accepted, the same INSERT with any status [s] (any text, or NULL) is
    accepted too and stores [s]; likewise an UPDATE that is accepted is
    accepted with any status and stores it. *)
Theorem round_status_unconstrained (fresh : uuid) (now : timestamptz) (d d' : db)
    (c : ScoringRoundsInsert.columns) (s : option text) :
  insert_scoring_round_columns fresh now d c = Ok d' ->
  (exists row, d'.(scoring_rounds) = d.(scoring_rounds) ++ [row] /\
               row.(ScoringRounds.status)
               = with_default (Some "pending") c.(ScoringRoundsInsert.status)) /\
  (exists d'' row,
     insert_scoring_round_columns fresh now d (with_status (Given s) c) = Ok d'' /\
     d''.(scoring_rounds) = d.(scoring_rounds) ++ [row] /\
     row.(ScoringRounds.status) = s) /\
  (forall k r d1,
     has_id ScoringRounds.id d.(scoring_rounds) k = true ->
     update_scoring_round d k r = Ok d1 ->
     exists d2,
       update_scoring_round d k (round_with_status s r) = Ok d2 /\
       forall x, In x d2.(scoring_rounds) -> x.(ScoringRounds.id) = Some k ->
                 x.(ScoringRounds.status) = s).
Proof.
  intros H. unfold insert_scoring_round_columns in *. split; [|split].
  - unfold insert_scoring_round in H. ok_steps. subst d'. simpl.
    eexists. split; reflexivity.
  - change (scoring_round_defaults fresh now (with_status (Given s) c))
      with (round_with_status s (scoring_round_defaults fresh now c)).
    rewrite insert_scoring_round_any_status, H. simpl.
    eexists. eexists. split; [reflexivity|]. split; reflexivity.
  - intros k r d1 Hk Hu.
    rewrite (update_scoring_round_any_status d k r s Hk), Hu. simpl.
    eexists. split; [reflexivity|]. simpl. intros x Hx Hid.
    apply In_replace_row in Hx; [subst x; reflexivity | reflexivity | exact Hid].
Qed.

Lemma round_status_unconstrained_witness :
  (exists row,
     (Ex.state_after Ex.archived_round).(scoring_rounds)
     = (Ex.state_after Ex.spring_only).(scoring_rounds) ++ [row] /\
     row.(ScoringRounds.status)
     = with_default (Some "pending")
         Ex.archived_columns.(ScoringRoundsInsert.status)) /\
  (exists d'' row,
     insert_scoring_round_columns 40%N 0%Z (Ex.state_after Ex.spring_only)
       (with_status (Given (Some "judging")) Ex.archived_columns)
     = Ok d'' /\
     d''.(scoring_rounds)
     = (Ex.state_after Ex.spring_only).(scoring_rounds) ++ [row] /\
     row.(ScoringRounds.status) = Some "judging") /\
  (forall k r d1,
     has_id ScoringRounds.id
       (Ex.state_after Ex.spring_only).(scoring_rounds) k = true ->
     update_scoring_round (Ex.state_after Ex.spring_only) k r = Ok d1 ->
     exists d2,
       update_scoring_round (Ex.state_after Ex.spring_only) k
         (round_with_status (Some "judging") r) = Ok d2 /\
       forall x, In x d2.(scoring_rounds) -> x.(ScoringRounds.id) = Some k ->
                 x.(ScoringRounds.status) = Some "judging").
Proof.
  apply (round_status_unconstrained 40%N 0%Z
           (Ex.state_after Ex.spring_only)
           (Ex.state_after Ex.archived_round)
           Ex.archived_columns (Some "judging")).
  reflexivity.
Defined.

Example round_status_defaults_to_pending :
  map ScoringRounds.status (Ex.state_after Ex.one_event).(scoring_rounds) = [Some "pending"].
Proof. reflexivity. Qed.

(* ===================================================================== *)
(** * The invitation function *)
(* ===================================================================== *)

Section InvitationFacts.
Import Js Invitation.

Variable Number_toString : Q -> jsstring.

Lemma eff_bind_return {St A B} (a : A) (k : A -> Eff St B) (st : St) :
  (lift (Return a) ≫= k) st = k a st.
Proof. reflexivity. Qed.

Lemma jsstring_eqb_false (a b : jsstring) : a <> b -> jsstring_eqb a b = false.
Proof. intros H. unfold jsstring_eqb. apply bool_decide_eq_false. exact H. Qed.


Lemma contains_here (x rest : jsstring) : contains x (x ++ rest).
Proof. exists [], rest. reflexivity. Qed.

Lemma contains_skip (x p rest : jsstring) : contains x rest -> contains x (p ++ rest).
Proof.
  intros (before & after & ->). exists (p ++ before), after.
  rewrite <- app_assoc. reflexivity.
Qed.

Ltac find_in_template :=
  unfold emailContent;
  repeat first [ apply contains_here | apply contains_skip ].

Lemma contains_token (en jn url tok : jsstring) :
  contains tok (emailContent en jn url tok).
Proof. find_in_template. Qed.

Lemma contains_event (en jn url tok : jsstring) :
  contains en (emailContent en jn url tok).
Proof. find_in_template. Qed.

(** C7.  For a request that is not OPTIONS and whose body is the JSON text
    of an object with the five fields as strings, the handler returns
    status 200 with the body [{success: true, message, preview}], where
    the preview is the rendered email and contains the access token and
    the event name; the four lines are logged. *)
Theorem invitation_preview (req : Request) (out : console)
    (ps : list (jsstring * value)) (jn je en tok url : jsstring) :
  req.(method) <> lit "OPTIONS" ->
  JSON_parse (body req) = Return (Object ps) ->
  get_prop (lit "judgeName") ps = Str jn ->
  get_prop (lit "judgeEmail") ps = Str je ->
  get_prop (lit "eventName") ps = Str en ->
  get_prop (lit "accessToken") ps = Str tok ->
  get_prop (lit "dashboardUrl") ps = Str url ->
  exists html message,
    handler Number_toString req out
    = (Return {| status := 200;
                 headers := corsHeaders ++ [(lit "Content-Type", lit "application/json")];
                 payload := Some (Object [ (lit "success", Bool true);
                                           (lit "message", Str message);
                                           (lit "preview", Str html) ]) |},
       out ++ [ console_log (lit "Email would be sent to: " ++ je);
                console_log (lit "Event: " ++ en);
                console_log (lit "Access Token: " ++ tok);
                console_log (lit "Dashboard URL: " ++ url) ]) /\
    html = emailContent en jn url tok /\
    contains tok html /\ contains en html.
Proof.
  intros Hm Hp H1 H2 H3 H4 H5.
  exists (emailContent en jn url tok), (lit "Invitation email sent successfully").
  split; [|split; [reflexivity | split; [apply contains_token | apply contains_event]]].
  unfold handler. rewrite (jsstring_eqb_false _ _ Hm).
  unfold try_catch, try_block, req_json. rewrite Hp.
  rewrite eff_bind_return. unfold destructure. rewrite eff_bind_return.
  cbn [judgeName judgeEmail eventName accessToken dashboardUrl].
  rewrite H1, H2, H3, H4, H5. unfold subst. cbn [ToString].
  rewrite !eff_bind_return. unfold log.
  unfold mbind, eff_mbind, eff_bind, mret, eff_mret, eff_ret.
  rewrite <- !app_assoc. reflexivity.
Qed.


(** What the [try] block throws is what parsing, destructuring or
    rendering threw. *)
Lemma try_block_throws_parse (req : Request) (out : console) (e : error) :
  JSON_parse (body req) = Throw e -> try_block Number_toString req out = (Throw e, out).
Proof. intros H. unfold try_block, req_json. rewrite H. reflexivity. Qed.

Lemma try_block_throws_destructure (req : Request) (out : console) (v : value) (e : error) :
  JSON_parse (body req) = Return v -> destructure v = Throw e ->
  try_block Number_toString req out = (Throw e, out).
Proof.
  intros H Hd. unfold try_block, req_json. rewrite H, eff_bind_return, Hd. reflexivity.
Qed.

End InvitationFacts.

Lemma invitation_preview_witness :
  exists html message,
    Invitation.handler Ex.no_digits Ex.invitation_request []
    = (Js.Return
         {| Invitation.status := 200;
            Invitation.headers :=
              Invitation.corsHeaders ++ [(Js.lit "Content-Type", Js.lit "application/json")];
            Invitation.payload :=
              Some (Js.Object [ (Js.lit "success", Js.Bool true);
                                (Js.lit "message", Js.Str message);
                                (Js.lit "preview", Js.Str html) ]) |},
       [] ++ [ Invitation.console_log (Js.lit "Email would be sent to: " ++ Js.lit "a@x.com");
               Invitation.console_log (Js.lit "Event: " ++ Js.lit "HackX");
               Invitation.console_log (Js.lit "Access Token: " ++ Js.lit "tok123");
               Invitation.console_log
                 (Js.lit "Dashboard URL: " ++ Js.lit "https://d.example/judge") ]) /\
    html = Invitation.emailContent (Js.lit "HackX") (Js.lit "Ana")
             (Js.lit "https://d.example/judge") (Js.lit "tok123") /\
    contains (Js.lit "tok123") html /\ contains (Js.lit "HackX") html.
Proof.
  apply (invitation_preview Ex.no_digits Ex.invitation_request []
           [ (Js.lit "judgeName", Js.Str (Js.lit "Ana"));
             (Js.lit "judgeEmail", Js.Str (Js.lit "a@x.com"));
             (Js.lit "eventName", Js.Str (Js.lit "HackX"));
             (Js.lit "accessToken", Js.Str (Js.lit "tok123"));
             (Js.lit "dashboardUrl", Js.Str (Js.lit "https://d.example/judge")) ]
           (Js.lit "Ana") (Js.lit "a@x.com") (Js.lit "HackX") (Js.lit "tok123")
           (Js.lit "https://d.example/judge")).
  - vm_compute. discriminate.
  - vm_compute. reflexivity.
  - vm_compute. reflexivity.
  - vm_compute. reflexivity.
  - vm_compute. reflexivity.
  - vm_compute. reflexivity.
  - vm_compute. reflexivity.
Defined.


(** The three ways in which the [try] block throws: a body that is no
    JSON, the body [null], and a field that has no string conversion. *)
Example invitation_without_body :
  Invitation.handler Ex.no_digits Ex.empty_request []
  = (Js.Return
       {| Invitation.status := 500;
          Invitation.headers :=
            Invitation.corsHeaders ++ [(Js.lit "Content-Type", Js.lit "application/json")];
          Invitation.payload :=
            Some (Js.Object [ (Js.lit "success", Js.Bool false);
                              (Js.lit "error", Js.Str (Js.lit "Unexpected token in JSON")) ]) |},
     [Invitation.console_error (Js.lit "Error sending invitation:") Js.SyntaxError]).
Proof. vm_compute. reflexivity. Qed.

Example invitation_null_body :
  exists out,
    Invitation.try_block Ex.no_digits Ex.null_request []
    = (Js.Throw (Js.TypeError
         "Cannot destructure property 'judgeName' of '(intermediate value)' as it is null."),
       out) /\
    exists resp out',
      Invitation.handler Ex.no_digits Ex.null_request [] = (Js.Return resp, out') /\
      resp.(Invitation.status) = 500%Z.
Proof. eexists. split; [vm_compute; reflexivity|]. eexists. eexists. split; vm_compute; reflexivity. Qed.

Example invitation_unprintable_field :
  exists out,
    Invitation.try_block Ex.no_digits Ex.unprintable_request []
    = (Js.Throw (Js.TypeError "Cannot convert object to primitive value"), out) /\
    exists resp out',
      Invitation.handler Ex.no_digits Ex.unprintable_request [] = (Js.Return resp, out') /\
      resp.(Invitation.status) = 500%Z.
Proof. eexists. split; [vm_compute; reflexivity|]. eexists. eexists. split; vm_compute; reflexivity. Qed.

Example invitation_options :
  Invitation.handler Ex.no_digits
    {| Invitation.method := Js.lit "OPTIONS"; Invitation.sent := [] |} []
  = (Js.Return {| Invitation.status := 200; Invitation.headers := Invitation.corsHeaders;
                  Invitation.payload := None |}, []).
Proof. vm_compute. reflexivity. Qed.

(* ===================================================================== *)
(** * Loading the client state *)
(* ===================================================================== *)

Section LoadFacts.
Import Js AppContext.

Lemma load_absent (ls : storage) (key : string) (seed : value) :
  ls !! lit key = None -> load ls key seed = Return seed.
Proof. intros H. unfold load, getItem. rewrite H. reflexivity. Qed.

Lemma load_unparsable (ls : storage) (key : string) (seed : value)
    (text : jsstring) (e : error) :
  ls !! lit key = Some text -> JSON_parse text = Throw e -> load ls key seed = Throw e.
Proof. intros H He. unfold load, getItem. rewrite H. simpl. rewrite He. reflexivity. Qed.

Lemma load_parsable (ls : storage) (key : string) (seed : value)
    (text : jsstring) (v : value) :
  ls !! lit key = Some text -> JSON_parse text = Return v ->
  load ls key seed = Return (or_else v seed).
Proof. intros H He. unfold load, getItem. rewrite H. simpl. rewrite He. reflexivity. Qed.

Ltac all_loads ls :=
  destruct (load ls "events" default_events) eqn:?;
  destruct (load ls "teams" default_teams) eqn:?;
  destruct (load ls "judges" default_judges) eqn:?;
  destruct (load ls "categories" default_categories) eqn:?;
  destruct (load ls "evaluations" default_evaluations) eqn:?.

(** [loadData], one key after the other. *)
Lemma loadData_steps (ls : storage) (st : state) :
  loadData ls st =
  match load ls "events" default_events with
  | Throw e => (Throw e, st)
  | Return v1 =>
    match load ls "teams" default_teams with
    | Throw e =>
        (Throw e, {| events := v1; teams := st.(teams); judges := st.(judges);
                     categories := st.(categories); evaluations := st.(evaluations) |})
    | Return v2 =>
      match load ls "judges" default_judges with
      | Throw e =>
          (Throw e, {| events := v1; teams := v2; judges := st.(judges);
                       categories := st.(categories); evaluations := st.(evaluations) |})
      | Return v3 =>
        match load ls "categories" default_categories with
        | Throw e =>
            (Throw e, {| events := v1; teams := v2; judges := v3;
                         categories := st.(categories);
                         evaluations := st.(evaluations) |})
        | Return v4 =>
          match load ls "evaluations" default_evaluations with
          | Throw e =>
              (Throw e, {| events := v1; teams := v2; judges := v3; categories := v4;
                           evaluations := st.(evaluations) |})
          | Return v5 =>
              (Return tt, {| events := v1; teams := v2; judges := v3; categories := v4;
                             evaluations := v5 |})
          end
        end
      end
    end
  end.
Proof.
  unfold loadData, mbind, eff_mbind, eff_bind, lift. all_loads ls; reflexivity.
Qed.

(** C9, the claim as stated fails: with a [teams] entry that is no JSON,
    [loadData] does not fall back to the seed; JSON.parse's SyntaxError
    leaves [loadData], and the teams are not set. *)
Lemma loadData_unparsable_throws :
  Ex.broken_storage !! lit "teams" = Some (lit "[{") /\
  JSON_parse (lit "[{") = Throw SyntaxError /\
  exists st,
    loadData Ex.broken_storage initial = (Throw SyntaxError, st) /\
    st.(teams) = Array [] /\
    st.(teams) <> default_teams.
Proof.
  split; [vm_compute; reflexivity|]. split; [vm_compute; reflexivity|].
  eexists. split; [vm_compute; reflexivity|]. split; [reflexivity|].
  simpl. discriminate.
Qed.

(** C9, amended.  For each of the five keys: when the key is absent, the
    value loaded for it is the hardcoded seed, and the state is set to
    the seed whenever [loadData] completes; when the stored text fails to
    parse, loading the key throws the exception of JSON.parse, [loadData]
    throws as well, and the state of that key stays as it was. *)
Theorem load_absent_or_unparsable (ls : storage) (st : state)
    (key : string) (cell : state -> value) (seed : value) :
  In (key, cell, seed) cells ->
  (ls !! lit key = None ->
   load ls key seed = Return seed /\
   forall st', loadData ls st = (Return tt, st') -> cell st' = seed) /\
  (forall text e,
     ls !! lit key = Some text -> JSON_parse text = Throw e ->
     load ls key seed = Throw e /\
     exists e' st', loadData ls st = (Throw e', st') /\ cell st' = cell st).
Proof.
  intros Hcell. split.
  - intros Habs. pose proof (load_absent ls key seed Habs) as Hl.
    split; [exact Hl|]. intros st' Hd. rewrite loadData_steps in Hd.
    simpl in Hcell.
    destruct Hcell as [[= <- <- <-]|[[= <- <- <-]|[[= <- <- <-]|[[= <- <- <-]|
                      [[= <- <- <-]|[]]]]]];
      rewrite ?Hl in Hd; all_loads ls;
      try discriminate; injection Hd as <-; simpl; congruence.
  - intros text e Hs He. pose proof (load_unparsable ls key seed text e Hs He) as Hl.
    split; [exact Hl|]. rewrite loadData_steps.
    simpl in Hcell.
    destruct Hcell as [[= <- <- <-]|[[= <- <- <-]|[[= <- <- <-]|[[= <- <- <-]|
                      [[= <- <- <-]|[]]]]]];
      rewrite ?Hl; all_loads ls;
      try discriminate; eexists; eexists; split; reflexivity.
Qed.

End LoadFacts.

Lemma load_absent_or_unparsable_witness :
  (Ex.broken_storage !! Js.lit "teams" = None ->
   AppContext.load Ex.broken_storage "teams" AppContext.default_teams
   = Js.Return AppContext.default_teams /\
   forall st', AppContext.loadData Ex.broken_storage AppContext.initial = (Js.Return tt, st') ->
               AppContext.teams st' = AppContext.default_teams) /\
  (forall text e,
     Ex.broken_storage !! Js.lit "teams" = Some text -> Js.JSON_parse text = Js.Throw e ->
     AppContext.load Ex.broken_storage "teams" AppContext.default_teams = Js.Throw e /\
     exists e' st',
       AppContext.loadData Ex.broken_storage AppContext.initial = (Js.Throw e', st') /\
       AppContext.teams st' = AppContext.teams AppContext.initial).
Proof.
  apply (load_absent_or_unparsable Ex.broken_storage AppContext.initial
           "teams" AppContext.teams AppContext.default_teams).
  simpl. right. left. reflexivity.
Defined.

(** With nothing stored, every state is set to its seed. *)
Example loadData_empty_storage :
  AppContext.loadData ∅ AppContext.initial
  = (Js.Return tt,
     {| AppContext.events := AppContext.default_events;
        AppContext.teams := AppContext.default_teams;
        AppContext.judges := AppContext.default_judges;
        AppContext.categories := AppContext.default_categories;
        AppContext.evaluations := AppContext.default_evaluations |}).
Proof. vm_compute. reflexivity. Qed.

(* ===================================================================== *)
(** * JSON.parse on examples *)
(* ===================================================================== *)

Example parse_object :
  Js.JSON_parse Ex.invitation_body
  = Js.Return (Js.Object
      [ (Js.lit "judgeName", Js.Str (Js.lit "Ana"));
        (Js.lit "judgeEmail", Js.Str (Js.lit "a@x.com"));
        (Js.lit "eventName", Js.Str (Js.lit "HackX"));
        (Js.lit "accessToken", Js.Str (Js.lit "tok123"));
        (Js.lit "dashboardUrl", Js.Str (Js.lit "https://d.example/judge")) ]).
Proof. vm_compute. reflexivity. Qed.

Example parse_nested :
  Js.JSON_parse (Js.lit " [1, -2.5e1, true, null, [], {}] ")
  = Js.Return (Js.Array [ Js.Number 1; Js.Number (-25); Js.Bool true; Js.Null;
                          Js.Array []; Js.Object [] ]).
Proof. vm_compute. reflexivity. Qed.

Example parse_escapes :
  Js.JSON_parse (Js.dq ++ Js.lit "a\nA\/" ++ Js.dq)
  = Js.Return (Js.Str [97; 10; 65; 47]%N).
Proof. vm_compute. reflexivity. Qed.

Example parse_duplicate_key :
  Js.JSON_parse (Js.lit "{" ++ Js.dq ++ Js.lit "a" ++ Js.dq ++ Js.lit ":1," ++
                 Js.dq ++ Js.lit "a" ++ Js.dq ++ Js.lit ":2}")
  = Js.Return (Js.Object [ (Js.lit "a", Js.Number 2) ]).
Proof. vm_compute. reflexivity. Qed.

Example parse_rejects :
  Forall (fun text => Js.JSON_parse (Js.lit text) = Js.Throw Js.SyntaxError)
         [ ""; "{"; "[{"; "[1,]"; "{,}"; "[1 2]"; "01"; "1."; "-"; "1e"; ".5"; "tru";
           "nul"; "undefined"; "'a'"; "[1]]"; "{}{}" ].
Proof. repeat constructor. Qed.

Example falsy_values_take_the_seed :
  Forall (fun text => exists v, Js.JSON_parse (Js.lit text) = Js.Return v /\
                                Js.or_else v AppContext.default_teams
                                = AppContext.default_teams)
         [ "null"; "false"; "0"; "-0"; "0.0"; "1e-400" ].
Proof. repeat constructor; eexists; split; vm_compute; reflexivity. Qed.

Example empty_array_is_kept :
  exists v, Js.JSON_parse (Js.lit "[]") = Js.Return v /\
            Js.or_else v AppContext.default_teams = Js.Array [].
Proof. eexists. split; vm_compute; reflexivity. Qed.

(* ===================================================================== *)
(** * Integrity of the stored data *)
(* ===================================================================== *)

(** Take a successful statement apart: the statement's definition, the
    branch it took, and its successful steps.  What is left is the new
    state, or a successful [remove_doomed]. *)
Ltac open_statement H :=
  unfold insert_event, update_event, delete_event,
    insert_category, update_category, delete_category,
    insert_team, update_team, delete_team,
    insert_judge, update_judge, delete_judge,
    insert_judge_assignment, update_judge_assignment, delete_judge_assignment,
    insert_scoring_round_columns, insert_scoring_round, update_scoring_round,
    delete_scoring_round,
    insert_score, update_score, delete_score, submit_score, upsert_score,
    insert_normalized_score, update_normalized_score, delete_normalized_score,
    insert_final_result, update_final_result, delete_final_result,
    team_constraints, score_row_constraints, score_foreign_keys in H;
  repeat first
    [ progress ok_steps
    | match type of H with
      | (if ?c then _ else _) = Ok _ => destruct c eqn:?
      | match ?c with Some _ => _ | None => _ end = Ok _ => destruct c eqn:?
      end ].

Lemma ids_distinct_others {R} (id_of : R -> option uuid) (k : uuid) (l : list R) :
  ids_distinct id_of l -> ids_distinct id_of (others id_of k l).
Proof. apply ids_distinct_filter. Qed.

Lemma primary_keys_empty (ps : list uuid) : primary_keys (empty_db ps).
Proof. constructor; apply ids_distinct_nil. Qed.

Lemma remove_doomed_primary_keys d x d' :
  primary_keys d -> remove_doomed d x = Ok d' -> primary_keys d'.
Proof.
  intros [] H. unfold remove_doomed in H. ok_steps. subst d'.
  constructor; simpl; auto using ids_distinct_filter.
Qed.

Ltac keep_ids :=
  first
    [ assumption
    | apply ids_distinct_snoc; assumption
    | apply ids_distinct_replace_row; [reflexivity | assumption]
    | apply ids_distinct_others; assumption
    | eapply ids_distinct_replace_first; [eassumption | reflexivity | assumption] ].

Lemma exec_primary_keys d s d' :
  primary_keys d -> exec d s = Ok d' -> primary_keys d'.
Proof.
  intros Hpk H. destruct s; cbn [exec] in H; open_statement H;
    try (eapply remove_doomed_primary_keys; eassumption);
    subst; try assumption;
    destruct Hpk; constructor; simpl; keep_ids.
Qed.


(** ** References *)

Section RefsOk.
Context {R S : Type} (ref : R -> option uuid) (id_of : S -> option uuid).

Lemma refs_ok_snoc_child (rs : list R) (ss : list S) (r : R) :
  refs_ok ref id_of rs ss -> fk_ok id_of ss (ref r) = true ->
  refs_ok ref id_of (rs ++ [r]) ss.
Proof.
  intros H Hr x Hx. apply in_app_or in Hx. destruct Hx as [Hx|[<-|[]]]; auto.
Qed.

Lemma refs_ok_snoc_parent (rs : list R) (ss : list S) (s : S) :
  refs_ok ref id_of rs ss -> refs_ok ref id_of rs (ss ++ [s]).
Proof. intros H x Hx. apply fk_ok_snoc. auto. Qed.

Lemma refs_ok_replace_child (idr : R -> option uuid) (k : uuid) (r : R)
    (rs : list R) (ss : list S) :
  refs_ok ref id_of rs ss -> fk_ok id_of ss (ref r) = true ->
  refs_ok ref id_of (replace_row idr k r rs) ss.
Proof.
  intros H Hr x Hx. unfold replace_row in Hx. apply in_map_iff in Hx.
  destruct Hx as (y & <- & Hy). destruct (id_is k (idr y)); auto.
Qed.

Lemma refs_ok_replace_parent (k : uuid) (s : S) (rs : list R) (ss : list S) :
  id_of s = Some k -> refs_ok ref id_of rs ss ->
  refs_ok ref id_of rs (replace_row id_of k s ss).
Proof.
  intros Hs H x Hx. specialize (H x Hx).
  destruct (ref x) as [i|]; simpl in *; [|reflexivity].
  rewrite has_id_replace_row; assumption.
Qed.

Lemma refs_ok_filter_child (p : R -> bool) (rs : list R) (ss : list S) :
  refs_ok ref id_of rs ss -> refs_ok ref id_of (List.filter p rs) ss.
Proof. intros H x Hx. apply filter_In in Hx. apply H, Hx. Qed.

Lemma refs_ok_others_child (idr : R -> option uuid) (k : uuid) (rs : list R) (ss : list S) :
  refs_ok ref id_of rs ss -> refs_ok ref id_of (others idr k rs) ss.
Proof. apply refs_ok_filter_child. Qed.

Lemma refs_ok_replace_first_child (p : R -> bool) (r : R) (rs : list R) (ss : list S) :
  refs_ok ref id_of rs ss -> fk_ok id_of ss (ref r) = true ->
  refs_ok ref id_of (replace_first p r rs) ss.
Proof.
  intros H Hr. induction rs as [|y rs IH]; simpl; [intros x []|].
  assert (Hrs : refs_ok ref id_of rs ss) by (intros x Hx; apply H; right; exact Hx).
  destruct (p y).
  - intros x [<-|Hx]; [exact Hr | apply Hrs; exact Hx].
  - intros x [<-|Hx]; [apply H; left; reflexivity | apply (IH Hrs x Hx)].
Qed.

(** Removing referenced rows is safe when no remaining row references
    one of them. *)
Lemma refs_ok_remove (ks : list uuid) (p : R -> bool) (rs : list R) (ss : list S) :
  refs_ok ref id_of rs ss ->
  (forall r, In r rs -> p r = true -> in_ids (ref r) ks = false) ->
  refs_ok ref id_of (List.filter p rs)
          (List.filter (fun s => negb (in_ids (id_of s) ks)) ss).
Proof.
  intros H Hp x Hx. apply filter_In in Hx. destruct Hx as [Hx Hpx].
  specialize (H x Hx). specialize (Hp x Hx Hpx).
  destruct (ref x) as [i|]; simpl in *; [|reflexivity].
  apply has_id_true in H. destruct H as (s & Hs & Hi).
  apply has_id_true. exists s. split; [|exact Hi].
  apply filter_In. split; [exact Hs|]. rewrite Hi. simpl. rewrite Hp. reflexivity.
Qed.

End RefsOk.

Lemma referential_empty (ps : list uuid) : referential (empty_db ps).
Proof. constructor; intros r []. Qed.

Lemma negb_orb_parts (a b : bool) : negb (a || b) = true -> a = false /\ b = false.
Proof. destruct a, b; simpl; intros H; try discriminate; split; reflexivity. Qed.

Ltac split_orb :=
  repeat match goal with
  | H : negb (_ || _) = true |- _ => apply negb_orb_parts in H; destruct H
  | H : _ || _ = false |- _ => apply orb_false_iff in H; destruct H
  | H : negb _ = true |- _ => apply negb_true_iff in H
  end.

Lemma closed_contra (a b : bool) : (a = true -> b = true) -> negb b = true -> a = false.
Proof.
  destruct a, b; simpl; intros H1 H2; try reflexivity; try discriminate.
  discriminate (H1 eq_refl).
Qed.

Lemma remove_doomed_referential d x d' :
  referential d -> doomed_closed d x -> remove_doomed d x = Ok d' -> referential d'.
Proof.
  intros [] Hdc H. unfold remove_doomed in H. ok_steps. subst d'.
  rewrite forallb_forall in Hstep.
  constructor; simpl.
  - apply refs_ok_filter_child. assumption.
  - apply refs_ok_remove; [assumption|]. intros c Hc Hp.
    exact (closed_contra _ _ (dc_categories d x Hdc c Hc) Hp).
  - apply refs_ok_remove; [assumption|]. intros c Hc Hp.
    exact (closed_contra _ _ (dc_teams d x Hdc c Hc) Hp).
  - apply refs_ok_remove; [assumption|].
    intros t Ht Hp. apply negb_true_iff. apply Hstep. apply filter_In. split; assumption.
  - apply refs_ok_remove; [assumption|]. intros c Hc Hp.
    exact (closed_contra _ _ (dc_judges d x Hdc c Hc) Hp).
  - apply refs_ok_remove; [assumption|]. intros r Hr Hp. split_orb. assumption.
  - apply refs_ok_remove; [assumption|]. intros r Hr Hp. split_orb. assumption.
  - apply refs_ok_remove; [assumption|]. intros r Hr Hp. split_orb. assumption.
  - apply refs_ok_remove; [assumption|]. intros c Hc Hp.
    exact (closed_contra _ _ (dc_rounds d x Hdc c Hc) Hp).
  - apply refs_ok_remove; [assumption|]. intros r Hr Hp. split_orb. assumption.
  - apply refs_ok_remove; [assumption|]. intros r Hr Hp. split_orb. assumption.
  - apply refs_ok_remove; [assumption|]. intros r Hr Hp. split_orb. assumption.
  - apply refs_ok_remove; [assumption|]. intros r Hr Hp. split_orb. assumption.
  - apply refs_ok_remove; [assumption|]. intros r Hr Hp. split_orb. assumption.
  - apply refs_ok_remove; [assumption|]. intros r Hr Hp. split_orb. assumption.
  - apply refs_ok_remove; [assumption|]. intros r Hr Hp. split_orb. assumption.
  - apply refs_ok_remove; [assumption|]. intros r Hr Hp. split_orb. assumption.
  - apply refs_ok_remove; [assumption|]. intros r Hr Hp. split_orb. assumption.
Qed.

Lemma doomed_closed_no_event d (cs ts js rs : list uuid) :
  doomed_closed d {| d_events := []; d_categories := cs; d_teams := ts;
                     d_judges := js; d_rounds := rs |}.
Proof.
  constructor; simpl; intros r _ H; destruct (_ r) in H; discriminate.
Qed.

Lemma own_id_doomed {R} (id_of event_of : R -> option uuid) (l : list R) (k : uuid) (x : R) :
  ids_distinct id_of l -> In x l -> in_ids (event_of x) [k] = true ->
  in_ids (id_of x)
         (ids_of id_of (List.filter (fun y => in_ids (event_of y) [k]) l)) = true.
Proof.
  intros [Hnn _] Hx Hev. rewrite List.Forall_forall in Hnn. specialize (Hnn x Hx).
  destruct (id_of x) as [i|] eqn:Hi; [|congruence].
  apply in_ids_true. exists i. split; [reflexivity|].
  apply In_ids_of. exists x. split; [|exact Hi]. apply filter_In. split; assumption.
Qed.

Lemma doomed_by_event_closed d k :
  primary_keys d -> doomed_closed d (doomed_by_event d k).
Proof.
  intros []. constructor; simpl; intros x Hx Hev.
  - apply (own_id_doomed Categories.id Categories.event_id); assumption.
  - apply (own_id_doomed Teams.id Teams.event_id); assumption.
  - apply (own_id_doomed Judges.id Judges.event_id); assumption.
  - apply (own_id_doomed ScoringRounds.id ScoringRounds.event_id); assumption.
Qed.

Ltac keep_refs :=
  first
    [ assumption
    | apply refs_ok_snoc_parent; assumption
    | apply refs_ok_snoc_child; assumption
    | apply refs_ok_replace_parent; [reflexivity | assumption]
    | apply refs_ok_replace_child; assumption
    | apply refs_ok_others_child; assumption
    | apply refs_ok_replace_first_child; assumption ].

Lemma exec_referential d s d' :
  primary_keys d -> referential d -> exec d s = Ok d' -> referential d'.
Proof.
  intros Hpk Hri H. destruct s; cbn [exec] in H; open_statement H;
    try (eapply remove_doomed_referential; [eassumption | | eassumption];
         first [apply doomed_by_event_closed; assumption | apply doomed_closed_no_event]);
    subst; try assumption;
    destruct Hri; constructor; simpl; keep_refs.
Qed.

(** ** Unique keys *)

Section NoCollision.
Context {R : Type} (id_of : R -> option uuid) (collides : R -> R -> bool).
Hypothesis collides_symmetric : forall a b, collides a b = collides b a.

Lemma no_collision_filter (p : R -> bool) (l : list R) :
  no_collision collides l -> no_collision collides (List.filter p l).
Proof.
  unfold no_collision. induction 1 as [|x l Hx Hl IH]; simpl; [constructor|].
  destruct (p x); [|exact IH]. constructor; [|exact IH].
  rewrite List.Forall_forall in *. intros y Hy. apply filter_In in Hy. apply Hx, Hy.
Qed.

Lemma no_collision_snoc (l : list R) (r : R) :
  no_collision collides l -> negb (existsb (collides r) l) = true ->
  no_collision collides (l ++ [r]).
Proof.
  unfold no_collision. intros Hl Hr. apply negb_true_iff in Hr.
  assert (Hr' : forall x, In x l -> collides x r = false).
  { intros x Hx. rewrite collides_symmetric.
    destruct (collides r x) eqn:E; [|reflexivity].
    assert (existsb (collides r) l = true) by (apply existsb_exists; eauto).
    congruence. }
  clear Hr. induction Hl as [|x l Hx Hl IH]; simpl.
  - constructor; constructor.
  - constructor.
    + apply Forall_app. split; [exact Hx|]. constructor; [|constructor].
      apply Hr'. left. reflexivity.
    + apply IH. intros y Hy. apply Hr'. right. exact Hy.
Qed.

Lemma no_collision_replace_row (k : uuid) (r r' : R) (l : list R) :
  (forall x, collides r' x = collides r x) ->
  ids_distinct id_of l -> no_collision collides l ->
  negb (existsb (collides r) (others id_of k l)) = true ->
  no_collision collides (replace_row id_of k r' l).
Proof.
  unfold no_collision. intros Hsame Hid Hl Hr. apply negb_true_iff in Hr.
  assert (Hr' : forall x, In x (others id_of k l) -> collides r' x = false).
  { intros x Hx. rewrite Hsame.
    destruct (collides r x) eqn:E; [|reflexivity].
    assert (existsb (collides r) (others id_of k l) = true)
      by (apply existsb_exists; eauto).
    congruence. }
  clear Hr. induction Hl as [|x l Hx Hl IH]; simpl; [constructor|].
  assert (Hid' : ids_distinct id_of l).
  { destruct Hid as [H1 H2]. inversion H1; inversion H2; subst. split; assumption. }
  destruct (id_is k (id_of x)) eqn:E.
  - apply id_is_true in E.
    assert (Hno : has_id id_of l k = false).
    { apply has_id_false. intros y Hy Hk. destruct Hid as [_ Hnd].
      inversion Hnd as [|? ? Hnin _]; subst. apply Hnin.
      apply list_elem_of_In, in_map_iff. exists y. split; [congruence | exact Hy]. }
    fold (replace_row id_of k r' l). rewrite (replace_row_none _ _ _ _ Hno).
    constructor; [|exact Hl].
    rewrite List.Forall_forall. intros y Hy. apply Hr'.
    unfold others. simpl.
    assert (Hk : id_is k (id_of x) = true) by (apply id_is_true; exact E).
    rewrite Hk. simpl. fold (others id_of k l). rewrite (others_all _ _ _ Hno). exact Hy.
  - assert (Hin : In x (others id_of k (x :: l))).
    { unfold others. simpl. rewrite E. left. reflexivity. }
    constructor.
    + rewrite List.Forall_forall in *. intros y Hy.
      fold (replace_row id_of k r' l) in Hy. unfold replace_row in Hy.
      apply in_map_iff in Hy. destruct Hy as (z & <- & Hz).
      destruct (id_is k (id_of z)); [|auto].
      rewrite collides_symmetric. apply Hr'. exact Hin.
    + apply IH; [exact Hid'|]. intros y Hy. apply Hr'.
      unfold others in *. simpl. rewrite E. right. exact Hy.
Qed.

(** Two rows of the table are the same row or do not collide. *)
Lemma no_collision_In (l : list R) (x y : R) :
  no_collision collides l -> In x l -> In y l -> x = y \/ collides x y = false.
Proof.
  unfold no_collision. induction 1 as [|z l Hz Hl IH]; simpl; [intros []|].
  rewrite List.Forall_forall in Hz.
  intros [->|Hx] [->|Hy]; auto.
  right. rewrite collides_symmetric. auto.
Qed.

End NoCollision.

Lemma is_true_eq_uuid_sym (a b : option uuid) :
  is_true (sql_eq_uuid a b) = is_true (sql_eq_uuid b a).
Proof. destruct a, b; simpl; try reflexivity. rewrite N.eqb_sym. reflexivity. Qed.

Lemma is_true_eq_text_sym (a b : option text) :
  is_true (sql_eq_text a b) = is_true (sql_eq_text b a).
Proof. destruct a, b; simpl; try reflexivity. rewrite String.eqb_sym. reflexivity. Qed.

Lemma is_true_eq_int_sym (a b : option Z) :
  is_true (sql_eq_int a b) = is_true (sql_eq_int b a).
Proof. destruct a, b; simpl; try reflexivity. rewrite Z.eqb_sym. reflexivity. Qed.

Lemma judges_key_sym a b : judges_key_collides a b = judges_key_collides b a.
Proof. apply is_true_eq_text_sym. Qed.

Lemma judge_assignments_key_sym a b :
  judge_assignments_key_collides a b = judge_assignments_key_collides b a.
Proof.
  unfold judge_assignments_key_collides.
  rewrite (is_true_eq_uuid_sym (JudgeAssignments.judge_id a)),
    (is_true_eq_uuid_sym (JudgeAssignments.team_id a)),
    (is_true_eq_int_sym (JudgeAssignments.round_number a)). reflexivity.
Qed.

Lemma scoring_rounds_key_sym a b :
  scoring_rounds_key_collides a b = scoring_rounds_key_collides b a.
Proof.
  unfold scoring_rounds_key_collides.
  rewrite (is_true_eq_uuid_sym (ScoringRounds.event_id a)),
    (is_true_eq_int_sym (ScoringRounds.round_number a)). reflexivity.
Qed.

Lemma normalized_scores_key_sym a b :
  normalized_scores_key_collides a b = normalized_scores_key_collides b a.
Proof.
  unfold normalized_scores_key_collides.
  rewrite (is_true_eq_uuid_sym (NormalizedScores.judge_id a)),
    (is_true_eq_uuid_sym (NormalizedScores.team_id a)),
    (is_true_eq_uuid_sym (NormalizedScores.round_id a)). reflexivity.
Qed.

Lemma final_results_key_sym a b :
  final_results_key_collides a b = final_results_key_collides b a.
Proof.
  unfold final_results_key_collides.
  rewrite (is_true_eq_uuid_sym (FinalResults.event_id a)),
    (is_true_eq_uuid_sym (FinalResults.team_id a)). reflexivity.
Qed.

Lemma unique_keys_empty (ps : list uuid) : unique_keys (empty_db ps).
Proof. constructor; constructor. Qed.

Lemma remove_doomed_unique_keys d x d' :
  unique_keys d -> remove_doomed d x = Ok d' -> unique_keys d'.
Proof.
  intros [] H. unfold remove_doomed in H. ok_steps. subst d'.
  constructor; simpl; apply no_collision_filter; assumption.
Qed.

Ltac keep_unique :=
  first
    [ assumption
    | apply no_collision_filter; assumption
    | apply no_collision_snoc;
        [ first [ apply judges_key_sym | apply judge_assignments_key_sym
                | apply scoring_rounds_key_sym | apply normalized_scores_key_sym
                | apply final_results_key_sym ]
        | assumption | assumption ]
    | eapply no_collision_replace_row;
        [ first [ apply judges_key_sym | apply judge_assignments_key_sym
                | apply scoring_rounds_key_sym | apply normalized_scores_key_sym
                | apply final_results_key_sym ]
        | intros ?; reflexivity | eassumption | assumption | eassumption ] ].

Lemma exec_unique_keys d s d' :
  primary_keys d -> unique_keys d -> exec d s = Ok d' -> unique_keys d'.
Proof.
  intros Hpk Huq H. destruct s; cbn [exec] in H; open_statement H;
    try (eapply remove_doomed_unique_keys; eassumption);
    subst; try assumption;
    destruct Hpk, Huq; constructor; simpl; keep_unique.
Qed.

(** ** Column constraints *)

Section ForallRows.
Context {R : Type} (P : R -> Prop).

Lemma Forall_snoc_row (l : list R) (r : R) : Forall P l -> P r -> Forall P (l ++ [r]).
Proof. intros Hl Hr. apply Forall_app. split; [exact Hl | constructor; [exact Hr | constructor]]. Qed.

Lemma Forall_replace_row (id_of : R -> option uuid) (k : uuid) (r : R) (l : list R) :
  Forall P l -> P r -> Forall P (replace_row id_of k r l).
Proof.
  intros Hl Hr. rewrite List.Forall_forall in *. intros x Hx.
  unfold replace_row in Hx. apply in_map_iff in Hx. destruct Hx as (y & <- & Hy).
  destruct (id_is k (id_of y)); auto.
Qed.

Lemma Forall_filter_rows (p : R -> bool) (l : list R) :
  Forall P l -> Forall P (List.filter p l).
Proof.
  intros Hl. rewrite List.Forall_forall in *. intros x Hx. apply filter_In in Hx.
  apply Hl, Hx.
Qed.

Lemma Forall_replace_first (p : R -> bool) (r : R) (l : list R) :
  Forall P l -> P r -> Forall P (replace_first p r l).
Proof.
  intros Hl Hr. induction Hl as [|x l Hx Hl IH]; simpl; [constructor|].
  destruct (p x); constructor; auto.
Qed.

End ForallRows.

Lemma score_constraints_ok (r : Scores.row) :
  r.(Scores.criterion_name) <> None -> r.(Scores.score) <> None ->
  check_passes (scores_score_check r) = true -> score_columns_ok r.
Proof.
  intros Hc Hs Hk. split; [exact Hc|].
  destruct (Scores.score r) as [v|] eqn:E; [|congruence].
  exists v. split; [reflexivity|]. apply (score_check_within r v E). exact Hk.
Qed.

Lemma columns_ok_empty (ps : list uuid) : columns_ok (empty_db ps).
Proof. constructor; constructor. Qed.

Lemma remove_doomed_columns_ok d x d' :
  columns_ok d -> remove_doomed d x = Ok d' -> columns_ok d'.
Proof.
  intros [] H. unfold remove_doomed in H. ok_steps. subst d'.
  constructor; simpl; apply Forall_filter_rows; assumption.
Qed.

Ltac row_ok :=
  first
    [ assumption
    | split; assumption
    | split; [assumption | split; assumption]
    | apply score_constraints_ok; assumption ].

Ltac keep_columns :=
  first
    [ assumption
    | apply Forall_snoc_row; [assumption | row_ok]
    | apply Forall_replace_row; [assumption | row_ok]
    | apply Forall_filter_rows; assumption
    | apply Forall_replace_first; [assumption | row_ok] ].

Lemma exec_columns_ok d s d' :
  columns_ok d -> exec d s = Ok d' -> columns_ok d'.
Proof.
  intros Hco H. destruct s; cbn [exec] in H; open_statement H;
    try (eapply remove_doomed_columns_ok; eassumption);
    subst; try assumption;
    destruct Hco; constructor; simpl; keep_columns.
Qed.

(** The four invariants hold in every reachable state. *)
Lemma reachable_integrity d :
  reachable d -> primary_keys d /\ referential d /\ unique_keys d /\ columns_ok d.
Proof.
  induction 1 as [ps|d d' s _ (Hpk & Hri & Huq & Hco) H].
  - split; [apply primary_keys_empty|]. split; [apply referential_empty|].
    split; [apply unique_keys_empty | apply columns_ok_empty].
  - split; [eapply exec_primary_keys; eassumption|].
    split; [eapply exec_referential; eassumption|].
    split; [eapply exec_unique_keys; eassumption | eapply exec_columns_ok; eassumption].
Qed.

Lemma one_event_reachable : reachable (Ex.state_after Ex.one_event).
Proof.
  apply (run_reachable (empty_db []) Ex.one_event); [apply reachable_migrated | reflexivity].
Qed.

Lemma festival_reachable : reachable Fx.festival_db.
Proof.
  apply (run_reachable Fx.with_users Fx.festival); [apply reachable_migrated|].
  vm_compute. reflexivity.
Qed.

(* ===================================================================== *)
(** * One score per key: submissions *)
(* ===================================================================== *)

(** With the unique key in force, the row a submission collides with is
    the row stored for its tuple. *)
Lemma find_stored_row (l : list Scores.row) (row old : Scores.row) :
  keys_distinct l -> In old l -> scores_key_collides row old = true ->
  List.find (scores_key_collides row) l = Some old.
Proof.
  intros Hl Hold Hc.
  destruct (List.find (scores_key_collides row) l) as [y|] eqn:Ef.
  - apply List.find_some in Ef. destruct Ef as [Hy Hcy].
    destruct (no_collision_In scores_key_collides collides_sym l y old Hl Hy Hold)
      as [->|E]; [reflexivity|].
    assert (scores_key_collides y old = true) by (eapply collides_trans; eauto).
    congruence.
  - eapply List.find_none in Ef; [|exact Hold]. congruence.
Qed.

(** A row that passes the column constraints of [scores]. *)
Lemma score_row_constraints_pass (row : Scores.row) (c : text) (v : numeric) :
  row.(Scores.id) <> None -> row.(Scores.criterion_name) = Some c ->
  row.(Scores.score) = Some v -> within_0_10 v ->
  score_row_constraints row = Ok tt.
Proof.
  intros Hi Hc Hs Hv. unfold score_row_constraints, not_null.
  apply (score_check_within row v Hs) in Hv.
  destruct (Scores.id row); [|congruence]. rewrite Hc, Hs. simpl.
  rewrite Hv. reflexivity.
Qed.

(** C2, amended.  In every reachable state there is at most one row of
    [scores] for a tuple (judge_id, team_id, round_id, criterion_name)
    none of whose columns is NULL; a submission for such a tuple that
    succeeds leaves exactly one row for it, which carries the submitted
    values, and when a row for the tuple existed the table has as many
    rows as before.  A second submission is accepted: when a row for the
    tuple is stored, a submission for the tuple with an id, a score from
    0 to 10 and a category that is NULL or exists succeeds, and the one
    row for the tuple afterwards is the submitted row under the id of
    the stored one: the last write wins. *)
Theorem scores_one_row_per_key (d : db) (j t r : uuid) (c : text) :
  reachable d ->
  (length (rows_with (Some j, Some t, Some r, Some c) d.(scores)) <= 1)%nat /\
  (forall (row : Scores.row) (d' : db),
     tuple_of row = (Some j, Some t, Some r, Some c) ->
     submit_score d row = Ok d' ->
     (exists i, rows_with (Some j, Some t, Some r, Some c) d'.(scores)
                = [score_with_id i row]) /\
     (rows_with (Some j, Some t, Some r, Some c) d.(scores) <> [] ->
      length d'.(scores) = length d.(scores))) /\
  (forall (row old : Scores.row) (v : numeric),
     In old d.(scores) ->
     tuple_of old = (Some j, Some t, Some r, Some c) ->
     tuple_of row = (Some j, Some t, Some r, Some c) ->
     row.(Scores.id) <> None ->
     row.(Scores.score) = Some v -> within_0_10 v ->
     fk_ok Categories.id d.(categories) row.(Scores.category_id) = true ->
     exists d',
       submit_score d row = Ok d' /\
       rows_with (Some j, Some t, Some r, Some c) d'.(scores)
       = [score_with_id old.(Scores.id) row] /\
       map Scores.score (rows_with (Some j, Some t, Some r, Some c) d'.(scores))
       = [Some v] /\
       length d'.(scores) = length d.(scores)).
Proof.
  intros Hd.
  assert (Hsub : forall (row : Scores.row) (d' : db),
             tuple_of row = (Some j, Some t, Some r, Some c) ->
             submit_score d row = Ok d' ->
             (exists i, rows_with (Some j, Some t, Some r, Some c) d'.(scores)
                        = [score_with_id i row]) /\
             (rows_with (Some j, Some t, Some r, Some c) d.(scores) <> [] ->
              length d'.(scores) = length d.(scores))).
  { intros row d' Ht H.
    assert (Hd' : reachable d') by (eapply (reachable_exec d d' (SubmitScore row)); eauto).
    pose proof (keys_distinct_rows_with _ j t r c
                  (wk_score_keys _ (reachable_well_keyed _ Hd'))) as Hone.
    unfold submit_score, upsert_score in H. ok_steps.
    destruct (List.find (scores_key_collides row) (scores d)) as [old|] eqn:Ef.
    + ok_steps. subst d'. simpl in *. split.
      * exists (Scores.id old). apply at_most_one_is; [exact Hone|].
        apply rows_with_In. split; [|rewrite tuple_of_score_with_id; exact Ht].
        eapply replace_first_In; eauto.
      * intros _. apply length_replace_first.
    + ok_steps. subst d'. simpl in *. split.
      * exists (Scores.id row). apply at_most_one_is; [exact Hone|].
        apply rows_with_In. rewrite score_with_own_id. split; [|exact Ht].
        apply in_or_app. right. left. reflexivity.
      * intros Hne. exfalso. apply Hne.
        destruct (rows_with _ (scores d)) as [|x l] eqn:E; [reflexivity|].
        assert (Hx : In x (rows_with (Some j, Some t, Some r, Some c) (scores d)))
          by (rewrite E; left; reflexivity).
        apply rows_with_In in Hx. destruct Hx as [Hx Hxt].
        eapply find_none in Ef; [|exact Hx].
        assert (scores_key_collides row x = true) by (apply collides_iff; eauto 10).
        congruence. }
  split; [|split; [exact Hsub|]].
  - apply keys_distinct_rows_with. apply reachable_well_keyed, Hd.
  - intros row old v Hold Hto Ht Hid Hs Hv Hcat.
    pose proof (reachable_integrity d Hd) as (_ & Hri & _ & _).
    pose proof (wk_score_keys _ (reachable_well_keyed _ Hd)) as Hkeys.
    assert (Hc : scores_key_collides row old = true)
      by (apply collides_iff; exists j, t, r, c; split; assumption).
    assert (Hrow : Scores.judge_id row = Scores.judge_id old /\
                   Scores.team_id row = Scores.team_id old /\
                   Scores.round_id row = Scores.round_id old /\
                   Scores.criterion_name row = Some c).
    { unfold tuple_of in Ht, Hto. injection Ht as H1 H2 H3 H4.
      injection Hto as H5 H6 H7 H8. repeat split; congruence. }
    destruct Hrow as (Hj & Htm & Hr & Hcn).
    assert (Hfk : score_foreign_keys d (score_with_id (Scores.id old) row) = Ok tt).
    { unfold score_foreign_keys. cbn [score_with_id Scores.judge_id Scores.team_id
        Scores.category_id Scores.round_id].
      rewrite Hj, Htm, Hr, Hcat.
      rewrite (ri_scores_judge d Hri old Hold), (ri_scores_team d Hri old Hold),
        (ri_scores_round d Hri old Hold).
      reflexivity. }
    assert (Hok : submit_score d row
                  = Ok (with_scores d (replace_first (scores_key_collides row)
                                         (score_with_id (Scores.id old) row) (scores d)))).
    { unfold submit_score, upsert_score.
      rewrite (score_row_constraints_pass row c v Hid Hcn Hs Hv).
      cbn [mbind result_bind bind].
      rewrite (find_stored_row _ row old Hkeys Hold Hc). cbn zeta.
      rewrite Hfk. reflexivity. }
    eexists. split; [exact Hok|].
    destruct (Hsub row _ Ht Hok) as ((i & Hrows) & Hlen).
    assert (Hin : In (score_with_id (Scores.id old) row)
                    (rows_with (Some j, Some t, Some r, Some c)
                       (scores (with_scores d
                          (replace_first (scores_key_collides row)
                             (score_with_id (Scores.id old) row) (scores d)))))).
    { apply rows_with_In. split; [|rewrite tuple_of_score_with_id; exact Ht].
      simpl. eapply replace_first_In.
      exact (find_stored_row _ row old Hkeys Hold Hc). }
    rewrite Hrows in Hin |- *. destruct Hin as [Hin|[]]. rewrite Hin.
    split; [reflexivity|]. split; [simpl; rewrite Hs; reflexivity|].
    simpl. apply length_replace_first.
Qed.

Lemma scores_one_row_per_key_witness :
  (length (rows_with (Some 30%N, Some 20%N, Some 40%N, Some "design")
             (Ex.state_after Ex.one_event).(scores)) <= 1)%nat /\
  exists d',
    submit_score (Ex.state_after Ex.one_event) Ex.design_again = Ok d' /\
    rows_with (Some 30%N, Some 20%N, Some 40%N, Some "design") d'.(scores)
    = [score_with_id (Some 50%N) Ex.design_again] /\
    map Scores.score (rows_with (Some 30%N, Some 20%N, Some 40%N, Some "design") d'.(scores))
    = [Some (numeric_of_Z 9)] /\
    length d'.(scores) = length (Ex.state_after Ex.one_event).(scores).
Proof.
  destruct (scores_one_row_per_key (Ex.state_after Ex.one_event) 30%N 20%N 40%N "design"
              one_event_reachable) as (Hone & _ & Hagain).
  split; [exact Hone|].
  apply (Hagain Ex.design_again Fx.design_score (numeric_of_Z 9)).
  - vm_compute. auto.
  - reflexivity.
  - reflexivity.
  - discriminate.
  - reflexivity.
  - unfold within_0_10, numeric_of_Z, Qle. simpl. lia.
  - reflexivity.
Defined.

(** X1.  In every reachable state every foreign-key column of every table
    is NULL or the id of a row of the table it references: no statement,
    the cascading deletes included, leaves a dangling reference. *)
Theorem reachable_referential (d : db) : reachable d -> referential d.
Proof. intros H. apply reachable_integrity, H. Qed.

Lemma reachable_referential_witness : referential (Ex.state_after Ex.one_event).
Proof. apply (reachable_referential (Ex.state_after Ex.one_event)), one_event_reachable. Defined.

(** X2.  In every reachable state every row of each of the nine tables
    has an id, and no two rows of a table share one. *)
Theorem reachable_primary_keys (d : db) : reachable d -> primary_keys d.
Proof. intros H. apply reachable_integrity, H. Qed.

Lemma reachable_primary_keys_witness : primary_keys (Ex.state_after Ex.one_event).
Proof. apply (reachable_primary_keys (Ex.state_after Ex.one_event)), one_event_reachable. Defined.

(** X3.  In every reachable state every judge has an access token, and a
    token belongs to one judge only: two rows of [judges] with the same
    token are the same row. *)
Theorem access_token_identifies_judge (d : db) (j1 j2 : Judges.row) :
  reachable d -> In j1 d.(judges) -> In j2 d.(judges) ->
  j1.(Judges.access_token) <> None /\
  (j1.(Judges.access_token) = j2.(Judges.access_token) -> j1 = j2).
Proof.
  intros Hd H1 H2. apply reachable_integrity in Hd. destruct Hd as (_ & _ & Huq & Hco).
  pose proof (co_judges d Hco) as Hj. rewrite List.Forall_forall in Hj.
  destruct (Hj j1 H1) as (_ & _ & Ht). split; [exact Ht|]. intros E.
  destruct (no_collision_In judges_key_collides judges_key_sym _ j1 j2
              (uq_judges d Huq) H1 H2) as [->|Hc]; [reflexivity|].
  unfold judges_key_collides in Hc. rewrite <- E in Hc.
  destruct (Judges.access_token j1) as [t|]; [|congruence].
  simpl in Hc. rewrite String.eqb_refl in Hc. discriminate.
Qed.

Lemma access_token_identifies_judge_witness :
  Judges.access_token Fx.ana <> None /\
  (Judges.access_token Fx.ana = Judges.access_token Fx.ben -> Fx.ana = Fx.ben).
Proof.
  apply (access_token_identifies_judge Fx.festival_db Fx.ana Fx.ben festival_reachable).
  - vm_compute. auto.
  - vm_compute. auto.
Defined.

(** X4.  In every reachable state an event has at most one scoring round
    with a given number: two rows of [scoring_rounds] with the same event
    and the same round number are the same row. *)
Theorem one_round_per_number (d : db) (r1 r2 : ScoringRounds.row) (e : uuid) :
  reachable d -> In r1 d.(scoring_rounds) -> In r2 d.(scoring_rounds) ->
  r1.(ScoringRounds.event_id) = Some e -> r2.(ScoringRounds.event_id) = Some e ->
  r1.(ScoringRounds.round_number) = r2.(ScoringRounds.round_number) ->
  r1 = r2.
Proof.
  intros Hd H1 H2 E1 E2 En. apply reachable_integrity in Hd.
  destruct Hd as (_ & _ & Huq & Hco).
  pose proof (co_scoring_rounds d Hco) as Hr. rewrite List.Forall_forall in Hr.
  destruct (Hr r1 H1) as (Hn & _).
  destruct (no_collision_In scoring_rounds_key_collides scoring_rounds_key_sym _ r1 r2
              (uq_scoring_rounds d Huq) H1 H2) as [->|Hc]; [reflexivity|].
  unfold scoring_rounds_key_collides in Hc. rewrite E1, E2, <- En in Hc.
  destruct (ScoringRounds.round_number r1) as [n|]; [|congruence].
  simpl in Hc. rewrite N.eqb_refl, Z.eqb_refl in Hc. discriminate.
Qed.

Lemma one_round_per_number_witness : Sample.first_round = Sample.first_round.
Proof.
  apply (one_round_per_number Fx.festival_db Sample.first_round Sample.first_round 1%N
           festival_reachable).
  - vm_compute. auto.
  - vm_compute. auto.
  - reflexivity.
  - reflexivity.
  - reflexivity.
Defined.

(** X5.  In every reachable state the derived tables hold one row per
    key: one final result per event and team, one normalized score per
    judge, team and round, and one assignment per judge, team and round
    number, wherever no column of the key is NULL. *)
Theorem derived_rows_unique (d : db) :
  reachable d ->
  (forall f1 f2 e t,
     In f1 d.(final_results) -> In f2 d.(final_results) ->
     f1.(FinalResults.event_id) = Some e -> f2.(FinalResults.event_id) = Some e ->
     f1.(FinalResults.team_id) = Some t -> f2.(FinalResults.team_id) = Some t ->
     f1 = f2) /\
  (forall n1 n2 j t r,
     In n1 d.(normalized_scores) -> In n2 d.(normalized_scores) ->
     n1.(NormalizedScores.judge_id) = Some j -> n2.(NormalizedScores.judge_id) = Some j ->
     n1.(NormalizedScores.team_id) = Some t -> n2.(NormalizedScores.team_id) = Some t ->
     n1.(NormalizedScores.round_id) = Some r -> n2.(NormalizedScores.round_id) = Some r ->
     n1 = n2) /\
  (forall a1 a2 j t n,
     In a1 d.(judge_assignments) -> In a2 d.(judge_assignments) ->
     a1.(JudgeAssignments.judge_id) = Some j -> a2.(JudgeAssignments.judge_id) = Some j ->
     a1.(JudgeAssignments.team_id) = Some t -> a2.(JudgeAssignments.team_id) = Some t ->
     a1.(JudgeAssignments.round_number) = Some n ->
     a2.(JudgeAssignments.round_number) = Some n ->
     a1 = a2).
Proof.
  intros Hd. apply reachable_integrity in Hd. destruct Hd as (_ & _ & Huq & _).
  split; [|split].
  - intros f1 f2 e t H1 H2 E1 E2 T1 T2.
    destruct (no_collision_In final_results_key_collides final_results_key_sym _ f1 f2
                (uq_final_results d Huq) H1 H2) as [->|Hc]; [reflexivity|].
    unfold final_results_key_collides in Hc. rewrite E1, E2, T1, T2 in Hc.
    simpl in Hc. rewrite !N.eqb_refl in Hc. discriminate.
  - intros n1 n2 j t r H1 H2 J1 J2 T1 T2 R1 R2.
    destruct (no_collision_In normalized_scores_key_collides normalized_scores_key_sym
                _ n1 n2 (uq_normalized_scores d Huq) H1 H2) as [->|Hc]; [reflexivity|].
    unfold normalized_scores_key_collides in Hc. rewrite J1, J2, T1, T2, R1, R2 in Hc.
    simpl in Hc. rewrite !N.eqb_refl in Hc. discriminate.
  - intros a1 a2 j t n H1 H2 J1 J2 T1 T2 N1 N2.
    destruct (no_collision_In judge_assignments_key_collides judge_assignments_key_sym
                _ a1 a2 (uq_judge_assignments d Huq) H1 H2) as [->|Hc]; [reflexivity|].
    unfold judge_assignments_key_collides in Hc. rewrite J1, J2, T1, T2, N1, N2 in Hc.
    simpl in Hc. rewrite !N.eqb_refl, Z.eqb_refl in Hc. discriminate.
Qed.

Lemma derived_rows_unique_witness :
  (forall f1 f2 e t,
     In f1 Fx.festival_db.(final_results) -> In f2 Fx.festival_db.(final_results) ->
     f1.(FinalResults.event_id) = Some e -> f2.(FinalResults.event_id) = Some e ->
     f1.(FinalResults.team_id) = Some t -> f2.(FinalResults.team_id) = Some t ->
     f1 = f2) /\
  (forall n1 n2 j t r,
     In n1 Fx.festival_db.(normalized_scores) -> In n2 Fx.festival_db.(normalized_scores) ->
     n1.(NormalizedScores.judge_id) = Some j -> n2.(NormalizedScores.judge_id) = Some j ->
     n1.(NormalizedScores.team_id) = Some t -> n2.(NormalizedScores.team_id) = Some t ->
     n1.(NormalizedScores.round_id) = Some r -> n2.(NormalizedScores.round_id) = Some r ->
     n1 = n2) /\
  (forall a1 a2 j t n,
     In a1 Fx.festival_db.(judge_assignments) -> In a2 Fx.festival_db.(judge_assignments) ->
     a1.(JudgeAssignments.judge_id) = Some j -> a2.(JudgeAssignments.judge_id) = Some j ->
     a1.(JudgeAssignments.team_id) = Some t -> a2.(JudgeAssignments.team_id) = Some t ->
     a1.(JudgeAssignments.round_number) = Some n ->
     a2.(JudgeAssignments.round_number) = Some n ->
     a1 = a2).
Proof. apply (derived_rows_unique Fx.festival_db), festival_reachable. Defined.

(** X6.  In every reachable state every stored row satisfies the NOT NULL
    and CHECK clauses of its table; in particular every stored score has
    a criterion name and a value in the closed interval from 0 to 10,
    whether it came from an INSERT, an UPDATE or a submission. *)
Theorem reachable_columns_ok (d : db) : reachable d -> columns_ok d.
Proof. intros H. apply reachable_integrity, H. Qed.

Lemma reachable_columns_ok_witness : columns_ok Fx.festival_db.
Proof. apply (reachable_columns_ok Fx.festival_db), festival_reachable. Defined.

(* ===================================================================== *)
(** * What a DELETE removes *)
(* ===================================================================== *)

Lemma in_ids_none (ref : option uuid) : in_ids ref [] = false.
Proof. destruct ref; reflexivity. Qed.

Lemma in_ids_one (ref : option uuid) (k : uuid) : in_ids ref [k] = id_is k ref.
Proof.
  destruct ref as [x|]; [|reflexivity]. unfold id_is. simpl.
  destruct (N.eqb x k); reflexivity.
Qed.

Lemma filter_same {A} (p : A -> bool) (l : list A) :
  (forall x, p x = true) -> List.filter p l = l.
Proof. intros H. apply forallb_filter_id, forallb_forall. intros x _. apply H. Qed.

Lemma filter_as_others {A} (p : A -> bool) (ref : A -> option uuid) (k : uuid) (l : list A) :
  (forall x, p x = negb (id_is k (ref x))) -> List.filter p l = others ref k l.
Proof. intros H. unfold others. apply filter_ext. exact H. Qed.

Lemma forallb_not_referring {A} (ref : A -> option uuid) (k : uuid) (l : list A) :
  forallb (fun x => negb (in_ids (ref x) [k])) l
  = negb (existsb (fun x => id_is k (ref x)) l).
Proof.
  induction l as [|x l IH]; [reflexivity|].
  cbn [forallb existsb]. rewrite IH, in_ids_one.
  destruct (id_is k (ref x)); reflexivity.
Qed.

(** The filters of [remove_doomed] when one key of one table is doomed. *)
Ltac one_key :=
  intros; rewrite ?in_ids_none, ?in_ids_one, ?orb_false_r; reflexivity.

Ltac doomed_fields :=
  f_equal; f_equal;
  first [ reflexivity | apply filter_same; one_key | apply filter_as_others; one_key ].

Lemma remove_doomed_category (d : db) (k : uuid) :
  remove_doomed d {| d_events := []; d_categories := [k]; d_teams := [];
                     d_judges := []; d_rounds := [] |}
  = if category_in_use d k then Err (foreign_key_violation "teams_category_id_fkey")
    else Ok (without_category d k).
Proof.
  unfold remove_doomed, category_in_use. simpl.
  rewrite (filter_same _ (teams d)) by one_key.
  rewrite forallb_not_referring.
  destruct (existsb _ (teams d)); simpl; [reflexivity|].
  unfold without_category. doomed_fields.
Qed.

(** X7.  A category under which a team is filed cannot be deleted: the
    DELETE is rejected by the foreign key of [teams.category_id].  Any
    other category goes with the assignments and scores that reference
    it, and nothing else changes; a DELETE of a category that does not
    exist changes nothing. *)
Theorem delete_category_guarded (d : db) (k : uuid) :
  delete_category d k
  = if has_id Categories.id d.(categories) k then
      if category_in_use d k then Err (foreign_key_violation "teams_category_id_fkey")
      else Ok (without_category d k)
    else Ok d.
Proof.
  unfold delete_category. destruct (has_id Categories.id (categories d) k);
    [apply remove_doomed_category | reflexivity].
Qed.

(** X8.  Deleting a judge, a team or a scoring round always succeeds: the
    row goes with every row that references it (assignments, scores and
    normalized scores; for a team also its final results), each of these
    foreign keys being ON DELETE CASCADE, and all other rows stay. *)
Theorem delete_cascades_on (d : db) (k : uuid) :
  delete_judge d k
  = Ok (if has_id Judges.id d.(judges) k then without_judge d k else d) /\
  delete_team d k
  = Ok (if has_id Teams.id d.(teams) k then without_team d k else d) /\
  delete_scoring_round d k
  = Ok (if has_id ScoringRounds.id d.(scoring_rounds) k then without_round d k else d).
Proof.
  unfold delete_judge, delete_team, delete_scoring_round, remove_doomed.
  split; [|split].
  - destruct (has_id Judges.id (judges d) k); [|reflexivity]. simpl.
    rewrite (filter_same _ (teams d)) by one_key.
    rewrite (proj2 (forallb_forall _ _)) by one_key. simpl.
    unfold without_judge. doomed_fields.
  - destruct (has_id Teams.id (teams d) k); [|reflexivity]. simpl.
    rewrite (proj2 (forallb_forall _ _)) by one_key. simpl.
    unfold without_team. doomed_fields.
  - destruct (has_id ScoringRounds.id (scoring_rounds d) k); [|reflexivity]. simpl.
    rewrite (filter_same _ (teams d)) by one_key.
    rewrite (proj2 (forallb_forall _ _)) by one_key. simpl.
    unfold without_round. doomed_fields.
Qed.

(* ===================================================================== *)
(** * Statements that undo or repeat each other *)
(* ===================================================================== *)

Lemma others_snoc {R} (id_of : R -> option uuid) (l : list R) (r : R) (k : uuid) :
  has_id id_of l k = false -> id_of r = Some k -> others id_of k (l ++ [r]) = l.
Proof.
  intros Hl Hr. unfold others. rewrite List.filter_app. fold (others id_of k l).
  rewrite (others_all _ _ _ Hl). simpl.
  assert (H : id_is k (id_of r) = true) by (apply id_is_true; exact Hr).
  rewrite H. simpl. apply app_nil_r.
Qed.

Lemma pkey_ok_fresh {R} (id_of : R -> option uuid) (l : list R) (k : uuid) :
  pkey_ok id_of l (Some k) = true -> has_id id_of l k = false.
Proof. simpl. apply negb_true_iff. Qed.

(** No row references an event that does not exist. *)
Lemma no_rows_of_missing_event {R} (ref : R -> option uuid) (rs : list R)
    (es : list Events.row) (k : uuid) :
  refs_ok ref Events.id rs es -> has_id Events.id es k = false ->
  forall r, In r rs -> in_ids (ref r) [k] = false.
Proof.
  intros H Hk r Hr. specialize (H r Hr). rewrite in_ids_one.
  destruct (ref r) as [i|] eqn:E; [|reflexivity].
  simpl in H. apply id_is_false. intros [= ->]. congruence.
Qed.

Lemma filter_none {A} (p : A -> bool) (l : list A) :
  (forall x, In x l -> p x = false) -> List.filter p l = [].
Proof.
  induction l as [|x l IH]; simpl; intros H; [reflexivity|].
  rewrite (H x) by (left; reflexivity). apply IH. intros y Hy. apply H. right. exact Hy.
Qed.

Lemma filter_same_In {A} (p : A -> bool) (l : list A) :
  (forall x, In x l -> p x = true) -> List.filter p l = l.
Proof. intros H. apply forallb_filter_id, forallb_forall. exact H. Qed.

(** X9.  An event that was just inserted can be deleted again, and the
    database is then exactly what it was before the INSERT: in a
    reachable state no row can reference the new event, so the cascade
    takes nothing else along. *)
Theorem insert_delete_event (d d1 : db) (e : Events.row) (k : uuid) :
  reachable d -> insert_event d e = Ok d1 -> e.(Events.id) = Some k ->
  delete_event d1 k = Ok d.
Proof.
  intros Hd Hi Hk. apply reachable_integrity in Hd. destruct Hd as (_ & Hri & _ & _).
  unfold insert_event in Hi. ok_steps. subst d1. rewrite Hk in *.
  match goal with
  | H : pkey_ok _ _ _ = true |- _ => apply pkey_ok_fresh in H; rename H into Hf
  end.
  assert (Hnew : has_id Events.id (events d ++ [e]) k = true).
  { apply has_id_true. exists e. split; [apply in_or_app; right; left; reflexivity | exact Hk]. }
  unfold delete_event. simpl. rewrite Hnew. unfold remove_doomed, doomed_by_event. simpl.
  rewrite (filter_none (fun c => in_ids (Categories.event_id c) [k]) (categories d))
    by (apply (no_rows_of_missing_event Categories.event_id _ _ k
                 (ri_categories_event d Hri) Hf)).
  rewrite (filter_none (fun t => in_ids (Teams.event_id t) [k]) (teams d))
    by (apply (no_rows_of_missing_event Teams.event_id _ _ k (ri_teams_event d Hri) Hf)).
  rewrite (filter_none (fun j => in_ids (Judges.event_id j) [k]) (judges d))
    by (apply (no_rows_of_missing_event Judges.event_id _ _ k (ri_judges_event d Hri) Hf)).
  rewrite (filter_none (fun r => in_ids (ScoringRounds.event_id r) [k]) (scoring_rounds d))
    by (apply (no_rows_of_missing_event ScoringRounds.event_id _ _ k
                 (ri_rounds_event d Hri) Hf)).
  simpl.
  rewrite !(filter_same _ (teams d)) by one_key.
  rewrite (proj2 (forallb_forall _ _)) by one_key. simpl.
  f_equal. destruct d; simpl in *. f_equal;
    first
      [ apply filter_same; one_key
      | rewrite (filter_as_others _ Events.id k) by one_key;
        apply others_snoc; assumption
      | apply filter_same_In; intros f Hfin; rewrite in_ids_none, orb_false_r;
        apply negb_true_iff;
        apply (no_rows_of_missing_event FinalResults.event_id _ _ k
                 (ri_final_event _ Hri) Hf);
        exact Hfin ].
Qed.

Lemma insert_delete_event_witness :
  delete_event Sample.with_autumn 2%N = Ok Fx.festival_db.
Proof.
  apply (insert_delete_event Fx.festival_db Sample.with_autumn Fx.autumn 2%N
           festival_reachable).
  - vm_compute. reflexivity.
  - reflexivity.
Defined.

(** X10.  A score that was just inserted can be deleted by its id, and the
    database is then exactly what it was before the INSERT. *)
Theorem insert_delete_score (d d1 : db) (r : Scores.row) (k : uuid) :
  insert_score d r = Ok d1 -> r.(Scores.id) = Some k -> delete_score d1 k = Ok d.
Proof.
  intros Hi Hk. unfold insert_score in Hi. ok_steps. subst d1.
  rewrite Hk in *.
  match goal with H : pkey_ok _ _ _ = true |- _ => apply pkey_ok_fresh in H; rename H into Hf end.
  unfold delete_score. simpl. rewrite (others_snoc _ _ _ _ Hf Hk).
  destruct d; reflexivity.
Qed.

Lemma insert_delete_score_witness :
  delete_score Sample.with_pitch 52%N = Ok Fx.festival_db.
Proof.
  apply (insert_delete_score Fx.festival_db Sample.with_pitch Sample.pitch 52%N).
  - vm_compute. reflexivity.
  - reflexivity.
Defined.

(** X11.  Once a score is stored for a judge, team, round and criterion,
    none of them NULL, every further INSERT for the same four values is
    rejected, whatever the id and the other columns of the new row. *)
Theorem duplicate_score_rejected (d d1 : db) (r r' : Scores.row)
    (j t n : uuid) (c : text) :
  insert_score d r = Ok d1 ->
  tuple_of r = (Some j, Some t, Some n, Some c) -> tuple_of r' = tuple_of r ->
  exists e, insert_score d1 r' = Err e.
Proof.
  intros Hi Ht Hsame. unfold insert_score in Hi. ok_steps. subst d1.
  unfold insert_score.
  destruct (score_row_constraints r') as [[]|e]; [|eauto]. simpl.
  destruct (require (pkey_ok Scores.id _ (Scores.id r')) _) as [[]|e]; [|eauto]. simpl.
  assert (Hc : existsb (scores_key_collides r') (scores d ++ [r]) = true).
  { apply existsb_exists. exists r. split; [apply in_or_app; right; left; reflexivity|].
    apply collides_iff. exists j, t, n, c. split; congruence. }
  rewrite Hc. simpl. eauto.
Qed.

Lemma duplicate_score_rejected_witness :
  exists e, insert_score Sample.with_pitch Sample.pitch_again = Err e.
Proof.
  apply (duplicate_score_rejected Fx.festival_db Sample.with_pitch Sample.pitch
           Sample.pitch_again 30%N 20%N 41%N "pitch").
  - vm_compute. reflexivity.
  - reflexivity.
  - reflexivity.
Defined.

(* ===================================================================== *)
(** * Who passes the policies *)
(* ===================================================================== *)

Lemma is_true_sql_and (a b : tri) :
  is_true (sql_and a b) = is_true a && is_true b.
Proof. destruct a as [[]|], b as [[]|]; reflexivity. Qed.

Lemma owns_event_iff (d : db) (u : uuid) (ref : option uuid) :
  is_true (owns_event d (Authenticated u) ref) = true <-> created_event d u ref.
Proof.
  unfold owns_event, created_event. cbn [is_true auth_uid]. split.
  - intros H.
    assert (H' : existsb (fun e => is_true (sql_and (sql_eq_uuid (Events.id e) ref)
                   (sql_eq_uuid (Events.created_by e) (Some u)))) (events d) = true)
      by (destruct (existsb _ _); [reflexivity | discriminate]).
    apply existsb_exists in H'. destruct H' as (e & He & Hc).
    rewrite is_true_sql_and in Hc. apply andb_true_iff in Hc. destruct Hc as [H1 H2].
    apply is_true_eq_uuid in H1, H2.
    destruct H1 as (k & Hid & ->), H2 as (k' & Hby & [= <-]). eauto 10.
  - intros (e & k & He & -> & Hid & Hby).
    assert (H' : existsb (fun e => is_true (sql_and (sql_eq_uuid (Events.id e) (Some k))
                   (sql_eq_uuid (Events.created_by e) (Some u)))) (events d) = true).
    { apply existsb_exists. exists e. split; [exact He|].
      rewrite Hid, Hby. simpl. rewrite !N.eqb_refl. reflexivity. }
    rewrite H'. reflexivity.
Qed.

Lemma owns_team_iff (d : db) (u : uuid) (ref : option uuid) :
  is_true (owns_team d (Authenticated u) ref) = true <-> created_event_of_team d u ref.
Proof.
  unfold owns_team, created_event_of_team, created_event. cbn [is_true auth_uid]. split.
  - intros H.
    match type of H with
    | (if ?b then _ else _) = true => assert (H' : b = true) by (destruct b; [reflexivity | discriminate])
    end.
    apply existsb_exists in H'. destruct H' as (t & Ht & H').
    apply existsb_exists in H'. destruct H' as (e & He & Hc).
    rewrite is_true_sql_and in Hc.
    apply andb_true_iff in Hc. destruct Hc as [H0 Hc].
    apply andb_true_iff in Hc. destruct Hc as [H1 H2].
    apply is_true_eq_uuid in H0, H1, H2.
    destruct H0 as (i & Hid & Hev), H1 as (k & Htid & ->), H2 as (k' & Hby & [= <-]).
    exists t, k. repeat split; try assumption. exists e, i. auto.
  - intros (t & k & Ht & -> & Htid & e & i & He & Hev & Hid & Hby).
    match goal with
    | |- (if ?b then _ else _) = true => assert (H' : b = true); [|rewrite H'; reflexivity]
    end.
    apply existsb_exists. exists t. split; [exact Ht|].
    apply existsb_exists. exists e. split; [exact He|].
    rewrite Hid, Hev, Htid, Hby. simpl. rewrite !N.eqb_refl. reflexivity.
Qed.

Lemma owns_judge_iff (d : db) (u : uuid) (ref : option uuid) :
  is_true (owns_judge d (Authenticated u) ref) = true <-> created_event_of_judge d u ref.
Proof.
  unfold owns_judge, created_event_of_judge, created_event. cbn [is_true auth_uid]. split.
  - intros H.
    match type of H with
    | (if ?b then _ else _) = true => assert (H' : b = true) by (destruct b; [reflexivity | discriminate])
    end.
    apply existsb_exists in H'. destruct H' as (t & Ht & H').
    apply existsb_exists in H'. destruct H' as (e & He & Hc).
    rewrite is_true_sql_and in Hc.
    apply andb_true_iff in Hc. destruct Hc as [H0 Hc].
    apply andb_true_iff in Hc. destruct Hc as [H1 H2].
    apply is_true_eq_uuid in H0, H1, H2.
    destruct H0 as (i & Hid & Hev), H1 as (k & Htid & ->), H2 as (k' & Hby & [= <-]).
    exists t, k. repeat split; try assumption. exists e, i. auto.
  - intros (t & k & Ht & -> & Htid & e & i & He & Hev & Hid & Hby).
    match goal with
    | |- (if ?b then _ else _) = true => assert (H' : b = true); [|rewrite H'; reflexivity]
    end.
    apply existsb_exists. exists t. split; [exact Ht|].
    apply existsb_exists. exists e. split; [exact He|].
    rewrite Hid, Hev, Htid, Hby. simpl. rewrite !N.eqb_refl. reflexivity.
Qed.

Lemma created_by_caller_iff (d : db) (u : uuid) (e : Events.row) :
  is_true (created_by_caller d (Authenticated u) e) = true <-> e.(Events.created_by) = Some u.
Proof.
  unfold created_by_caller. cbn [auth_uid]. rewrite is_true_eq_uuid. split.
  - intros (k & -> & [= ->]). reflexivity.
  - intros ->. eauto.
Qed.

(** X13.  The anonymous caller passes no policy of [events], [categories],
    [teams], [normalized_scores] and [final_results], for no command and
    no row; on [judges], [judge_assignments] and [scoring_rounds] it
    passes for SELECT and for nothing else. *)
Theorem anonymous_access (cmd : command) (d : db) :
  (forall r, using_allows events_policies cmd d Anonymous r = false /\
             check_allows events_policies cmd d Anonymous r = false) /\
  (forall r, using_allows categories_policies cmd d Anonymous r = false /\
             check_allows categories_policies cmd d Anonymous r = false) /\
  (forall r, using_allows teams_policies cmd d Anonymous r = false /\
             check_allows teams_policies cmd d Anonymous r = false) /\
  (forall r, using_allows normalized_scores_policies cmd d Anonymous r = false /\
             check_allows normalized_scores_policies cmd d Anonymous r = false) /\
  (forall r, using_allows final_results_policies cmd d Anonymous r = false /\
             check_allows final_results_policies cmd d Anonymous r = false) /\
  (forall r, using_allows judges_policies cmd d Anonymous r = command_eqb cmd SELECT /\
             check_allows judges_policies cmd d Anonymous r = command_eqb cmd SELECT) /\
  (forall r, using_allows judge_assignments_policies cmd d Anonymous r
             = command_eqb cmd SELECT /\
             check_allows judge_assignments_policies cmd d Anonymous r
             = command_eqb cmd SELECT) /\
  (forall r, using_allows scoring_rounds_policies cmd d Anonymous r = command_eqb cmd SELECT /\
             check_allows scoring_rounds_policies cmd d Anonymous r = command_eqb cmd SELECT).
Proof. repeat split; destruct cmd; reflexivity. Qed.

(** X14.  The rows of [judges], [judge_assignments], [scoring_rounds] and
    [scores] are readable by every caller: a SELECT returns the whole
    table, whoever asks and whoever owns the event. *)
Theorem public_tables (c : caller) (d : db) :
  select_judges c d = d.(judges) /\
  select_judge_assignments c d = d.(judge_assignments) /\
  select_scoring_rounds c d = d.(scoring_rounds) /\
  select_scores c d = d.(scores).
Proof.
  unfold select_judges, select_judge_assignments, select_scoring_rounds, select_scores.
  repeat split; apply filter_same; intros x; unfold using_allows; cbn [existsb];
    destruct c; cbn; rewrite ?orb_true_r; reflexivity.
Qed.

Ltac policy_cases :=
  unfold using_allows, check_allows; cbn [existsb applies policy_cmd policy_to
    policy_using policy_with_check command_eqb role_eqb role_of andb orb];
  rewrite ?orb_false_r, ?andb_true_r, ?andb_false_r, ?orb_false_l.

(** X15.  An authenticated user sees, updates and deletes the events they
    created and no others, and can neither insert an event in the name of
    someone else nor hand an event over: the row written by an INSERT or
    an UPDATE must have the user as [created_by]. *)
Theorem events_owner_only (cmd : command) (d : db) (u : uuid) (e : Events.row) :
  (using_allows events_policies cmd d (Authenticated u) e = true <->
   cmd <> INSERT /\ e.(Events.created_by) = Some u) /\
  (check_allows events_policies cmd d (Authenticated u) e = true <->
   e.(Events.created_by) = Some u) /\
  select_events (Authenticated u) d
  = List.filter (fun x => id_is u x.(Events.created_by)) d.(events).
Proof.
  split; [|split].
  - destruct cmd; policy_cases; cbn; rewrite ?orb_false_r;
      try rewrite created_by_caller_iff; split;
      try (intros H; split; [discriminate | exact H]);
      try (intros [_ H]; exact H);
      try discriminate; intros [H _]; congruence.
  - destruct cmd; policy_cases; cbn; rewrite ?orb_false_r;
      rewrite created_by_caller_iff; reflexivity.
  - unfold select_events. apply filter_ext. intros x. policy_cases. cbn.
    rewrite ?orb_false_r. reflexivity.
Qed.

(** X16.  The rows that hang on an event are managed by the user who
    created the event and by nobody else.  For [categories] and [teams]
    this holds for every command; for [judges] and [scoring_rounds] for
    the commands that write.  The row an INSERT or UPDATE writes is
    tested in the same way, so a row cannot be moved to, or created
    under, an event of someone else. *)
Theorem event_rows_owner_only (cmd : command) (d : db) (u : uuid) :
  (forall r : Categories.row,
     (using_allows categories_policies cmd d (Authenticated u) r = true <->
      created_event d u r.(Categories.event_id)) /\
     (check_allows categories_policies cmd d (Authenticated u) r = true <->
      created_event d u r.(Categories.event_id))) /\
  (forall r : Teams.row,
     (using_allows teams_policies cmd d (Authenticated u) r = true <->
      created_event d u r.(Teams.event_id)) /\
     (check_allows teams_policies cmd d (Authenticated u) r = true <->
      created_event d u r.(Teams.event_id))) /\
  (forall r : Judges.row,
     (using_allows judges_policies cmd d (Authenticated u) r = true <->
      cmd = SELECT \/ created_event d u r.(Judges.event_id)) /\
     (check_allows judges_policies cmd d (Authenticated u) r = true <->
      cmd = SELECT \/ created_event d u r.(Judges.event_id))) /\
  (forall r : ScoringRounds.row,
     (using_allows scoring_rounds_policies cmd d (Authenticated u) r = true <->
      cmd = SELECT \/ created_event d u r.(ScoringRounds.event_id)) /\
     (check_allows scoring_rounds_policies cmd d (Authenticated u) r = true <->
      cmd = SELECT \/ created_event d u r.(ScoringRounds.event_id))).
Proof.
  repeat split; policy_cases; cbn; rewrite ?orb_false_r, ?andb_true_r;
    try (intros H; apply owns_event_iff; exact H);
    try (intros H; apply owns_event_iff in H; exact H);
    destruct cmd; cbn; rewrite ?orb_false_r, ?orb_true_r;
    try (intros _; left; reflexivity); try reflexivity;
    try (intros H; right; apply owns_event_iff; exact H);
    try (intros [H|H]; [discriminate | apply owns_event_iff in H; exact H]).
Qed.

(** X17.  Ownership through a join.  A row of [normalized_scores] passes,
    for every command, exactly for the user who created the event of the
    team it references; a row of [judge_assignments] passes a writing
    command exactly for the user who created the event of the judge it
    references.  A row whose reference is NULL so passes for nobody. *)
Theorem joined_rows_owner_only (cmd : command) (d : db) (u : uuid) :
  (forall r : NormalizedScores.row,
     (using_allows normalized_scores_policies cmd d (Authenticated u) r = true <->
      created_event_of_team d u r.(NormalizedScores.team_id)) /\
     (check_allows normalized_scores_policies cmd d (Authenticated u) r = true <->
      created_event_of_team d u r.(NormalizedScores.team_id))) /\
  (forall r : JudgeAssignments.row,
     (using_allows judge_assignments_policies cmd d (Authenticated u) r = true <->
      cmd = SELECT \/ created_event_of_judge d u r.(JudgeAssignments.judge_id)) /\
     (check_allows judge_assignments_policies cmd d (Authenticated u) r = true <->
      cmd = SELECT \/ created_event_of_judge d u r.(JudgeAssignments.judge_id))).
Proof.
  split.
  - intros r. split; policy_cases; cbn; rewrite ?orb_false_r, ?andb_true_r;
      apply owns_team_iff.
  - intros r. split; policy_cases; cbn; rewrite ?orb_false_r, ?andb_true_r;
      destruct cmd; cbn; rewrite ?orb_false_r, ?orb_true_r; split;
      try (intros _; left; reflexivity); try reflexivity;
      try (intros H; right; apply owns_judge_iff; exact H);
      try (intros [H|H]; [discriminate | apply owns_judge_iff in H; exact H]).
Qed.

(** X18.  Final results cannot be deleted through the API: no policy of
    [final_results] covers DELETE, so no caller passes for any row.  They
    are read, inserted and updated by the user who created the event they
    reference, and by nobody else. *)
Theorem final_results_never_deleted (d : db) (r : FinalResults.row) :
  (forall c, using_allows final_results_policies DELETE d c r = false /\
             check_allows final_results_policies DELETE d c r = false) /\
  (forall u cmd,
     check_allows final_results_policies cmd d (Authenticated u) r = true <->
     cmd <> DELETE /\ created_event d u r.(FinalResults.event_id)) /\
  (forall u cmd,
     using_allows final_results_policies cmd d (Authenticated u) r = true <->
     (cmd = SELECT \/ cmd = UPDATE) /\ created_event d u r.(FinalResults.event_id)).
Proof.
  split; [|split].
  - intros c. destruct c; split; reflexivity.
  - intros u cmd. destruct cmd;
      policy_cases; cbn -[owns_event is_true]; rewrite ?orb_false_r, ?andb_true_r;
      try rewrite owns_event_iff; split;
      try (intros H; split; [discriminate | exact H]);
      try (intros [_ H]; exact H); try discriminate;
      intros [H _]; congruence.
  - intros u cmd. destruct cmd;
      policy_cases; cbn -[owns_event is_true]; rewrite ?orb_false_r, ?andb_true_r;
      try rewrite owns_event_iff; split;
      try (intros H; split; [auto | exact H]);
      try (intros [_ H]; exact H); try discriminate;
      intros [[H|H] _]; discriminate.
Qed.

(* ===================================================================== *)
(** * The invitation function: every request *)
(* ===================================================================== *)

Section InvitationRequests.
Import Js Invitation.

Variable Number_toString : Q -> jsstring.

Lemma eff_bind_throw {St A B} (e : error) (k : A -> Eff St B) (st : St) :
  (lift (Throw e) ≫= k) st = (Throw e, st).
Proof. reflexivity. Qed.

(** The [try] block on a body that parses, destructures and renders. *)
Lemma try_block_accepts (req : Request) (out : console) (v : value)
    (r : InvitationRequest) (en jn url tok je : jsstring) :
  JSON_parse (body req) = Return v -> destructure v = Return r ->
  ToString Number_toString r.(eventName) = Return en ->
  ToString Number_toString r.(judgeName) = Return jn ->
  ToString Number_toString r.(dashboardUrl) = Return url ->
  ToString Number_toString r.(accessToken) = Return tok ->
  ToString Number_toString r.(judgeEmail) = Return je ->
  try_block Number_toString req out
  = (Return {| status := 200;
               headers := corsHeaders ++ [(lit "Content-Type", lit "application/json")];
               payload :=
                 Some (Object [ (lit "success", Bool true);
                                (lit "message", Str (lit "Invitation email sent successfully"));
                                (lit "preview", Str (emailContent en jn url tok)) ]) |},
     out ++ [ console_log (lit "Email would be sent to: " ++ je);
              console_log (lit "Event: " ++ en);
              console_log (lit "Access Token: " ++ tok);
              console_log (lit "Dashboard URL: " ++ url) ]).
Proof.
  intros Hp Hd H1 H2 H3 H4 H5. unfold try_block, req_json, subst.
  rewrite Hp, eff_bind_return, Hd, eff_bind_return, H1, eff_bind_return,
    H2, eff_bind_return, H3, eff_bind_return, H4, eff_bind_return, H5, eff_bind_return.
  unfold log, mbind, eff_mbind, eff_bind, mret, eff_mret, eff_ret.
  rewrite <- !app_assoc. reflexivity.
Qed.

(** The [try] block returns, after its four lines are logged, or throws
    with nothing logged; it returns exactly on the accepted bodies. *)
Lemma try_block_result (req : Request) (out : console) :
  (body_accepted Number_toString (body req) /\
   exists html a b c d,
     try_block Number_toString req out
     = (Return {| status := 200;
                  headers := corsHeaders ++ [(lit "Content-Type", lit "application/json")];
                  payload :=
                    Some (Object [ (lit "success", Bool true);
                                   (lit "message",
                                    Str (lit "Invitation email sent successfully"));
                                   (lit "preview", Str html) ]) |},
        out ++ [console_log a; console_log b; console_log c; console_log d])) \/
  (~ body_accepted Number_toString (body req) /\
   exists e, try_block Number_toString req out = (Throw e, out)).
Proof.
  destruct (JSON_parse (body req)) as [v|e] eqn:Hp.
  2:{ right. split.
      - intros (v' & r' & Hp' & _). congruence.
      - exists e. unfold try_block, req_json. rewrite Hp. reflexivity. }
  destruct (destructure v) as [r|e] eqn:Hd.
  2:{ right. split.
      - intros (v' & r' & Hp' & Hd' & _). congruence.
      - exists e. unfold try_block, req_json. rewrite Hp, eff_bind_return, Hd. reflexivity. }
  destruct (ToString Number_toString r.(eventName)) as [en|e] eqn:H1.
  2:{ right. split.
      - intros (v' & r' & Hp' & Hd' & (s & Hs) & _). congruence.
      - exists e. unfold try_block, req_json, subst.
        rewrite Hp, eff_bind_return, Hd, eff_bind_return, H1. reflexivity. }
  destruct (ToString Number_toString r.(judgeName)) as [jn|e] eqn:H2.
  2:{ right. split.
      - intros (v' & r' & Hp' & Hd' & _ & (s & Hs) & _). congruence.
      - exists e. unfold try_block, req_json, subst.
        rewrite Hp, eff_bind_return, Hd, eff_bind_return, H1, eff_bind_return, H2.
        reflexivity. }
  destruct (ToString Number_toString r.(dashboardUrl)) as [url|e] eqn:H3.
  2:{ right. split.
      - intros (v' & r' & Hp' & Hd' & _ & _ & (s & Hs) & _). congruence.
      - exists e. unfold try_block, req_json, subst.
        rewrite Hp, eff_bind_return, Hd, eff_bind_return, H1, eff_bind_return,
          H2, eff_bind_return, H3.
        reflexivity. }
  destruct (ToString Number_toString r.(accessToken)) as [tok|e] eqn:H4.
  2:{ right. split.
      - intros (v' & r' & Hp' & Hd' & _ & _ & _ & (s & Hs) & _). congruence.
      - exists e. unfold try_block, req_json, subst.
        rewrite Hp, eff_bind_return, Hd, eff_bind_return, H1, eff_bind_return,
          H2, eff_bind_return, H3, eff_bind_return, H4.
        reflexivity. }
  destruct (ToString Number_toString r.(judgeEmail)) as [je|e] eqn:H5.
  2:{ right. split.
      - intros (v' & r' & Hp' & Hd' & _ & _ & _ & _ & (s & Hs)). congruence.
      - exists e. unfold try_block, req_json, subst.
        rewrite Hp, eff_bind_return, Hd, eff_bind_return, H1, eff_bind_return,
          H2, eff_bind_return, H3, eff_bind_return, H4, eff_bind_return, H5.
        reflexivity. }
  left. split.
  - exists v, r. unfold renders. repeat split; eauto.
  - do 5 eexists. eapply try_block_accepts; eassumption.
Qed.

Lemma method_options (req : Request) :
  jsstring_eqb req.(method) (lit "OPTIONS") = true <-> req.(method) = lit "OPTIONS".
Proof. unfold jsstring_eqb. apply bool_decide_eq_true. Qed.

(** What the function reads as the body, from what was sent. *)
Lemma body_read (req : Request) :
  bodiless req.(method) = false -> body req = req.(sent).
Proof. intros H. unfold body. rewrite H. reflexivity. Qed.

Lemma body_accepted_sent (req : Request) :
  body_accepted Number_toString (body req) <->
  bodiless req.(method) = false /\ body_accepted Number_toString req.(sent).
Proof.
  unfold body. destruct (bodiless req.(method)); split.
  - intros (v & r & Hp & _). vm_compute in Hp. discriminate.
  - intros [H _]. discriminate.
  - intros H. split; [reflexivity | exact H].
  - intros [_ H]. exact H.
Qed.

Lemma options_has_body : bodiless (lit "OPTIONS") = false.
Proof. reflexivity. Qed.

(** X19.  The status of the response is 200 or 500.  It is 200 exactly
    when the method is OPTIONS, or the method is one whose requests have
    a body (any but GET and HEAD) and the text sent is JSON for a value
    that can be destructured and whose five fields have a string
    conversion.  A GET or HEAD request is answered with 500 whatever was
    sent with it, since there is no body to parse; whether the five
    fields are there does not count. *)
Theorem invitation_status (req : Request) (out : console) :
  exists resp out',
    handler Number_toString req out = (Return resp, out') /\
    (resp.(status) = 200%Z \/ resp.(status) = 500%Z) /\
    (resp.(status) = 200%Z <->
     req.(method) = lit "OPTIONS" \/
     (bodiless req.(method) = false /\ body_accepted Number_toString req.(sent))) /\
    (bodiless req.(method) = true -> resp.(status) = 500%Z).
Proof.
  unfold handler. destruct (jsstring_eqb req.(method) (lit "OPTIONS")) eqn:Hm.
  - apply method_options in Hm. eexists. eexists. split; [reflexivity|].
    cbn [status]. split; [left; reflexivity|]. split; [split; auto|].
    rewrite Hm, options_has_body. discriminate.
  - assert (Hne : req.(method) <> lit "OPTIONS").
    { intros H. apply method_options in H. congruence. }
    unfold try_catch.
    destruct (try_block_result req out)
      as [(Hacc & html & a & b & c & d0 & ->)|(Hrej & e & ->)].
    + apply body_accepted_sent in Hacc.
      eexists. eexists. split; [reflexivity|]. cbn [status].
      split; [left; reflexivity|]. split; [split; auto|].
      destruct Hacc as [Hb _]. congruence.
    + eexists. eexists. split; [reflexivity|]. cbn [status].
      split; [right; reflexivity|]. split; [|reflexivity].
      split; [discriminate|].
      intros [H|H]; [contradiction|]. apply body_accepted_sent in H. contradiction.
Qed.

(** X20.  The fields need not be strings.  For a request whose method is
    not OPTIONS and has a body (not GET, not HEAD): whatever values the
    text sent gives the fields, as long as each has a string conversion,
    the response is the success response, and the preview is the template filled with the
    conversions: the link of the dashboard is the url, [?token=] and the
    token, both as they are, and the name of the judge stands after
    "Dear". *)
Theorem invitation_renders_fields (req : Request) (out : console) (v : value)
    (r : InvitationRequest) (en jn url tok je : jsstring) :
  req.(method) <> lit "OPTIONS" -> bodiless req.(method) = false ->
  JSON_parse req.(sent) = Return v -> destructure v = Return r ->
  ToString Number_toString r.(eventName) = Return en ->
  ToString Number_toString r.(judgeName) = Return jn ->
  ToString Number_toString r.(dashboardUrl) = Return url ->
  ToString Number_toString r.(accessToken) = Return tok ->
  ToString Number_toString r.(judgeEmail) = Return je ->
  handler Number_toString req out
  = (Return {| status := 200;
               headers := corsHeaders ++ [(lit "Content-Type", lit "application/json")];
               payload :=
                 Some (Object [ (lit "success", Bool true);
                                (lit "message", Str (lit "Invitation email sent successfully"));
                                (lit "preview", Str (emailContent en jn url tok)) ]) |},
     out ++ [ console_log (lit "Email would be sent to: " ++ je);
              console_log (lit "Event: " ++ en);
              console_log (lit "Access Token: " ++ tok);
              console_log (lit "Dashboard URL: " ++ url) ]) /\
  contains (lit "<a href=" ++ dq ++ url ++ lit "?token=" ++ tok ++ dq)
           (emailContent en jn url tok) /\
  contains (lit "<p>Dear " ++ jn ++ lit ",</p>") (emailContent en jn url tok).
Proof.
  intros Hm Hb Hp Hd H1 H2 H3 H4 H5. rewrite <- (body_read req Hb) in Hp.
  split; [|split].
  - unfold handler. rewrite (jsstring_eqb_false _ _ Hm). unfold try_catch.
    rewrite (try_block_accepts req out v r en jn url tok je Hp Hd H1 H2 H3 H4 H5).
    reflexivity.
  - unfold emailContent.
    repeat lazymatch goal with
           | |- contains _ (lit "            <a href=" ++ _) => fail
           | |- _ => apply contains_skip
           end.
    change (lit "            <a href=") with (lit "            " ++ lit "<a href=").
    rewrite <- app_assoc. apply contains_skip.
    exists []. eexists. rewrite <- !app_assoc. reflexivity.
  - unfold emailContent.
    repeat lazymatch goal with
           | |- contains _ (lit "          <p>Dear " ++ _) => fail
           | |- _ => apply contains_skip
           end.
    change (lit "          <p>Dear ") with (lit "          " ++ lit "<p>Dear ").
    rewrite <- app_assoc. apply contains_skip.
    exists []. eexists. rewrite <- !app_assoc. reflexivity.
Qed.

Lemma get_prop_missing (k : jsstring) (ps : list (jsstring * value)) :
  has_prop k ps = false -> get_prop k ps = Undefined.
Proof.
  unfold has_prop. induction ps as [|[k' v] ps IH]; simpl; [reflexivity|].
  destruct (jsstring_eqb k k'); simpl; [discriminate | exact IH].
Qed.

Lemma destructure_no_field (v : value) :
  no_invitation_field v ->
  destructure v
  = Return {| judgeName := Undefined; judgeEmail := Undefined; eventName := Undefined;
              accessToken := Undefined; dashboardUrl := Undefined |}.
Proof.
  destruct v as [| |b|q|s|es|ps]; simpl; try contradiction; try reflexivity.
  intros H.
  repeat match goal with
         | H : Forall _ (_ :: _) |- _ => inversion H; subst; clear H
         end.
  rewrite !get_prop_missing by assumption. reflexivity.
Qed.

(** X21.  Nothing is validated.  For a request whose method is not
    OPTIONS and has a body (not GET, not HEAD), a text sent that is JSON
    for a number, a string, a boolean, an array, or an object without the
    five fields is accepted like a full one: the response is the success response with
    status 200, the preview is the template with "undefined" in every
    place, and the four lines are logged with "undefined". *)
Theorem invitation_without_fields (req : Request) (out : console) (v : value) :
  req.(method) <> lit "OPTIONS" -> bodiless req.(method) = false ->
  JSON_parse req.(sent) = Return v -> no_invitation_field v ->
  handler Number_toString req out
  = (Return {| status := 200;
               headers := corsHeaders ++ [(lit "Content-Type", lit "application/json")];
               payload :=
                 Some (Object [ (lit "success", Bool true);
                                (lit "message", Str (lit "Invitation email sent successfully"));
                                (lit "preview",
                                 Str (emailContent (lit "undefined") (lit "undefined")
                                        (lit "undefined") (lit "undefined"))) ]) |},
     out ++ [ console_log (lit "Email would be sent to: " ++ lit "undefined");
              console_log (lit "Event: " ++ lit "undefined");
              console_log (lit "Access Token: " ++ lit "undefined");
              console_log (lit "Dashboard URL: " ++ lit "undefined") ]).
Proof.
  intros Hm Hb Hp Hv. rewrite <- (body_read req Hb) in Hp. unfold handler. rewrite (jsstring_eqb_false _ _ Hm). unfold try_catch.
  rewrite (try_block_accepts req out v _ _ _ _ _ _ Hp (destructure_no_field v Hv)
             eq_refl eq_refl eq_refl eq_refl eq_refl).
  reflexivity.
Qed.

(** X22.  Every response carries the three CORS headers, the error
    responses included; the answer to OPTIONS carries nothing else and has
    no body, every other response is declared as JSON.  The function
    only adds to the console: nothing for OPTIONS, the four lines for a
    success, the one error entry for a failure. *)
Theorem invitation_headers_and_console (req : Request) (out : console) :
  exists resp entries,
    handler Number_toString req out = (Return resp, out ++ entries) /\
    incl corsHeaders resp.(headers) /\
    resp.(headers)
    = (if jsstring_eqb req.(method) (lit "OPTIONS") then corsHeaders
       else corsHeaders ++ [(lit "Content-Type", lit "application/json")]) /\
    (resp.(payload) = None <-> req.(method) = lit "OPTIONS") /\
    ((req.(method) = lit "OPTIONS" /\ entries = []) \/
     (resp.(status) = 200%Z /\
      exists a b c d,
        entries = [console_log a; console_log b; console_log c; console_log d]) \/
     (resp.(status) = 500%Z /\
      exists e, entries = [console_error (lit "Error sending invitation:") e])).
Proof.
  unfold handler. destruct (jsstring_eqb req.(method) (lit "OPTIONS")) eqn:Hm.
  - apply method_options in Hm. exists {| status := 200; headers := corsHeaders; payload := None |}, [].
    rewrite app_nil_r. split; [reflexivity|]. cbn [headers status payload].
    split; [apply incl_refl|]. split; [reflexivity|]. split; [split; auto|]. left. auto.
  - assert (Hne : req.(method) <> lit "OPTIONS").
    { intros H. apply method_options in H. congruence. }
    unfold try_catch.
    destruct (try_block_result req out)
      as [(Hacc & html & a & b & c & d0 & ->)|(Hrej & e & ->)].
    + eexists. eexists. split; [reflexivity|]. cbn [headers status payload].
      split; [apply incl_appl, incl_refl|]. split; [reflexivity|].
      split; [split; [discriminate | contradiction]|].
      right. left. split; [reflexivity|]. eauto.
    + eexists. exists [console_error (lit "Error sending invitation:") e].
      split; [reflexivity|]. cbn [headers status payload].
      split; [apply incl_appl, incl_refl|]. split; [reflexivity|].
      split; [split; [discriminate | contradiction]|].
      right. right. split; [reflexivity|]. eauto.
Qed.

End InvitationRequests.

Lemma invitation_renders_fields_witness :
  Invitation.handler Ex.no_digits Sample.mixed_request []
  = (Js.Return
       {| Invitation.status := 200;
          Invitation.headers :=
            Invitation.corsHeaders ++ [(Js.lit "Content-Type", Js.lit "application/json")];
          Invitation.payload :=
            Some (Js.Object
                    [ (Js.lit "success", Js.Bool true);
                      (Js.lit "message", Js.Str (Js.lit "Invitation email sent successfully"));
                      (Js.lit "preview",
                       Js.Str (Invitation.emailContent (Js.lit "a,b") (Js.lit "true")
                                 (Js.lit "u") (Js.lit "null"))) ]) |},
     [] ++ [ Invitation.console_log (Js.lit "Email would be sent to: " ++ Js.lit "false");
             Invitation.console_log (Js.lit "Event: " ++ Js.lit "a,b");
             Invitation.console_log (Js.lit "Access Token: " ++ Js.lit "null");
             Invitation.console_log (Js.lit "Dashboard URL: " ++ Js.lit "u") ]) /\
  contains (Js.lit "<a href=" ++ Js.dq ++ Js.lit "u" ++ Js.lit "?token=" ++ Js.lit "null"
              ++ Js.dq)
           (Invitation.emailContent (Js.lit "a,b") (Js.lit "true") (Js.lit "u")
              (Js.lit "null")) /\
  contains (Js.lit "<p>Dear " ++ Js.lit "true" ++ Js.lit ",</p>")
           (Invitation.emailContent (Js.lit "a,b") (Js.lit "true") (Js.lit "u")
              (Js.lit "null")).
Proof.
  apply (invitation_renders_fields Ex.no_digits Sample.mixed_request []
           (Js.Object [ (Js.lit "judgeName", Js.Bool true);
                        (Js.lit "judgeEmail", Js.Bool false);
                        (Js.lit "eventName",
                         Js.Array [Js.Str (Js.lit "a"); Js.Str (Js.lit "b")]);
                        (Js.lit "accessToken", Js.Null);
                        (Js.lit "dashboardUrl", Js.Str (Js.lit "u")) ])
           Sample.mixed_fields
           (Js.lit "a,b") (Js.lit "true") (Js.lit "u") (Js.lit "null") (Js.lit "false")).
  - vm_compute. discriminate.
  - vm_compute. reflexivity.
  - vm_compute. reflexivity.
  - vm_compute. reflexivity.
  - vm_compute. reflexivity.
  - vm_compute. reflexivity.
  - vm_compute. reflexivity.
  - vm_compute. reflexivity.
  - vm_compute. reflexivity.
Defined.

Lemma invitation_without_fields_witness :
  Invitation.handler Ex.no_digits Fx.empty_object_request []
  = (Js.Return
       {| Invitation.status := 200;
          Invitation.headers :=
            Invitation.corsHeaders ++ [(Js.lit "Content-Type", Js.lit "application/json")];
          Invitation.payload :=
            Some (Js.Object
                    [ (Js.lit "success", Js.Bool true);
                      (Js.lit "message", Js.Str (Js.lit "Invitation email sent successfully"));
                      (Js.lit "preview",
                       Js.Str (Invitation.emailContent (Js.lit "undefined")
                                 (Js.lit "undefined") (Js.lit "undefined")
                                 (Js.lit "undefined"))) ]) |},
     [] ++ [ Invitation.console_log (Js.lit "Email would be sent to: " ++ Js.lit "undefined");
             Invitation.console_log (Js.lit "Event: " ++ Js.lit "undefined");
             Invitation.console_log (Js.lit "Access Token: " ++ Js.lit "undefined");
             Invitation.console_log (Js.lit "Dashboard URL: " ++ Js.lit "undefined") ]).
Proof.
  apply (invitation_without_fields Ex.no_digits Fx.empty_object_request [] (Js.Object [])).
  - vm_compute. discriminate.
  - vm_compute. reflexivity.
  - vm_compute. reflexivity.
  - vm_compute. repeat constructor.
Defined.

(** A GET request has no body to parse, whatever was sent with it: the
    text that gives the success response with PUT gives the error
    response with GET. *)
Example invitation_get_has_no_body :
  Invitation.body Sample.get_request = [] /\
  Invitation.handler Ex.no_digits Sample.get_request []
  = (Js.Return
       {| Invitation.status := 500;
          Invitation.headers :=
            Invitation.corsHeaders ++ [(Js.lit "Content-Type", Js.lit "application/json")];
          Invitation.payload :=
            Some (Js.Object [ (Js.lit "success", Js.Bool false);
                              (Js.lit "error", Js.Str (Js.lit "Unexpected token in JSON")) ]) |},
     [Invitation.console_error (Js.lit "Error sending invitation:") Js.SyntaxError]).
Proof. split; vm_compute; reflexivity. Qed.

(** A body that is a number is answered like a full invitation. *)
Example invitation_number_body :
  exists resp out,
    Invitation.handler Ex.no_digits Fx.number_request [] = (Js.Return resp, out) /\
    resp.(Invitation.status) = 200%Z /\ length out = 4%nat.
Proof. eexists. eexists. split; [vm_compute; reflexivity|]. split; reflexivity. Qed.


(* ===================================================================== *)
(** * The client state mirror: loading and saving *)
(* ===================================================================== *)

Section MirrorFacts.
Import Js AppContext Persist.

Ltac each_load ls :=
  destruct (load ls "events" default_events) eqn:?;
  destruct (load ls "teams" default_teams) eqn:?;
  destruct (load ls "judges" default_judges) eqn:?;
  destruct (load ls "categories" default_categories) eqn:?;
  destruct (load ls "evaluations" default_evaluations) eqn:?.

Ltac each_cell H :=
  simpl in H;
  destruct H as [[= <- <- <-]|[[= <- <- <-]|[[= <- <- <-]|[[= <- <- <-]|
                [[= <- <- <-]|[]]]]]].

(** Loading a key returns unless the key holds a text that does not
    parse. *)
Lemma load_returns_iff (ls : storage) (key : string) (seed : value) :
  (exists v, load ls key seed = Return v) <->
  (forall text, ls !! lit key = Some text -> exists v, JSON_parse text = Return v).
Proof.
  unfold load, getItem. destruct (ls !! lit key) as [text|] eqn:E; simpl.
  - destruct (JSON_parse text) as [v|e] eqn:Hp; simpl; split.
    + intros _ text' [= <-]. eauto.
    + intros _. eauto.
    + intros (v & H). discriminate.
    + intros H. destruct (H text eq_refl) as (v & Hv). congruence.
  - split; [intros _ text' H; discriminate|]. intros _. eexists. reflexivity.
Qed.

(** X23.  [loadData] completes exactly when every one of the five keys
    that is present holds a text JSON.parse accepts.  The state it then
    leaves does not depend on the state before: each cell holds what was
    loaded for its key, that is the parsed value, or the seed when that
    value is falsy (a stored [null], [false], [0] or empty string). *)
Theorem loadData_completes (ls : storage) (st : state) :
  ((exists st', loadData ls st = (Return tt, st')) <->
   (forall key cell seed text,
      In (key, cell, seed) cells -> ls !! lit key = Some text ->
      exists v, JSON_parse text = Return v)) /\
  (forall st',
     loadData ls st = (Return tt, st') ->
     (forall st0, loadData ls st0 = (Return tt, st')) /\
     (forall key cell seed text v,
        In (key, cell, seed) cells -> ls !! lit key = Some text ->
        JSON_parse text = Return v ->
        cell st' = or_else v seed /\ (ToBoolean v = false -> cell st' = seed))).
Proof.
  split.
  - split.
    + intros (st' & H) key cell seed text Hc Hs.
      apply (proj1 (load_returns_iff ls key seed)); [|exact Hs].
      rewrite loadData_steps in H. each_cell Hc; each_load ls; try discriminate; eauto.
    + intros H. rewrite loadData_steps.
      destruct (proj2 (load_returns_iff ls "events" default_events)) as (v1 & ->).
      { intros text Hs. apply (H "events" events default_events text); simpl; auto. }
      destruct (proj2 (load_returns_iff ls "teams" default_teams)) as (v2 & ->).
      { intros text Hs. apply (H "teams" teams default_teams text); simpl; auto. }
      destruct (proj2 (load_returns_iff ls "judges" default_judges)) as (v3 & ->).
      { intros text Hs. apply (H "judges" judges default_judges text); simpl; auto. }
      destruct (proj2 (load_returns_iff ls "categories" default_categories)) as (v4 & ->).
      { intros text Hs. apply (H "categories" categories default_categories text);
          simpl; auto 10. }
      destruct (proj2 (load_returns_iff ls "evaluations" default_evaluations)) as (v5 & ->).
      { intros text Hs. apply (H "evaluations" evaluations default_evaluations text);
          simpl; auto 10. }
      eauto.
  - intros st' H. split.
    + intros st0. rewrite loadData_steps in H |- *.
      each_load ls; try discriminate. injection H as <-. reflexivity.
    + intros key cell seed text v Hc Hs Hp.
      pose proof (load_parsable ls key seed text v Hs Hp) as Hl.
      assert (Hcell : cell st' = or_else v seed).
      { rewrite loadData_steps in H.
        each_cell Hc; rewrite Hl in H; each_load ls; try discriminate;
          injection H as <-; simpl; congruence. }
      split; [exact Hcell|]. intros Hf. rewrite Hcell. unfold or_else. rewrite Hf.
      reflexivity.
Qed.

End MirrorFacts.

(** Five entries that parse: the number and the arrays are kept, [null]
    and [false] give way to the seeds. *)
Example loadData_full_storage :
  AppContext.loadData Fx.full_storage AppContext.initial
  = (Js.Return tt,
     {| AppContext.events := AppContext.num 5;
        AppContext.teams := AppContext.default_teams;
        AppContext.judges := Js.Array [];
        AppContext.categories := Js.Array [Js.Bool true];
        AppContext.evaluations := AppContext.default_evaluations |}).
Proof. vm_compute. reflexivity. Qed.

Section SaveFacts.
Import Js AppContext Persist.

Variable JSON_stringify : value -> jsstring.

Ltac other_key := intros Heq; vm_compute in Heq; discriminate.

Ltac each_mirror_cell H :=
  simpl in H;
  destruct H as [[= <- <- <-]|[[= <- <- <-]|[[= <- <- <-]|[[= <- <- <-]|
                [[= <- <- <-]|[]]]]]].

Lemma saveData_mirrored (st : state) (ls : storage)
    (key : string) (cell : state -> value) (seed : value) :
  In (key, cell, seed) cells ->
  saveData JSON_stringify st ls !! lit key = Some (JSON_stringify (cell st)).
Proof.
  intros Hc. unfold saveData, setItem. each_mirror_cell Hc.
  - rewrite !lookup_insert_ne by other_key. apply lookup_insert_eq.
  - rewrite !lookup_insert_ne by other_key. apply lookup_insert_eq.
  - rewrite !lookup_insert_ne by other_key. apply lookup_insert_eq.
  - rewrite !lookup_insert_ne by other_key. apply lookup_insert_eq.
  - apply lookup_insert_eq.
Qed.

Lemma saveData_other (st : state) (ls : storage) (k : jsstring) :
  ~ mirrored k -> saveData JSON_stringify st ls !! k = ls !! k.
Proof.
  unfold mirrored. simpl. intros H. unfold saveData, setItem.
  rewrite !lookup_insert_ne by (intros <-; apply H; auto 10). reflexivity.
Qed.

Lemma mirrored_dec (k : jsstring) : mirrored k \/ ~ mirrored k.
Proof. unfold mirrored. destruct (decide (k ∈ map (fun c => lit c.1.1) cells)) as [H|H].
  - left. apply list_elem_of_In. exact H.
  - right. intros H'. apply H. apply list_elem_of_In. exact H'.
Qed.

(** X25.  [saveData] writes the five keys of the mirror and nothing
    else: each of them then holds the text of its state cell, whatever
    it held before, and every other key of the storage (the session's
    [currentUser] among them) holds what it held.  A save overwrites the
    save before it. *)
Theorem saveData_writes_the_mirror (st : state) (ls : storage) :
  (forall key cell seed,
     In (key, cell, seed) cells ->
     getItem (saveData JSON_stringify st ls) (lit key) = Some (JSON_stringify (cell st))) /\
  (forall k, ~ mirrored k -> getItem (saveData JSON_stringify st ls) k = getItem ls k) /\
  (forall st0, saveData JSON_stringify st (saveData JSON_stringify st0 ls)
               = saveData JSON_stringify st ls).
Proof.
  split; [|split].
  - intros key cell seed Hc. apply (saveData_mirrored st ls key cell seed Hc).
  - intros k Hk. apply saveData_other. exact Hk.
  - intros st0. apply map_eq. intros k. destruct (mirrored_dec k) as [Hk|Hk].
    + unfold mirrored in Hk. apply in_map_iff in Hk. destruct Hk as ([[key cell] seed] & <- & Hc).
      simpl. rewrite !(saveData_mirrored _ _ key cell seed Hc). reflexivity.
    + rewrite !saveData_other by exact Hk. reflexivity.
Qed.

(** X26.  What is saved is what is loaded again, for a state whose five
    cells are truthy (every array is) and are read back by JSON.parse
    from the text JSON.stringify gives them: the load completes, from any
    state, with exactly the saved state, whatever the storage held. *)
Theorem save_then_load (st st0 : state) (ls : storage) :
  (forall key cell seed,
     In (key, cell, seed) cells ->
     JSON_parse (JSON_stringify (cell st)) = Return (cell st) /\
     ToBoolean (cell st) = true) ->
  loadData (saveData JSON_stringify st ls) st0 = (Return tt, st).
Proof.
  intros H. rewrite loadData_steps.
  assert (Hl : forall key cell seed,
             In (key, cell, seed) cells ->
             load (saveData JSON_stringify st ls) key seed = Return (cell st)).
  { intros key cell seed Hc. destruct (H key cell seed Hc) as [Hp Ht].
    rewrite (load_parsable _ key seed _ _ (saveData_mirrored st ls key cell seed Hc) Hp).
    unfold or_else. rewrite Ht. reflexivity. }
  rewrite (Hl "events" events default_events) by (simpl; auto).
  rewrite (Hl "teams" teams default_teams) by (simpl; auto).
  rewrite (Hl "judges" judges default_judges) by (simpl; auto).
  rewrite (Hl "categories" categories default_categories) by (simpl; auto 10).
  rewrite (Hl "evaluations" evaluations default_evaluations) by (simpl; auto 10).
  destruct st; reflexivity.
Qed.

End SaveFacts.

Lemma save_then_load_witness :
  AppContext.loadData (Persist.saveData Fx.stringify_example Fx.some_state Fx.stale_storage)
    AppContext.initial
  = (Js.Return tt, Fx.some_state).
Proof.
  apply (save_then_load Fx.stringify_example Fx.some_state AppContext.initial
           Fx.stale_storage).
  intros key cell seed Hin. simpl in Hin.
  destruct Hin as [[= <- <- <-]|[[= <- <- <-]|[[= <- <- <-]|[[= <- <- <-]|
                  [[= <- <- <-]|[]]]]]]; split; vm_compute; reflexivity.
Defined.
